(** * Point-cloud label editor: a shallow embedding of [pcd_check_json.py]

    The development follows the source file top to bottom:
    - the pieces of [os.path] and [str] the program calls ([splitext],
      [endswith], [startswith], [lower], [strip]);
    - [difflib.get_close_matches], parameterised by the similarity ratio,
      together with an executable rendering of [SequenceMatcher.ratio]
      used to run the program on concrete inputs;
    - [sync_json_pcd_filenames];
    - the [Editor] class: its store [self.data], the selector and rotation
      control, and the methods that read or write the store.

    Conventions.  A Python [str] is a [string] of ASCII characters;
    comparison is the lexicographic order on character codes.  Box scalars
    (JSON numbers, NumPy and Qt floats) are idealised as real numbers, so
    floating-point rounding is not represented; the one value in which
    rounding decides a whole number, the slider position
    [int(math.degrees(yaw) % 360)], is computed on IEEE doubles as well, in
    [Float64].  Similarity ratios are
    quotients of integers and are kept exact in [Q].  A method of [Editor]
    is a computation in a state monad over the editor's fields in which a
    raised exception keeps the state reached so far.  What lies outside the
    program is a parameter of the methods that use it: the directory
    listing, the point-cloud reader, and whether the toolkit draws a scene
    without raising.  Widget construction ([_build_ui], the scatter and box
    items) writes none of the fields modelled here and is left out. *)

From Stdlib Require Import List ZArith QArith Bool Ascii String Lia.
From Stdlib Require Import Permutation Sorted OrderedTypeEx.
From Stdlib Require Import Reals Lra.
From Stdlib Require Floats.
Import ListNotations.

Set Implicit Arguments.

(* ------------------------------------------------------------------ *)
(** ** Generic list helpers                                            *)
(* ------------------------------------------------------------------ *)

(** [l[k] = v] on a Python list; [None] is [IndexError]. *)
Definition list_set {A} (l : list A) (k : nat) (v : A) : option (list A) :=
  if (k <? List.length l)%nat
  then Some (firstn k l ++ v :: skipn (S k) l)
  else None.

(** [l.pop(k)] for [0 <= k < len(l)]: the list that remains. *)
Definition list_pop {A} (l : list A) (k : nat) : list A :=
  firstn k l ++ skipn (S k) l.

(** Stable insertion sort driven by a strict comparison, as [list.sort]
    and [sorted] only ever ask [x < y]. *)
Fixpoint insert_by {A} (ltb : A -> A -> bool) (x : A) (l : list A) : list A :=
  match l with
  | [] => [x]
  | y :: t => if ltb y x then y :: insert_by ltb x t else x :: y :: t
  end.

Fixpoint sort_by {A} (ltb : A -> A -> bool) (l : list A) : list A :=
  match l with
  | [] => []
  | x :: t => insert_by ltb x (sort_by ltb t)
  end.

(* ------------------------------------------------------------------ *)
(** ** Strings and paths                                               *)
(* ------------------------------------------------------------------ *)

Module Str.
Open Scope string_scope.

(** [s.lower()] on the ASCII range. *)
Definition lower_char (c : ascii) : ascii :=
  let n := nat_of_ascii c in
  if ((65 <=? n) && (n <=? 90))%nat then ascii_of_nat (n + 32) else c.

Fixpoint lower (s : string) : string :=
  match s with
  | EmptyString => EmptyString
  | String c t => String (lower_char c) (lower t)
  end.

(** [s.startswith(p)] and [s.endswith(p)]. *)
Definition startswith (s p : string) : bool := String.prefix p s.

Definition endswith (s p : string) : bool :=
  let n := String.length s in
  let m := String.length p in
  (m <=? n)%nat && String.eqb (String.substring (n - m) m s) p.

(** Whitespace as [str.strip()] sees it within the ASCII range:
    TAB, LF, VT, FF, CR, the separators FS GS RS US, and the space. *)
Definition isspace (c : ascii) : bool :=
  let n := nat_of_ascii c in
  ((9 <=? n) && (n <=? 13) || (28 <=? n) && (n <=? 32))%nat.

Fixpoint lstrip (s : string) : string :=
  match s with
  | EmptyString => EmptyString
  | String c t => if isspace c then lstrip t else s
  end.

Fixpoint rstrip (s : string) : string :=
  match s with
  | EmptyString => EmptyString
  | String c t =>
      match rstrip t with
      | EmptyString => if isspace c then EmptyString else String c EmptyString
      | t' => String c t'
      end
  end.

Definition strip (s : string) : string := rstrip (lstrip s).

(** [s.rfind(c)] for a one-character [c]: the last index, or [-1]. *)
Fixpoint rfind_from (c : ascii) (s : string) (k last : Z) : Z :=
  match s with
  | EmptyString => last
  | String x t => rfind_from c t (k + 1) (if Ascii.eqb x c then k else last)
  end.

Definition rfind (c : ascii) (s : string) : Z := rfind_from c s 0 (-1).

(** The loop of [genericpath._splitext] that skips leading dots: starting
    at [filenameIndex], is one of the next [n] characters not a dot? *)
Fixpoint has_name_char (p : string) (filenameIndex n : nat) : bool :=
  match n with
  | O => false
  | S n' =>
      match String.get filenameIndex p with
      | Some c =>
          if Ascii.eqb c "." then has_name_char p (S filenameIndex) n' else true
      | None => true
      end
  end.

(** [os.path.splitext] of [posixpath]: separator [/], extension mark [.];
    a name made only of leading dots and one suffix has no extension. *)
Definition splitext (p : string) : string * string :=
  let sepIndex := rfind "/" p in
  let dotIndex := rfind "." p in
  if (sepIndex <? dotIndex)%Z then
    let filenameIndex := Z.to_nat (sepIndex + 1) in
    let d := Z.to_nat dotIndex in
    if has_name_char p filenameIndex (d - filenameIndex)
    then (String.substring 0 d p, String.substring d (String.length p - d) p)
    else (p, "")
  else (p, "").

Definition stem (p : string) : string := fst (splitext p).

End Str.


(* ------------------------------------------------------------------ *)
(** ** [difflib]                                                       *)
(* ------------------------------------------------------------------ *)

Module Difflib.

(** *** [get_close_matches], over an arbitrary similarity ratio

    [ratio x word] stands for [SequenceMatcher(a=x, b=word).ratio()].  The
    two cheaper tests [real_quick_ratio] and [quick_ratio] that the library
    runs first are upper bounds of [ratio], so the candidates kept are
    exactly those with [ratio x word >= cutoff]. *)
Section GetCloseMatches.

Variable ratio : string -> string -> Q.

Definition Qltb (x y : Q) : bool := negb (Qle_bool y x).

(** [p < q] on [(score, x)] tuples: the first components that differ
    decide. *)
Definition tuple_ltb (p q : Q * string) : bool :=
  if Qeq_bool (fst p) (fst q) then String.ltb (snd p) (snd q)
  else Qltb (fst p) (fst q).

(** [sorted(l, reverse=True)]: reverse, sort stably, reverse. *)
Definition sorted_reverse (l : list (Q * string)) : list (Q * string) :=
  rev (sort_by tuple_ltb (rev l)).

(** [heapq.nlargest(n, l)], i.e. [sorted(l, reverse=True)[:n]]. *)
Definition nlargest (n : nat) (l : list (Q * string)) : list (Q * string) :=
  firstn n (sorted_reverse l).

Definition close_candidates (word : string) (possibilities : list string)
    (cutoff : Q) : list (Q * string) :=
  map (fun x => (ratio x word, x))
      (filter (fun x => Qle_bool cutoff (ratio x word)) possibilities).

(** [None] is the [ValueError] raised for [n <= 0] or a cutoff outside
    [[0, 1]]. *)
Definition get_close_matches (word : string) (possibilities : list string)
    (n : nat) (cutoff : Q) : option (list string) :=
  if negb (0 <? n)%nat then None
  else if negb (Qle_bool 0 cutoff && Qle_bool cutoff 1) then None
  else Some (map snd (nlargest n (close_candidates word possibilities cutoff))).

End GetCloseMatches.

(** *** [SequenceMatcher.ratio], executable

    [difflib] belongs to the Python standard library, not to the program:
    the theorems take the ratio as a parameter, and this rendering of the
    library's algorithm serves to run the program on concrete names.  The
    matcher is built as [get_close_matches] builds it: no junk predicate,
    [autojunk] on.  Sequences are lists of characters. *)

Definition count_occ_char (c : ascii) (b : list ascii) : nat :=
  List.length (filter (Ascii.eqb c) b).

(** Popular elements are dropped from [b2j] once [len(b) >= 200]. *)
Definition popular (b : list ascii) (c : ascii) : bool :=
  let n := List.length b in
  ((200 <=? n) && (n / 100 + 1 <? count_occ_char c b))%nat.

Fixpoint indices_from (c : ascii) (b : list ascii) (k : nat) : list nat :=
  match b with
  | [] => []
  | x :: t =>
      if Ascii.eqb x c then k :: indices_from c t (S k)
      else indices_from c t (S k)
  end.

Definition b2j (b : list ascii) (c : ascii) : list nat :=
  if popular b c then [] else indices_from c b 0.

Fixpoint j2len_get (j2len : list (nat * nat)) (j : nat) : nat :=
  match j2len with
  | [] => O
  | (j', k) :: t => if (j' =? j)%nat then k else j2len_get t j
  end.

Definition match_t : Type := nat * nat * nat.

(** The loop [for j in b2j.get(a[i], nothing)] of [find_longest_match]. *)
Fixpoint scan_js (js : list nat) (blo bhi i : nat)
    (j2len newj2len : list (nat * nat)) (best : match_t)
    : list (nat * nat) * match_t :=
  match js with
  | [] => (newj2len, best)
  | j :: js' =>
      if (j <? blo)%nat then scan_js js' blo bhi i j2len newj2len best
      else if (bhi <=? j)%nat then (newj2len, best)
      else
        let k := S (match j with O => O | S j' => j2len_get j2len j' end) in
        let '(_, _, bestsize) := best in
        scan_js js' blo bhi i j2len ((j, k) :: newj2len)
          (if (bestsize <? k)%nat then (i + 1 - k, j + 1 - k, k)%nat else best)
  end.

(** The loop [for i in range(alo, ahi)]; [cnt] is the number of rounds
    left and [i] the current index. *)
Fixpoint scan_is (a b : list ascii) (blo bhi : nat) (cnt i : nat)
    (j2len : list (nat * nat)) (best : match_t) : match_t :=
  match cnt with
  | O => best
  | S cnt' =>
      let js := match nth_error a i with Some c => b2j b c | None => [] end in
      let '(newj2len, best') := scan_js js blo bhi i j2len [] best in
      scan_is a b blo bhi cnt' (S i) newj2len best'
  end.

Definition same_at (a b : list ascii) (x y : nat) : bool :=
  match nth_error a x, nth_error b y with
  | Some c, Some c' => Ascii.eqb c c'
  | _, _ => false
  end.

(** The two loops that extend the best block by equal elements; the junk
    set is empty, so [isbjunk] is constantly false and the two later loops
    that absorb junk never run. *)
Fixpoint extend_back (a b : list ascii) (alo blo : nat) (fuel : nat)
    (m : match_t) : match_t :=
  match fuel with
  | O => m
  | S fuel' =>
      let '(besti, bestj, bestsize) := m in
      if ((alo <? besti) && (blo <? bestj))%nat
         && same_at a b (besti - 1) (bestj - 1)
      then extend_back a b alo blo fuel' (besti - 1, bestj - 1, S bestsize)%nat
      else m
  end.

Fixpoint extend_fwd (a b : list ascii) (ahi bhi : nat) (fuel : nat)
    (m : match_t) : match_t :=
  match fuel with
  | O => m
  | S fuel' =>
      let '(besti, bestj, bestsize) := m in
      if ((besti + bestsize <? ahi) && (bestj + bestsize <? bhi))%nat
         && same_at a b (besti + bestsize) (bestj + bestsize)
      then extend_fwd a b ahi bhi fuel' (besti, bestj, S bestsize)
      else m
  end.

Definition find_longest_match (a b : list ascii) (alo ahi blo bhi : nat)
    : match_t :=
  let best := scan_is a b blo bhi (ahi - alo) alo [] (alo, blo, O) in
  let best := extend_back a b alo blo (List.length a) best in
  extend_fwd a b ahi bhi (List.length a) best.

(** Total size of the blocks [get_matching_blocks] collects: the longest
    match of a window, then the windows to its left and to its right. *)
Fixpoint matches (a b : list ascii) (fuel : nat) (alo ahi blo bhi : nat)
    : nat :=
  match fuel with
  | O => O
  | S fuel' =>
      let '(i, j, k) := find_longest_match a b alo ahi blo bhi in
      if (k =? 0)%nat then O
      else
        (k
         + (if (alo <? i) && (blo <? j)
            then matches a b fuel' alo i blo j else 0)
         + (if (i + k <? ahi) && (j + k <? bhi)
            then matches a b fuel' (i + k) ahi (j + k) bhi else 0))%nat
  end.

(** [_calculate_ratio]: [2.0 * matches / length], and [1.0] when both
    sequences are empty. *)
Definition calculate_ratio (m length : nat) : Q :=
  match length with
  | O => 1
  | S _ => Qmake (2 * Z.of_nat m) (Pos.of_nat length)
  end.

Definition ratio (x word : string) : Q :=
  let a := list_ascii_of_string x in
  let b := list_ascii_of_string word in
  let la := List.length a in
  let lb := List.length b in
  calculate_ratio (matches a b (S la) 0 la 0 lb) (la + lb).

End Difflib.

(* ------------------------------------------------------------------ *)
(** ** The label-record schema                                         *)
(* ------------------------------------------------------------------ *)

(** One entry of ["Labels"]: a class name and the flat parameter list
    [cx, cy, cz, w, h, d, yaw, ...]. *)
Record Label : Type := mkLabel {
  Class : string;
  BoundingBoxes : list R
}.

(** One record of the JSON file.  A key may be absent: the program reads
    both with [.get(key, default)]. *)
Record Rec : Type := mkRec {
  File : option string;
  Labels : option (list Label)
}.

Definition get_File (r : Rec) : string :=
  match File r with Some f => f | None => EmptyString end.

Definition get_Labels (r : Rec) : list Label :=
  match Labels r with Some l => l | None => [] end.

(* ------------------------------------------------------------------ *)
(** ** [sync_json_pcd_filenames]                                       *)
(* ------------------------------------------------------------------ *)

(** How a run ends: one of the two warnings, the [ValueError] that
    [get_close_matches] raises for a cutoff outside [[0, 1]], or the
    "Sync complete" message. *)
Inductive sync_outcome : Type :=
| CountMismatch (n_json n_pcd : nat)
| NoFuzzyMatch (orig : string)
| CutoffError
| SyncComplete.

Section Reconciler.

Variable ratio : string -> string -> Q.

(** [[f for f in os.listdir(pcd_dir) if f.lower().endswith('.pcd')]] *)
Definition pcd_files (listing : list string) : list string :=
  filter (fun f => Str.endswith (Str.lower f) ".pcd") listing.

(** The first loop: one new file name per record, or the reason to stop at
    the first record that cannot be matched. *)
Fixpoint new_files (basenames : list string) (cutoff : Q) (data : list Rec)
    : sync_outcome + list string :=
  match data with
  | [] => inr []
  | rec :: rest =>
      let orig := get_File rec in
      let base := Str.stem orig in
      match Difflib.get_close_matches ratio base basenames 1 cutoff with
      | None => inl CutoffError
      | Some [] => inl (NoFuzzyMatch orig)
      | Some (m :: _) =>
          match new_files basenames cutoff rest with
          | inl e => inl e
          | inr fs => inr ((m ++ ".pcd")%string :: fs)
          end
      end
  end.

(** [for rec, new_fn in zip(data, new_files): rec['File'] = new_fn] *)
Definition rewrite_files (data : list Rec) (fs : list string) : list Rec :=
  map (fun p => mkRec (Some (snd p)) (Labels (fst p))) (combine data fs).

(** [data.sort(key=lambda r: os.path.splitext(r['File'])[0])] *)
Definition sort_key (r : Rec) : string := Str.stem (get_File r).

Definition sort_records (data : list Rec) : list Rec :=
  sort_by (fun r1 r2 => String.ltb (sort_key r1) (sort_key r2)) data.

(** The whole function.  [stored] is the content of [json_path] and
    [listing] is [os.listdir(pcd_dir)]; the result is the way the run ends
    and the content of [json_path] afterwards. *)
Definition sync_json_pcd_filenames (stored : list Rec) (listing : list string)
    (cutoff : Q) : sync_outcome * list Rec :=
  let data := stored in
  let pcds := pcd_files listing in
  if negb (List.length data =? List.length pcds)%nat
  then (CountMismatch (List.length data) (List.length pcds), stored)
  else
    let basenames := map Str.stem pcds in
    match new_files basenames cutoff data with
    | inl e => (e, stored)
    | inr fs => (SyncComplete, sort_records (rewrite_files data fs))
    end.

End Reconciler.

(** The default [cutoff: float = 0.6]. *)
Definition default_cutoff : Q := 6 # 10.

(* ------------------------------------------------------------------ *)
(** ** Geometry: three-component arrays                                *)
(* ------------------------------------------------------------------ *)

Open Scope R_scope.

(** A row of an [N x 3] array, and a [3 x 3] matrix as its three rows. *)
Definition vec3 : Type := (R * R * R)%type.
Definition mat3 : Type := (vec3 * vec3 * vec3)%type.

Definition vadd (u v : vec3) : vec3 :=
  let '(a, b, c) := u in let '(x, y, z) := v in (a + x, b + y, c + z).

Definition dot3 (u v : vec3) : R :=
  let '(a, b, c) := u in let '(x, y, z) := v in a * x + b * y + c * z.

(** [m.T] *)
Definition transpose3 (m : mat3) : mat3 :=
  let '((a, b, c), (d, e, f), (g, h, k)) := m in
  ((a, d, g), (b, e, h), (c, f, k)).

(** One row of [loc @ m]: the row times each column of [m]. *)
Definition vecmat (v : vec3) (m : mat3) : vec3 :=
  let '(c1, c2, c3) := transpose3 m in (dot3 v c1, dot3 v c2, dot3 v c3).

(** [loc @ m] for an [N x 3] array [loc]. *)
Definition matmul (loc : list vec3) (m : mat3) : list vec3 :=
  map (fun v => vecmat v m) loc.

(** [arr + v], the row [v] broadcast over the rows of [arr]. *)
Definition add_row (arr : list vec3) (v : vec3) : list vec3 :=
  map (fun u => vadd u v) arr.

(** [arr.mean(0)]: the mean of each column. *)
Definition vsum (arr : list vec3) : vec3 := fold_right vadd (0, 0, 0) arr.

Definition mean0 (arr : list vec3) : vec3 :=
  let n := INR (List.length arr) in
  let '(x, y, z) := vsum arr in (x / n, y / n, z / n).

(** [Editor._corners] *)
Definition _corners (cx cy cz w h d y : R) : list vec3 :=
  let '(sx, sy, sz) := (w / 2, h / 2, d / 2) in
  let loc :=
    [ ( sx,  sy,  sz); ( sx, -sy,  sz); (-sx, -sy,  sz); (-sx,  sy,  sz);
      ( sx,  sy, -sz); ( sx, -sy, -sz); (-sx, -sy, -sz); (-sx,  sy, -sz) ] in
  let '(c, s) := (cos y, sin y) in
  add_row (matmul loc (transpose3 ((c, -s, 0), (s, c, 0), (0, 0, 1))))
          (cx, cy, cz).

(** [math.radians] and [math.degrees]. *)
Definition radians (deg : R) : R := deg * (PI / 180).
Definition degrees (rad : R) : R := rad * (180 / PI).

(** [x % m] on floats for a positive [m]: the remainder takes the sign of
    [m]. *)
Definition Rmod (x m : R) : R := x - m * IZR (Int_part (x / m)).

(** [int(x)]: truncation toward zero. *)
Definition py_int (x : R) : Z :=
  if Rle_dec 0 x then Int_part x else (- Int_part (- x))%Z.

Close Scope R_scope.

(* ------------------------------------------------------------------ *)
(** ** The slider value on IEEE doubles                                *)
(* ------------------------------------------------------------------ *)

(** The scalar path from [_rot_bbox] to [_sync_slider] as CPython runs
    it, on binary64 numbers: [math.radians(x)] is [x * (pi / 180)],
    [math.degrees(x)] is [x * (180 / pi)], [%] is [fmod] with the sign of
    the divisor, [int()] truncates. *)
Module Float64.
Import PrimFloat FloatOps SpecFloat.

(** The double nearest to an integer. *)
Definition of_Z (z : Z) : float :=
  SF2Prim (binary_normalize prec emax z 0 false).

(** [float(z)] for a Python [int]; [None] is the [OverflowError]. *)
Definition of_int (z : Z) : option float :=
  let f := of_Z z in
  if is_infinity f then None else Some f.

(** [math.pi = 0x1.921fb54442d18p+1] *)
Definition pi : float := SF2Prim (S754_finite false 7074237752028440 (-51)).

Definition degToRad : float := div pi (of_Z 180).
Definition radToDeg : float := div (of_Z 180) pi.

Definition radians (x : float) : float := mul x degToRad.
Definition degrees (x : float) : float := mul x radToDeg.

(** C's [fmod]: the exact remainder, with the sign of [x]. *)
Definition fmod (x y : float) : float :=
  match Prim2SF x, Prim2SF y with
  | S754_finite sx mx ex, S754_finite _ my ey =>
      let e := Z.min ex ey in
      let a := (Z.pos mx * 2 ^ (ex - e))%Z in
      let b := (Z.pos my * 2 ^ (ey - e))%Z in
      let r := (a mod b)%Z in
      SF2Prim (binary_normalize prec emax (if sx then (- r)%Z else r) e sx)
  | S754_zero _, S754_finite _ _ _ => x
  | S754_zero _, S754_infinity _ => x
  | S754_finite _ _ _, S754_infinity _ => x
  | _, _ => nan
  end.

(** [vx % wx] on floats; [None] is the [ZeroDivisionError]. *)
Definition pymod (vx wx : float) : option float :=
  if eqb wx zero then None
  else
    let m := fmod vx wx in
    if is_nan m then Some m
    else if eqb m zero then Some (if get_sign wx then neg_zero else zero)
    else Some (if xorb (ltb wx zero) (ltb m zero) then add m wx else m).

(** [int(x)]; [None] is the error raised for an infinity or a NaN. *)
Definition to_int (x : float) : option Z :=
  match Prim2SF x with
  | S754_zero _ => Some 0%Z
  | S754_finite s m e =>
      let a := if (0 <=? e)%Z then (Z.pos m * 2 ^ e)%Z
               else (Z.pos m / 2 ^ (- e))%Z in
      Some (if s then (- a)%Z else a)
  | _ => None
  end.

(** The slider value [_sync_slider] sets for the yaw that
    [_rot_bbox(deg)] stored:
    [int(math.degrees(math.radians(deg)) % 360)], clipped by the slider to
    its range [0 .. 360]. *)
Definition rot_then_sync (deg : Z) : option Z :=
  match of_int deg with
  | Some d =>
      match pymod (degrees (radians d)) (of_Z 360) with
      | Some v => option_map (fun z => Z.max 0 (Z.min 360 z)) (to_int v)
      | None => None
      end
  | None => None
  end.

End Float64.

(* ------------------------------------------------------------------ *)
(** ** The [Editor] class                                              *)
(* ------------------------------------------------------------------ *)

(** The fields the methods below read or write: the store [self.data],
    the current record [self.i], the active cloud [self.pts], the label
    selector [self.combo] (its items and current index, [-1] when there is
    none) and the value of the rotation slider [self.rot]. *)
Record Editor : Type := mkEditor {
  data : list Rec;
  i : nat;
  pts : list vec3;
  combo : list string;
  combo_index : Z;
  rot : Z
}.

(** The rectangle a 2-D view hands to [_roi_moved]. *)
Record ROI : Type := mkROI {
  pos : R * R;
  size : R * R
}.

(** *** Methods as state transformers

    [(Some a, ed')]: the call returned [a] in state [ed'];
    [(None, ed')]: an exception was raised in state [ed']. *)
Definition M (A : Type) : Type := Editor -> option A * Editor.

Definition ret {A} (a : A) : M A := fun ed => (Some a, ed).

Definition raise {A} : M A := fun ed => (None, ed).

Definition bind {A B} (m : M A) (f : A -> M B) : M B :=
  fun ed =>
    match m ed with
    | (Some a, ed') => f a ed'
    | (None, ed') => (None, ed')
    end.

Declare Scope editor_scope.
Delimit Scope editor_scope with editor.
Notation "x <- m ;; k" := (bind m (fun x => k))
  (at level 61, m at next level, right associativity) : editor_scope.
Notation "m ;; k" := (bind m (fun _ => k))
  (at level 61, right associativity) : editor_scope.

Definition gets {A} (f : Editor -> A) : M A := fun ed => (Some (f ed), ed).

Definition modify (f : Editor -> Editor) : M unit := fun ed => (Some tt, f ed).

(** Lift a lookup that may fail ([IndexError], [KeyError], ...). *)
Definition lift {A} (o : option A) : M A :=
  match o with Some a => ret a | None => raise end.

Definition set_data (d : list Rec) (ed : Editor) : Editor :=
  mkEditor d (i ed) (pts ed) (combo ed) (combo_index ed) (rot ed).

Definition set_i (k : nat) (ed : Editor) : Editor :=
  mkEditor (data ed) k (pts ed) (combo ed) (combo_index ed) (rot ed).

Definition set_pts (p : list vec3) (ed : Editor) : Editor :=
  mkEditor (data ed) (i ed) p (combo ed) (combo_index ed) (rot ed).

Definition set_combo (items : list string) (k : Z) (ed : Editor) : Editor :=
  mkEditor (data ed) (i ed) (pts ed) items k (rot ed).

(** [QSlider.setValue] on a slider with range [0 .. 360]. *)
Definition set_rot (v : Z) (ed : Editor) : Editor :=
  mkEditor (data ed) (i ed) (pts ed) (combo ed) (combo_index ed)
           (Z.max 0 (Z.min 360 v)).

Section EditorMethods.
Local Open Scope editor_scope.

(** The world around the editor: the similarity ratio of [difflib], the
    listing of [self.pcd_dir], the point-cloud reader (by file name; [None]
    when reading raises), and whether the toolkit and [scipy] draw a given
    label list over a given cloud without raising. *)
Variable ratio : string -> string -> Q.
Variable listdir : list string.
Variable read_point_cloud : string -> option (list vec3).
Variable renders : list Label -> list vec3 -> bool.

(** [self.data[self.i]] *)
Definition cur_rec : M Rec :=
  fun ed => lift (nth_error (data ed) (i ed)) ed.

(** [self.data[self.i].get('Labels', [])] *)
Definition cur_labels : M (list Label) :=
  rec <- cur_rec ;; ret (get_Labels rec).

(** Store [labs] as the ["Labels"] of the current record. *)
Definition put_labels (labs : list Label) : M unit :=
  rec <- cur_rec ;;
  d <- gets data ;;
  k <- gets i ;;
  d' <- lift (list_set d k (mkRec (File rec) (Some labs))) ;;
  modify (set_data d').

(** [_find_pcd] *)
Definition _find_pcd (img : string) : M (option string) :=
  let base := Str.stem img in
  let cands := filter (fun f => Str.endswith f ".pcd") listdir in
  let pref := ("cloud_" ++ base ++ "_")%string in
  match find (fun f => Str.startswith f pref) cands with
  | Some f => ret (Some f)
  | None =>
      m <- lift (Difflib.get_close_matches ratio base (map Str.stem cands)
                   1 default_cutoff) ;;
      match m with
      | m0 :: _ => ret (Some (m0 ++ ".pcd")%string)
      | [] => ret None
      end
  end.

(** [_load_cloud], up to the assignment of [self.pts]; the scatter items
    built afterwards are the toolkit's.  [os.path.join(dir, None)]
    raises. *)
Definition _load_cloud : M unit :=
  rec <- cur_rec ;;
  let img := get_File rec in
  pcd <- (if Str.endswith img ".pcd" then ret (Some img) else _find_pcd img) ;;
  name <- lift pcd ;;
  p <- lift (read_point_cloud name) ;;
  modify (set_pts p).

(** [_bbox_params] and [_set_bbox_params] *)
Definition _bbox_params (idx : nat) : M (list R) :=
  rec <- cur_rec ;;
  labs <- lift (Labels rec) ;;
  lab <- lift (nth_error labs idx) ;;
  ret (BoundingBoxes lab).

Definition _set_bbox_params (idx : nat) (params : list R) : M unit :=
  rec <- cur_rec ;;
  labs <- lift (Labels rec) ;;
  lab <- lift (nth_error labs idx) ;;
  labs' <- lift (list_set labs idx (mkLabel (Class lab) params)) ;;
  put_labels labs'.

(** [_draw_all]: it reads the store and writes none of the fields of
    [Editor].  It raises when a parameter list has fewer than seven
    entries (the unpacking [cx, cy, cz, w, h, d, yaw, *_ = ...]) or when
    the drawing itself does. *)
Definition _draw_all : M unit :=
  labels <- cur_labels ;;
  p <- gets pts ;;
  match labels with
  | [] => ret tt
  | _ =>
      if forallb (fun lab => (7 <=? List.length (BoundingBoxes lab))%nat) labels
         && renders labels p
      then ret tt else raise
  end.

(** [_roi_moved]: [axes] is the pair the view was created with. *)
Definition axes_eqb (a b : Z * Z) : bool :=
  ((fst a =? fst b) && (snd a =? snd b))%Z.

Definition _roi_moved (roi : ROI) (label_idx : nat) (axes : Z * Z) : M unit :=
  let '(px, py) := pos roi in
  let '(sx, sy) := size roi in
  full <- _bbox_params label_idx ;;
  match firstn 7 full with
  | [cx; cy; cz; w; h; d; yaw] =>
      let tail := skipn 7 full in
      let '(cx, cy, cz, w, h, d) :=
        if axes_eqb axes (0, 1)%Z then
          (px + sx * 0.5, py + sy * 0.5, cz, sx, sy, d)%R
        else if axes_eqb axes (0, 2)%Z then
          (px + sx * 0.5, cy, py + sy * 0.5, sx, h, sy)%R
        else
          (cx, px + sx * 0.5, py + sy * 0.5, w, sx, sy)%R in
      _set_bbox_params label_idx ([cx; cy; cz; w; h; d; yaw] ++ tail) ;;
      _draw_all
  | _ => raise
  end.

(** The guard [0 <= idx < len(labs)] shared by the selection-driven
    methods; it yields the index as a position in the list. *)
Definition selected (idx : Z) (labs : list Label) : option nat :=
  if ((0 <=? idx) && (idx <? Z.of_nat (List.length labs)))%Z
  then Some (Z.to_nat idx) else None.

(** [_sync_slider]; the slider's signals are blocked, so no change event
    follows. *)
Definition _sync_slider : M unit :=
  idx <- gets combo_index ;;
  labs <- cur_labels ;;
  match selected idx labs with
  | Some k =>
      lab <- lift (nth_error labs k) ;;
      yaw <- lift (nth_error (BoundingBoxes lab) 6) ;;
      modify (set_rot (py_int (Rmod (degrees yaw) 360)))
  | None => ret tt
  end.

(** [_rot_bbox] *)
Definition _rot_bbox (deg : Z) : M unit :=
  idx <- gets combo_index ;;
  labs <- cur_labels ;;
  match selected idx labs with
  | Some k =>
      lab <- lift (nth_error labs k) ;;
      bb <- lift (list_set (BoundingBoxes lab) 6 (radians (IZR deg))) ;;
      labs' <- lift (list_set labs k (mkLabel (Class lab) bb)) ;;
      put_labels labs' ;;
      _draw_all
  | None => ret tt
  end.

(** [_refresh]; the selector is rebuilt with its signals blocked, and a
    selector filled from empty shows its first item. *)
Definition _refresh : M unit :=
  _load_cloud ;;
  _draw_all ;;
  labs <- cur_labels ;;
  modify (set_combo (map Class labs)
            (match labs with [] => (-1)%Z | _ => 0%Z end)) ;;
  _sync_slider.

(** [_goto] *)
Definition _goto (idx : Z) : M unit :=
  d <- gets data ;;
  if ((0 <=? idx) && (idx <? Z.of_nat (List.length d)))%Z
  then modify (set_i (Z.to_nat idx)) ;; _refresh
  else ret tt.

(** [QComboBox.setCurrentIndex] with [currentIndexChanged] connected to
    [_sync_slider]. *)
Definition combo_setCurrentIndex (k : Z) : M unit :=
  cur <- gets combo_index ;;
  if (k =? cur)%Z then ret tt
  else
    items <- gets combo ;;
    modify (set_combo items k) ;;
    _sync_slider.

(** [QComboBox.setItemText] with the signals blocked. *)
Definition combo_setItemText (k : nat) (txt : string) : M unit :=
  items <- gets combo ;;
  idx <- gets combo_index ;;
  match list_set items k txt with
  | Some items' => modify (set_combo items' idx)
  | None => ret tt
  end.

(** [_rename_label].  [dialog] is what [QInputDialog.getText] returns and
    [line_text] the text of the selector's line edit. *)
Definition _rename_label (auto_prompt : bool) (dialog : string * bool)
    (line_text : string) : M unit :=
  idx <- gets combo_index ;;
  labs <- cur_labels ;;
  match selected idx labs with
  | None => ret tt
  | Some k =>
      if auto_prompt && negb (snd dialog) then ret tt
      else
        let new_txt :=
          Str.strip (if auto_prompt then fst dialog else line_text) in
        lab <- lift (nth_error labs k) ;;
        if String.eqb new_txt EmptyString || String.eqb new_txt (Class lab)
        then ret tt
        else
          labs' <- lift (list_set labs k
                           (mkLabel new_txt (BoundingBoxes lab))) ;;
          put_labels labs' ;;
          combo_setItemText k new_txt ;;
          _draw_all
  end.

(** [_delete_label], the second definition in the class body (it replaces
    the first).  [yes] is the answer to the confirmation box. *)
Definition _delete_label (yes : bool) : M unit :=
  idx <- gets combo_index ;;
  labs <- cur_labels ;;
  match selected idx labs with
  | Some k =>
      if yes then put_labels (list_pop labs k) ;; _refresh else ret tt
  | None => ret tt
  end.

(** [_add_label].  [dialog] is what [QInputDialog.getText] returns.
    [setdefault] stores an empty list under ["Labels"] when the key is
    missing, before the dialog is shown. *)
Definition _add_label (dialog : string * bool) : M unit :=
  rec <- cur_rec ;;
  let lbls := get_Labels rec in
  put_labels lbls ;;
  let '(txt, ok) := dialog in
  if negb ok || String.eqb (Str.strip txt) EmptyString then ret tt
  else
    p <- gets pts ;;
    let '(x, y, z) :=
      match p with [] => (0, 0, 0)%R | _ => mean0 p end in
    put_labels
      (lbls ++ [mkLabel (Str.strip txt) [x; y; z; 1; 1; 1; 0; 0; 0]%R]) ;;
    _refresh ;;
    n <- gets (fun ed => List.length (combo ed)) ;;
    combo_setCurrentIndex (Z.of_nat n - 1).

End EditorMethods.

(** [Editor.__init__], once [_build_ui] has created the widgets: the store
    is the content of [json_path], the first record is current, the
    selector is empty and the slider is at [0]; [self.pts] is assigned by
    the [_refresh] that ends the constructor.  [None]: the constructor
    raised and there is no editor. *)
Definition __init__ (ratio : string -> string -> Q) (listdir : list string)
    (read_point_cloud : string -> option (list vec3))
    (renders : list Label -> list vec3 -> bool) (stored : list Rec)
    : option Editor :=
  match _refresh ratio listdir read_point_cloud renders
          (mkEditor stored 0 [] [] (-1) 0) with
  | (Some _, ed) => Some ed
  | (None, _) => None
  end.

(** The entry point, for a folder and a file that were both chosen:
    [sync_json_pcd_filenames(jpath, pdir)] with the default cutoff, then
    [Editor(jpath, pdir)] on what the file holds afterwards.  The result is
    the content of the file and the editor. *)
Definition main (ratio : string -> string -> Q) (listdir : list string)
    (read_point_cloud : string -> option (list vec3))
    (renders : list Label -> list vec3 -> bool) (stored : list Rec)
    : list Rec * option Editor :=
  let stored' :=
    snd (sync_json_pcd_filenames ratio stored listdir default_cutoff) in
  (stored', __init__ ratio listdir read_point_cloud renders stored').

Open Scope R_scope.




(** [arr[:, k]]: column [k] of an [N x 3] array, a negative [k] counting
    from the end; [None] is the [IndexError]. *)
Definition column (k : Z) (v : vec3) : option R :=
  let '(x, y, z) := v in
  let k' := if (k <? 0)%Z then (k + 3)%Z else k in
  if (k' =? 0)%Z then Some x
  else if (k' =? 1)%Z then Some y
  else if (k' =? 2)%Z then Some z
  else None.

Fixpoint columns (k : Z) (arr : list vec3) : option (list R) :=
  match arr with
  | [] => Some []
  | v :: t =>
      match column k v, columns k t with
      | Some x, Some r => Some (x :: r)
      | _, _ => None
      end
  end.

(** [col.min()] and [col.max()]; [None] is the [ValueError] on an empty
    column. *)
Definition amin (l : list R) : option R :=
  match l with [] => None | x :: t => Some (fold_left Rmin t x) end.

Definition amax (l : list R) : option R :=
  match l with [] => None | x :: t => Some (fold_left Rmax t x) end.

(** The rectangle [_draw_all] puts into the view with [axes] for a box
    with the given corners:
    [proj = corners[:, axes]],
    [(xmin, ymin), (xmax, ymax) = proj.min(0), proj.max(0)],
    [RectROI([xmin, ymin], [xmax - xmin, ymax - ymin])]. *)
Definition draw_roi (corners : list vec3) (axes : Z * Z) : option ROI :=
  match columns (fst axes) corners, columns (snd axes) corners with
  | Some xs, Some ys =>
      match amin xs, amin ys, amax xs, amax ys with
      | Some xmin, Some ymin, Some xmax, Some ymax =>
          Some (mkROI (xmin, ymin) (xmax - xmin, ymax - ymin))
      | _, _, _, _ => None
      end
  | _, _ => None
  end.

(** The three 2-D views of [_draw_all], by their axes: XY, XZ, YZ. *)
Definition views : list (Z * Z) := [(0, 1); (0, 2); (1, 2)]%Z.

Close Scope R_scope.

(** Two more methods of [str], used by [_save]. *)
Module PyStr.
Open Scope string_scope.

(** [old in s] *)
Fixpoint contains (s old : string) : bool :=
  match s with
  | EmptyString => String.prefix old EmptyString
  | String _ t => String.prefix old s || contains t old
  end.

(** [s.replace(old, new)] for a non-empty [old]: the occurrences are
    found from left to right and do not overlap.  [skip] counts the
    characters of the occurrence just replaced that are still to be passed
    over. *)
Fixpoint replace_from (old new : string) (skip : nat) (s : string) : string :=
  match s with
  | EmptyString => EmptyString
  | String c t =>
      match skip with
      | S k => replace_from old new k t
      | O =>
          if String.prefix old s
          then new ++ replace_from old new (String.length old - 1) t
          else String c (replace_from old new 0 t)
      end
  end.

Definition replace (s old new : string) : string := replace_from old new 0 s.

End PyStr.

(** [_save].  A file system maps a path to the records stored there, and
    [can_open p] tells whether [open(p, 'w')] succeeds; it raises, for one,
    when the directory of [p] does not exist.  The result is the path shown
    in the "Saved" box together with the files afterwards; [None]: [open]
    raised, nothing was written and no box is shown.  The editor itself is
    not changed. *)
Definition _save (json_path : string) (can_open : string -> bool)
    (files : string -> option (list Rec)) (ed : Editor)
    : option string * (string -> option (list Rec)) :=
  let out := PyStr.replace json_path ".json" "_edited.json" in
  if can_open out
  then (Some out,
        fun p => if String.eqb p out then Some (data ed) else files p)
  else (None, files).

(* ================================================================== *)
(** * Vocabulary of the statements                                     *)
(* ================================================================== *)

Unset Implicit Arguments.

(** ** Frames of the state *)

(** A computation [keeps P] when the projection [P] of the state is the
    same after it, whether it returned or raised. *)
Definition keeps {A T} (P : Editor -> T) (m : M A) : Prop :=
  forall ed, P (snd (m ed)) = P ed.

(** The store after [put_labels labs]: the current record carries [labs],
    every other field and every other record is as before. *)
Definition with_labels (labs : list Label) (rec : Rec) (ed : Editor) : Editor :=
  set_data (firstn (i ed) (data ed)
            ++ mkRec (File rec) (Some labs) :: skipn (S (i ed)) (data ed)) ed.

(** The label sequence of the current frame, as the methods read it with
    [self.data[self.i].get('Labels', [])]. *)
Definition frame_labels (ed : Editor) : option (list Label) :=
  fst (cur_labels ed).

(** ** Boxes *)

(** The seven leading parameters a commit in a given view stores. *)
Definition committed (axes : Z * Z) (px py sx sy : R)
    (cx cy cz w h d yaw : R) : list R :=
  if axes_eqb axes (0, 1)%Z then
    [px + sx / 2; py + sy / 2; cz; sx; sy; d; yaw]%R
  else if axes_eqb axes (0, 2)%Z then
    [px + sx / 2; cy; py + sy / 2; sx; h; sy; yaw]%R
  else
    [cx; px + sx / 2; py + sy / 2; w; sx; sy; yaw]%R.

(** The centre [_add_label] gives a new box. *)
Definition new_centre (p : list vec3) : vec3 :=
  match p with [] => (0, 0, 0)%R | _ => mean0 p end.

(** The label [_add_label] builds from the dialog text and the cloud. *)
Definition new_label (txt : string) (p : list vec3) : Label :=
  let '(x, y, z) := new_centre p in
  mkLabel (Str.strip txt) [x; y; z; 1; 1; 1; 0; 0; 0]%R.

Open Scope R_scope.

(** The sign patterns of the eight corners, in the order of [loc]. *)
Definition unit_cube : list vec3 :=
  [ ( 1,  1,  1); ( 1, -1,  1); (-1, -1,  1); (-1,  1,  1);
    ( 1,  1, -1); ( 1, -1, -1); (-1, -1, -1); (-1,  1, -1) ].

(** Scale a cube vertex by the half-extents, rotate it by [yaw] about the
    vertical axis with [[cos, -sin, 0], [sin, cos, 0], [0, 0, 1]], and
    translate it by the centre. *)
Definition place (cx cy cz w h d yaw : R) (u : vec3) : vec3 :=
  let '(x, y, z) := u in
  let '(lx, ly, lz) := (x * (w / 2), y * (h / 2), z * (d / 2)) in
  (cos yaw * lx + - sin yaw * ly + 0 * lz + cx,
   sin yaw * lx + cos yaw * ly + 0 * lz + cy,
   0 * lx + 0 * ly + 1 * lz + cz).

Close Scope R_scope.

(** [w, h, d > 0] on a parameter list; a list too short to hold the three
    extents does not qualify. *)
Definition positive_extents (bb : list R) : Prop :=
  match bb with
  | _ :: _ :: _ :: w :: h :: d :: _ => (0 < w /\ 0 < h /\ 0 < d)%R
  | _ => False
  end.

Definition label_ok (lab : Label) : Prop :=
  positive_extents (BoundingBoxes lab).

Definition store_ok (d : list Rec) : Prop :=
  Forall (fun rec => Forall label_ok (get_Labels rec)) d.

(** [safe m Q]: from a store with positive extents, [m] ends (returning or
    raising) in a store with positive extents, and what it returns
    satisfies [Q]. *)
Definition safe {A} (m : M A) (Q : A -> Prop) : Prop :=
  forall ed, store_ok (data ed) ->
    store_ok (data (snd (m ed))) /\ forall a, fst (m ed) = Some a -> Q a.

(** ** Orders *)

(** The order of [str] comparison. *)
Definition str_lt (a b : string) : Prop := String.ltb a b = true.
Definition str_le (a b : string) : Prop := String.ltb b a = false.

(** [le_of ltb a b]: [b] is not below [a] in the order of [ltb]. *)
Definition le_of {A : Type} (ltb : A -> A -> bool) (a b : A) : Prop :=
  ltb b a = false.

(** The order [data.sort] works with. *)
Definition key_ltb (r1 r2 : Rec) : bool :=
  String.ltb (sort_key r1) (sort_key r2).

Definition key_le (r1 r2 : Rec) : Prop :=
  str_le (sort_key r1) (sort_key r2).

(** ** Matching and file names *)

(** What a call with [n = 1] returns: nothing when no candidate reaches
    the cutoff, otherwise one candidate that reaches it and that no other
    such candidate beats, ties on the score going to the larger string. *)
Definition best_match (ratio : string -> string -> Q) (word : string)
    (poss : list string) (cutoff : Q) (m : string) : Prop :=
  In m poss /\ cutoff <= ratio m word
  /\ forall x, In x poss -> cutoff <= ratio x word ->
       ratio x word < ratio m word
       \/ (ratio x word == ratio m word /\ str_le x m).

(** No candidate of [basenames] reaches the cutoff for the record. *)
Definition unmatched (ratio : string -> string -> Q)
    (basenames : list string) (cutoff : Q) (rec : Rec) : Prop :=
  forall x, In x basenames -> ~ cutoff <= ratio x (Str.stem (get_File rec)).

(** What the "identical stems" of the round trip ask of the similarity
    ratio: on the names at hand a name scores [1] against itself and less
    against any other. *)
Definition exact_on (ratio : string -> string -> Q) (names : list string)
    (b : string) : Prop :=
  ratio b b == 1 /\ forall x, In x names -> x <> b -> ratio x b < 1.

(** [c] does not occur in [s]. *)
Fixpoint lacks (c : ascii) (s : string) : Prop :=
  match s with
  | EmptyString => True
  | String x t => Ascii.eqb x c = false /\ lacks c t
  end.

(** Whether the part of [st] after its last separator holds a character
    other than a dot. *)
Definition named (st : string) : bool :=
  let k := Z.to_nat (Str.rfind "/" st + 1) in
  Str.has_name_char st k (String.length st - k).

(** ** Matching blocks of [difflib] *)

Section MatchBlocks.

Variables a b : list ascii.
Variables alo ahi blo bhi : nat.

(** [(i, j, k)] is a block of the window: [a[i:i+k] == b[j:j+k]]. *)
Definition block (m : Difflib.match_t) : Prop :=
  let '(i, j, k) := m in
  (alo <= i /\ i + k <= ahi /\ blo <= j /\ j + k <= bhi)%nat
  /\ forall t, (t < k)%nat -> Difflib.same_at a b (i + t) (j + t) = true.

(** [(j, k)] in the table of row [r]: the [k] elements that end at
    [a[r]] and [b[j]] agree and lie in the window. *)
Definition entry (r : nat) (j k : nat) : Prop :=
  (1 <= k /\ k <= r + 1 - alo /\ k <= j + 1 - blo /\ r < ahi /\ j < bhi)%nat
  /\ forall t, (t < k)%nat -> Difflib.same_at a b (r - t) (j - t) = true.

(** The table handed to row [i] describes row [i - 1]. *)
Definition table_before (i : nat) (j2len : list (nat * nat)) : Prop :=
  forall j, (0 < Difflib.j2len_get j2len j)%nat ->
    (1 <= i)%nat /\ entry (i - 1) j (Difflib.j2len_get j2len j).

(** The table built in row [i] describes row [i]. *)
Definition table_of (i : nat) (j2len : list (nat * nat)) : Prop :=
  forall j, (0 < Difflib.j2len_get j2len j)%nat ->
    entry i j (Difflib.j2len_get j2len j).

(** The length [j2len.get(j - 1, 0) + 1] recorded for column [j]. *)
Definition next_len (j2len : list (nat * nat)) (j : nat) : nat :=
  S (match j with O => O | S j' => Difflib.j2len_get j2len j' end).

End MatchBlocks.

(** ** Sample states *)

(** A record that carries a file reference and no ["Labels"] key. *)
Definition file_rec (f : string) : Rec := mkRec (Some f) None.

(** A store with one record and one nine-parameter label, used to run the
    methods on a concrete state. *)
Definition demo_label : Label :=
  mkLabel "human1" [10; 20; 30; 1; 2; 3; 0; 7; 8]%R.

Definition demo_editor : Editor :=
  mkEditor [mkRec (Some "a.pcd"%string) (Some [demo_label])]
           0 [] ["human1"%string] 0 0.

Definition demo_three : Editor :=
  mkEditor [mkRec (Some "a.pcd"%string)
              (Some [mkLabel "human1" []; mkLabel "human2" [];
                     mkLabel "human3" []])]
           0 [] ["human1"; "human2"; "human3"]%string 1 0.


(** ** The selector and the store *)

(** The selector lists the class names of the current frame's labels, in
    their order. *)
Definition aligned (ed : Editor) : Prop :=
  option_map (map Class) (frame_labels ed) = Some (combo ed).

(** ** The rotation control *)

(** The slider positions that come back one degree lower. *)
Definition truncated_positions : list Z := [15; 30; 60; 120; 231; 240; 249]%Z.

(** What the control shows for a yaw committed at [deg]. *)
Definition shown_after (deg : Z) : Z :=
  if (deg =? 360)%Z then 0%Z
  else if existsb (Z.eqb deg) truncated_positions then (deg - 1)%Z
  else deg.

(** ** Segments *)

Open Scope R_scope.



Close Scope R_scope.

(* ================================================================== *)
(** * Properties                                                       *)
(* ================================================================== *)

(** ** Lists *)

Lemma list_set_lt {A} (l : list A) k v :
  (k < List.length l)%nat ->
  list_set l k v = Some (firstn k l ++ v :: skipn (S k) l).
Proof.
  intros H. unfold list_set.
  destruct (Nat.ltb_spec k (List.length l)); [reflexivity | lia].
Qed.

Lemma list_set_inv {A} (l l' : list A) k v :
  list_set l k v = Some l' ->
  (k < List.length l)%nat /\ l' = firstn k l ++ v :: skipn (S k) l.
Proof.
  unfold list_set. destruct (Nat.ltb_spec k (List.length l)); [|discriminate].
  intros E. injection E as <-. auto.
Qed.

Lemma list_set_nth_eq {A} (l l' : list A) k v :
  list_set l k v = Some l' -> nth_error l' k = Some v.
Proof.
  intros E. apply list_set_inv in E as [Hk ->].
  rewrite nth_error_app2; rewrite length_firstn; [|lia].
  replace (k - Nat.min k (List.length l))%nat with O by lia. reflexivity.
Qed.

Lemma list_set_nth_neq {A} (l l' : list A) k v j :
  list_set l k v = Some l' -> j <> k -> nth_error l' j = nth_error l j.
Proof.
  intros E Hj. apply list_set_inv in E as [Hk ->].
  destruct (Nat.lt_ge_cases j k) as [Hlt | Hge].
  - rewrite nth_error_app1 by (rewrite length_firstn; lia).
    rewrite nth_error_firstn.
    destruct (Nat.ltb_spec j k); [reflexivity | lia].
  - rewrite nth_error_app2 by (rewrite length_firstn; lia).
    rewrite length_firstn. replace (Nat.min k (List.length l)) with k by lia.
    destruct (j - k)%nat as [|m] eqn:Em; [lia|]. cbn [nth_error].
    rewrite nth_error_skipn. f_equal. lia.
Qed.

Lemma list_pop_length {A} (l : list A) k :
  (k < List.length l)%nat -> List.length (list_pop l k) = (List.length l - 1)%nat.
Proof.
  intros H. unfold list_pop.
  rewrite length_app, length_firstn, length_skipn. lia.
Qed.

Lemma list_pop_nth_below {A} (l : list A) k j :
  (j < k)%nat -> nth_error (list_pop l k) j = nth_error l j.
Proof.
  intros H. unfold list_pop.
  destruct (Nat.lt_ge_cases j (List.length l)) as [Hl | Hl].
  - rewrite nth_error_app1 by (rewrite length_firstn; lia).
    rewrite nth_error_firstn.
    destruct (Nat.ltb_spec j k); [reflexivity | lia].
  - transitivity (@None A); [|symmetry; apply nth_error_None; lia].
    apply nth_error_None.
    rewrite length_app, length_firstn, length_skipn. lia.
Qed.

Lemma list_pop_nth_above {A} (l : list A) k j :
  (k < List.length l)%nat -> (k <= j)%nat ->
  nth_error (list_pop l k) j = nth_error l (S j).
Proof.
  intros Hk H. unfold list_pop.
  rewrite nth_error_app2 by (rewrite length_firstn; lia).
  rewrite length_firstn, nth_error_skipn. f_equal. lia.
Qed.

Lemma Forall_firstn {A} (P : A -> Prop) k l :
  Forall P l -> Forall P (firstn k l).
Proof.
  intros H. revert k. induction H as [|x t Hx Ht IH]; intros [|k]; cbn;
    constructor; auto.
Qed.

Lemma Forall_skipn {A} (P : A -> Prop) k l :
  Forall P l -> Forall P (skipn k l).
Proof.
  intros H. revert k. induction H as [|x t Hx Ht IH]; intros [|k]; cbn;
    try constructor; auto.
Qed.

(** ** The state monad *)

Ltac unfold_M :=
  unfold bind, ret, raise, gets, modify, lift in *.

Lemma bind_Some {A B} (m : M A) (f : A -> M B) ed a ed' :
  m ed = (Some a, ed') -> bind m f ed = f a ed'.
Proof. intros E. unfold bind. rewrite E. reflexivity. Qed.

Lemma keeps_bind {A B T} (P : Editor -> T) (m : M A) (f : A -> M B) :
  keeps P m -> (forall a, keeps P (f a)) -> keeps P (bind m f).
Proof.
  intros Hm Hf ed. unfold bind. specialize (Hm ed).
  destruct (m ed) as [[a|] ed']; cbn [snd] in *.
  - rewrite Hf. exact Hm.
  - exact Hm.
Qed.

Lemma keeps_ret {A T} (P : Editor -> T) (a : A) : keeps P (ret a).
Proof. intros ed. reflexivity. Qed.

Lemma keeps_raise {A T} (P : Editor -> T) : keeps P (@raise A).
Proof. intros ed. reflexivity. Qed.

Lemma keeps_gets {A T} (P : Editor -> T) (f : Editor -> A) : keeps P (gets f).
Proof. intros ed. reflexivity. Qed.

Lemma keeps_lift {A T} (P : Editor -> T) (o : option A) : keeps P (lift o).
Proof. intros ed. destruct o; reflexivity. Qed.

Lemma keeps_modify {T} (P : Editor -> T) (f : Editor -> Editor) :
  (forall ed, P (f ed) = P ed) -> keeps P (modify f).
Proof. intros H ed. apply H. Qed.

Lemma keeps_cur_rec {T} (P : Editor -> T) : keeps P cur_rec.
Proof. intros ed. unfold cur_rec. apply keeps_lift. Qed.

Lemma keeps_cur_labels {T} (P : Editor -> T) : keeps P cur_labels.
Proof.
  unfold cur_labels. apply keeps_bind; [apply keeps_cur_rec|].
  intros a. apply keeps_ret.
Qed.

Ltac keeps_step :=
  first
    [ apply keeps_bind; [|intros ?]
    | apply keeps_ret | apply keeps_raise | apply keeps_gets | apply keeps_lift
    | apply keeps_cur_rec | apply keeps_cur_labels
    | apply keeps_modify; intros ?; reflexivity
    | match goal with
      | |- keeps _ (match ?x with _ => _ end) => destruct x
      | |- keeps _ (if ?x then _ else _) => destruct x
      | |- keeps _ (let '(_, _) := ?x in _) => destruct x
      end ].

Section EditorFacts.

Variable ratio : string -> string -> Q.
Variable listdir : list string.
Variable read_point_cloud : string -> option (list vec3).
Variable renders : list Label -> list vec3 -> bool.

Lemma keeps_draw_all {T} (P : Editor -> T) : keeps P (_draw_all renders).
Proof. unfold _draw_all. repeat keeps_step. Qed.

Lemma keeps_find_pcd {T} (P : Editor -> T) img :
  keeps P (_find_pcd ratio listdir img).
Proof. unfold _find_pcd. repeat keeps_step. Qed.

Lemma draw_all_state ed : snd (_draw_all renders ed) = ed.
Proof. apply (keeps_draw_all (fun e => e)). Qed.

(** Only the slider value changes in [_sync_slider]. *)
Lemma keeps_sync_slider {T} (P : Editor -> T) :
  (forall v ed, P (set_rot v ed) = P ed) -> keeps P _sync_slider.
Proof.
  intros H. unfold _sync_slider. repeat keeps_step.
  apply keeps_modify. intros ?. apply H.
Qed.

(** Only the cloud changes in [_load_cloud]. *)
Lemma keeps_load_cloud {T} (P : Editor -> T) :
  (forall p ed, P (set_pts p ed) = P ed) ->
  keeps P (_load_cloud ratio listdir read_point_cloud).
Proof.
  intros H. unfold _load_cloud. repeat keeps_step.
  - apply keeps_find_pcd.
  - apply keeps_modify. intros ?. apply H.
Qed.

(** [_refresh] leaves the store and the current record alone. *)
Lemma keeps_refresh {T} (P : Editor -> T) :
  (forall v ed, P (set_rot v ed) = P ed) ->
  (forall p ed, P (set_pts p ed) = P ed) ->
  (forall c k ed, P (set_combo c k ed) = P ed) ->
  keeps P (_refresh ratio listdir read_point_cloud renders).
Proof.
  intros Hr Hp Hc. unfold _refresh.
  apply keeps_bind; [apply keeps_load_cloud; exact Hp | intros ?].
  apply keeps_bind; [apply keeps_draw_all | intros ?].
  apply keeps_bind; [apply keeps_cur_labels | intros ?].
  apply keeps_bind; [apply keeps_modify; intros ?; apply Hc | intros ?].
  apply keeps_sync_slider; exact Hr.
Qed.

End EditorFacts.

(** ** Reading and writing the current record *)

Lemma cur_rec_run ed rec :
  nth_error (data ed) (i ed) = Some rec -> cur_rec ed = (Some rec, ed).
Proof. intros E. unfold cur_rec. rewrite E. reflexivity. Qed.

Lemma cur_labels_run ed rec :
  nth_error (data ed) (i ed) = Some rec ->
  cur_labels ed = (Some (get_Labels rec), ed).
Proof.
  intros E. unfold cur_labels. erewrite bind_Some by (apply cur_rec_run; exact E).
  reflexivity.
Qed.

Lemma put_labels_run ed rec labs :
  nth_error (data ed) (i ed) = Some rec ->
  put_labels labs ed = (Some tt, with_labels labs rec ed).
Proof.
  intros E. unfold put_labels.
  erewrite bind_Some by (apply cur_rec_run; exact E).
  unfold bind, gets, modify, lift, with_labels.
  rewrite list_set_lt by (apply nth_error_Some; congruence).
  reflexivity.
Qed.

Lemma with_labels_cur labs rec ed :
  (i ed < List.length (data ed))%nat ->
  nth_error (data (with_labels labs rec ed)) (i (with_labels labs rec ed))
  = Some (mkRec (File rec) (Some labs)).
Proof.
  intros H. unfold with_labels, set_data. cbn [data i].
  rewrite nth_error_app2; rewrite length_firstn; [|lia].
  replace (i ed - Nat.min (i ed) (List.length (data ed)))%nat with O by lia.
  reflexivity.
Qed.

Lemma bbox_params_inv idx ed bb :
  fst (_bbox_params idx ed) = Some bb ->
  exists rec labs lab,
    nth_error (data ed) (i ed) = Some rec /\ Labels rec = Some labs /\
    nth_error labs idx = Some lab /\ BoundingBoxes lab = bb.
Proof.
  unfold _bbox_params, cur_rec. unfold_M.
  destruct (nth_error (data ed) (i ed)) as [rec|] eqn:E1; cbn; [|discriminate].
  destruct (Labels rec) as [labs|] eqn:E2; cbn; [|discriminate].
  destruct (nth_error labs idx) as [lab|] eqn:E3; cbn; [|discriminate].
  intros E. injection E as <-. eauto 8.
Qed.

Lemma bbox_params_run idx ed rec labs lab :
  nth_error (data ed) (i ed) = Some rec -> Labels rec = Some labs ->
  nth_error labs idx = Some lab ->
  _bbox_params idx ed = (Some (BoundingBoxes lab), ed).
Proof.
  intros E1 E2 E3. unfold _bbox_params, cur_rec. unfold_M.
  rewrite E1; cbn. rewrite E2; cbn. rewrite E3; reflexivity.
Qed.

Lemma set_bbox_params_run idx params ed rec labs lab :
  nth_error (data ed) (i ed) = Some rec -> Labels rec = Some labs ->
  nth_error labs idx = Some lab ->
  _set_bbox_params idx params ed
  = (Some tt,
     with_labels (firstn idx labs ++ mkLabel (Class lab) params :: skipn (S idx) labs)
                 rec ed).
Proof.
  intros E1 E2 E3. unfold _set_bbox_params.
  erewrite bind_Some by (apply cur_rec_run; exact E1).
  unfold bind at 1, lift at 1. rewrite E2. cbn [ret].
  unfold bind at 1, lift at 1. rewrite E3. cbn [ret].
  unfold bind at 1, lift at 1.
  rewrite list_set_lt by (apply nth_error_Some; congruence). cbn [ret].
  apply put_labels_run; exact E1.
Qed.

(** Reading back after a write of label [idx]. *)
Lemma bbox_params_with_labels idx ed rec labs lab lab' j :
  nth_error (data ed) (i ed) = Some rec ->
  nth_error labs idx = Some lab ->
  fst (_bbox_params j
         (with_labels (firstn idx labs ++ lab' :: skipn (S idx) labs) rec ed))
  = if (j =? idx)%nat then Some (BoundingBoxes lab')
    else option_map BoundingBoxes (nth_error labs j).
Proof.
  intros E1 E3.
  assert (Hi : (i ed < List.length (data ed))%nat)
    by (apply nth_error_Some; congruence).
  assert (Hk : (idx < List.length labs)%nat)
    by (apply nth_error_Some; congruence).
  pose proof (list_set_lt labs idx lab' Hk) as Hs.
  set (labs' := firstn idx labs ++ lab' :: skipn (S idx) labs) in *.
  unfold _bbox_params, cur_rec. unfold_M.
  rewrite (with_labels_cur _ rec ed Hi). cbn.
  destruct (Nat.eqb_spec j idx) as [->|Hne].
  - rewrite (list_set_nth_eq _ _ _ _ Hs). reflexivity.
  - rewrite (list_set_nth_neq _ _ _ _ _ Hs Hne).
    destruct (nth_error labs j); reflexivity.
Qed.

(** ** Rectangle edits *)

Lemma snd_bind_keep {A B} (m : M A) (f : A -> M B) ed a ed' :
  m ed = (Some a, ed') -> (forall x, snd (f a x) = x) ->
  snd (bind m f ed) = ed'.
Proof. intros E H. unfold bind. rewrite E. apply H. Qed.

Lemma roi_moved_state renders ed idx rec labs lab cx cy cz w h d yaw tail
      px py sx sy axes :
  nth_error (data ed) (i ed) = Some rec -> Labels rec = Some labs ->
  nth_error labs idx = Some lab ->
  BoundingBoxes lab = [cx; cy; cz; w; h; d; yaw] ++ tail ->
  snd (_roi_moved renders (mkROI (px, py) (sx, sy)) idx axes ed)
  = with_labels
      (firstn idx labs
       ++ mkLabel (Class lab)
            (committed axes px py sx sy cx cy cz w h d yaw ++ tail)
       :: skipn (S idx) labs) rec ed.
Proof.
  intros E1 E2 E3 Ebb. unfold _roi_moved. cbn [pos size].
  erewrite bind_Some by (eapply bbox_params_run; eassumption).
  rewrite Ebb. cbn [firstn skipn app].
  assert (Hh : (0.5 = / 2)%R) by lra.
  unfold committed.
  destruct (axes_eqb axes (0, 1)%Z); [|destruct (axes_eqb axes (0, 2)%Z)];
    (erewrite snd_bind_keep;
     [ | eapply set_bbox_params_run; eassumption
       | intros; apply draw_all_state ]);
    rewrite Hh; reflexivity.
Qed.

(** C1.  For a label whose parameter list has at least seven scalars
    ([cx, cy, cz, w, h, d, yaw] followed by any [tail]), committing the
    rectangle at position [(px, py)] with size [(sx, sy)] stores, for that
    label, the list in which exactly the two centre coordinates and the two
    extents of the view's axes are overwritten with [position + size / 2]
    and [size]: [cx, cy, w, h] in the view [(0, 1)], [cx, cz, w, d] in
    [(0, 2)], [cy, cz, h, d] in [(1, 2)].  The third centre coordinate, the
    third extent, [yaw] and the tail are as before, and so is the parameter
    list of every other label.  In the view [(0, 1)], position [(2, 3)] and
    size [(4, 5)] give [cx = 4], [cy = 5.5], [w = 4], [h = 5]. *)
Theorem roi_moved_overwrites_view_axes
    (renders : list Label -> list vec3 -> bool) (ed : Editor) (idx : nat)
    (cx cy cz w h d yaw : R) (tail : list R) (px py sx sy : R) :
  fst (_bbox_params idx ed) = Some ([cx; cy; cz; w; h; d; yaw] ++ tail) ->
  let commit axes :=
    snd (_roi_moved renders (mkROI (px, py) (sx, sy)) idx axes ed) in
  (fst (_bbox_params idx (commit (0, 1)%Z))
   = Some ([px + sx / 2; py + sy / 2; cz; sx; sy; d; yaw] ++ tail)
   /\ fst (_bbox_params idx (commit (0, 2)%Z))
      = Some ([px + sx / 2; cy; py + sy / 2; sx; h; sy; yaw] ++ tail)
   /\ fst (_bbox_params idx (commit (1, 2)%Z))
      = Some ([cx; px + sx / 2; py + sy / 2; w; sx; sy; yaw] ++ tail))%R
  /\ (forall axes j, j <> idx ->
        fst (_bbox_params j (commit axes)) = fst (_bbox_params j ed))
  /\ (px = 2 -> py = 3 -> sx = 4 -> sy = 5 ->
      fst (_bbox_params idx (commit (0, 1)%Z))
      = Some ([4; 5.5; cz; 4; 5; d; yaw] ++ tail))%R.
Proof.
  intros Hbb commit.
  destruct (bbox_params_inv _ _ _ Hbb) as (rec & labs & lab & E1 & E2 & E3 & Ebb).
  assert (Hread : forall axes,
    fst (_bbox_params idx (commit axes))
    = Some (committed axes px py sx sy cx cy cz w h d yaw ++ tail)).
  { intros axes. unfold commit.
    rewrite (roi_moved_state renders ed idx rec labs lab cx cy cz w h d yaw tail
               px py sx sy axes E1 E2 E3 Ebb).
    rewrite (bbox_params_with_labels idx ed rec labs lab _ idx E1 E3).
    rewrite Nat.eqb_refl. reflexivity. }
  split; [repeat split; apply Hread|]. split.
  - intros axes j Hj. unfold commit.
    rewrite (roi_moved_state renders ed idx rec labs lab cx cy cz w h d yaw tail
               px py sx sy axes E1 E2 E3 Ebb).
    rewrite (bbox_params_with_labels idx ed rec labs lab _ j E1 E3).
    destruct (Nat.eqb_spec j idx); [contradiction|].
    unfold _bbox_params, cur_rec. unfold_M.
    rewrite E1. cbn. rewrite E2. cbn.
    destruct (nth_error labs j); reflexivity.
  - intros -> -> -> ->. rewrite Hread. unfold committed. cbn [axes_eqb fst snd Z.eqb andb app].
    replace (2 + 4 / 2)%R with 4%R by lra.
    replace (3 + 5 / 2)%R with 5.5%R by lra.
    reflexivity.
Qed.

Lemma roi_moved_overwrites_view_axes_witness :
  fst (_bbox_params 0 (snd (_roi_moved (fun _ _ => true)
        (mkROI (2, 3)%R (4, 5)%R) 0 (0, 1)%Z demo_editor)))
  = Some ([4; 5.5; 30; 4; 5; 3; 0] ++ [7; 8])%R.
Proof.
  refine (proj2 (proj2 (roi_moved_overwrites_view_axes (fun _ _ => true)
            demo_editor 0 10 20 30 1 2 3 0 [7; 8]%R 2 3 4 5 _)) _ _ _ _);
    reflexivity.
Defined.

(** ** The rotation control *)

Lemma selected_of_nat k (labs : list Label) :
  (k < List.length labs)%nat -> selected (Z.of_nat k) labs = Some k.
Proof.
  intros H. unfold selected.
  destruct (Z.leb_spec 0 (Z.of_nat k)); [|lia].
  destruct (Z.ltb_spec (Z.of_nat k) (Z.of_nat (List.length labs))); [|lia].
  cbn. rewrite Nat2Z.id. reflexivity.
Qed.



(** A change of selection rewrites the selector index and the slider
    value, nothing else. *)
Lemma setCurrentIndex_store k ed :
  data (snd (combo_setCurrentIndex k ed)) = data ed
  /\ i (snd (combo_setCurrentIndex k ed)) = i ed.
Proof.
  split.
  - apply (fun H => H ed). change (keeps data (combo_setCurrentIndex k)).
    unfold combo_setCurrentIndex. repeat keeps_step.
  - apply (fun H => H ed). change (keeps i (combo_setCurrentIndex k)).
    unfold combo_setCurrentIndex. repeat keeps_step.
Qed.

Lemma setCurrentIndex_index k ed :
  combo_index (snd (combo_setCurrentIndex k ed)) = k.
Proof.
  unfold combo_setCurrentIndex. unfold bind at 1, gets at 1.
  destruct (Z.eqb_spec k (combo_index ed)) as [->|Hne]; [reflexivity|].
  unfold bind at 1, gets at 1. unfold bind at 1, modify at 1.
  rewrite (keeps_sync_slider combo_index); reflexivity.
Qed.

Open Scope R_scope.





Close Scope R_scope.





(** ** Deleting and adding labels *)

Lemma frame_labels_eq ed :
  frame_labels ed = option_map get_Labels (nth_error (data ed) (i ed)).
Proof.
  unfold frame_labels, cur_labels, cur_rec. unfold_M.
  destruct (nth_error (data ed) (i ed)); reflexivity.
Qed.

Lemma frame_labels_ext ed ed' :
  data ed' = data ed -> i ed' = i ed -> frame_labels ed' = frame_labels ed.
Proof. intros Hd Hi. rewrite !frame_labels_eq, Hd, Hi. reflexivity. Qed.

Lemma frame_labels_with_labels labs rec ed :
  (i ed < List.length (data ed))%nat ->
  frame_labels (with_labels labs rec ed) = Some labs.
Proof.
  intros H. rewrite frame_labels_eq, with_labels_cur by exact H. reflexivity.
Qed.

Lemma snd_bind {A B} (m : M A) (f : A -> M B) ed a ed' :
  m ed = (Some a, ed') -> snd (bind m f ed) = snd (f a ed').
Proof. intros E. unfold bind. rewrite E. reflexivity. Qed.

Section DeleteAdd.

Variable ratio : string -> string -> Q.
Variable listdir : list string.
Variable read_point_cloud : string -> option (list vec3).
Variable renders : list Label -> list vec3 -> bool.

Let refresh := _refresh ratio listdir read_point_cloud renders.

Lemma refresh_frame_labels ed :
  frame_labels (snd (refresh ed)) = frame_labels ed.
Proof.
  apply frame_labels_ext.
  - apply (keeps_refresh ratio listdir read_point_cloud renders data);
      reflexivity.
  - apply (keeps_refresh ratio listdir read_point_cloud renders i);
      reflexivity.
Qed.

Lemma delete_label_state ed k labs :
  combo_index ed = Z.of_nat k ->
  frame_labels ed = Some labs -> (k < List.length labs)%nat ->
  frame_labels
    (snd (_delete_label ratio listdir read_point_cloud renders true ed))
  = Some (list_pop labs k).
Proof.
  intros Ec El Hk. rewrite frame_labels_eq in El.
  destruct (nth_error (data ed) (i ed)) as [rec|] eqn:E1; [|discriminate].
  cbn in El. injection El as El.
  assert (Hi : (i ed < List.length (data ed))%nat)
    by (apply nth_error_Some; congruence).
  unfold _delete_label. unfold bind at 1, gets at 1. rewrite Ec.
  erewrite bind_Some by (apply cur_labels_run; exact E1).
  rewrite El, (selected_of_nat _ _ Hk).
  erewrite snd_bind by (apply put_labels_run; exact E1).
  fold refresh. rewrite refresh_frame_labels.
  apply frame_labels_with_labels. exact Hi.
Qed.

End DeleteAdd.

(** C7.  With a valid index [k] selected and the deletion confirmed, the
    frame's label sequence loses exactly the label at [k]: it is one
    shorter, positions below [k] hold what they held, and every position
    [j >= k] holds what position [j + 1] held.  For three labels and
    [k = 1] the result is the former first and third label. *)
Theorem delete_label_shifts_down
    (ratio : string -> string -> Q) (listdir : list string)
    (read_point_cloud : string -> option (list vec3))
    (renders : list Label -> list vec3 -> bool)
    (ed : Editor) (k : nat) (labs : list Label) :
  combo_index ed = Z.of_nat k ->
  frame_labels ed = Some labs ->
  (k < List.length labs)%nat ->
  exists labs',
    frame_labels
      (snd (_delete_label ratio listdir read_point_cloud renders true ed))
    = Some labs'
    /\ List.length labs' = (List.length labs - 1)%nat
    /\ (forall j, (j < k)%nat -> nth_error labs' j = nth_error labs j)
    /\ (forall j, (k <= j)%nat -> nth_error labs' j = nth_error labs (S j))
    /\ (forall a b c, labs = [a; b; c] -> k = 1%nat -> labs' = [a; c]).
Proof.
  intros Ec El Hk. exists (list_pop labs k).
  split; [apply delete_label_state; assumption|].
  split; [apply list_pop_length; exact Hk|].
  split; [intros j Hj; apply list_pop_nth_below; exact Hj|].
  split; [intros j Hj; apply list_pop_nth_above; assumption|].
  intros a b c -> ->. reflexivity.
Qed.

Lemma delete_label_shifts_down_witness :
  exists labs',
    frame_labels
      (snd (_delete_label Difflib.ratio [] (fun _ => None) (fun _ _ => true)
              true demo_three))
    = Some labs'
    /\ labs' = [mkLabel "human1" []; mkLabel "human3" []].
Proof.
  destruct (delete_label_shifts_down Difflib.ratio [] (fun _ => None)
              (fun _ _ => true) demo_three 1
              [mkLabel "human1" []; mkLabel "human2" []; mkLabel "human3" []]
              eq_refl eq_refl ltac:(cbn; lia))
    as (labs' & E & _ & _ & _ & H).
  exists labs'. split; [exact E|]. apply (H _ _ _ eq_refl eq_refl).
Defined.

Section AddLabel.

Variable ratio : string -> string -> Q.
Variable listdir : list string.
Variable read_point_cloud : string -> option (list vec3).
Variable renders : list Label -> list vec3 -> bool.

Let add_label := _add_label ratio listdir read_point_cloud renders.

Lemma keeps_setCurrentIndex {T} (P : Editor -> T) k :
  (forall v ed, P (set_rot v ed) = P ed) ->
  (forall c j ed, P (set_combo c j ed) = P ed) ->
  keeps P (combo_setCurrentIndex k).
Proof.
  intros Hr Hc. unfold combo_setCurrentIndex.
  apply keeps_bind; [apply keeps_gets | intros cur].
  destruct (k =? cur)%Z; [apply keeps_ret|].
  apply keeps_bind; [apply keeps_gets | intros items].
  apply keeps_bind; [apply keeps_modify; intros; apply Hc | intros _].
  apply keeps_sync_slider. exact Hr.
Qed.

Lemma add_label_state ed labs txt ok :
  frame_labels ed = Some labs ->
  frame_labels (snd (add_label (txt, ok) ed))
  = Some (if ok && negb (String.eqb (Str.strip txt) EmptyString)
          then labs ++ [new_label txt (pts ed)] else labs).
Proof.
  intros El. rewrite frame_labels_eq in El.
  destruct (nth_error (data ed) (i ed)) as [rec|] eqn:E1; [|discriminate].
  cbn in El. injection El as El.
  assert (Hi : (i ed < List.length (data ed))%nat)
    by (apply nth_error_Some; congruence).
  unfold add_label, _add_label.
  erewrite bind_Some by (apply cur_rec_run; exact E1).
  erewrite bind_Some by (apply put_labels_run; exact E1).
  rewrite El.
  set (ed1 := with_labels labs rec ed).
  assert (E1' : nth_error (data ed1) (i ed1) = Some (mkRec (File rec) (Some labs)))
    by (apply with_labels_cur; exact Hi).
  assert (Hi1 : (i ed1 < List.length (data ed1))%nat)
    by (apply nth_error_Some; congruence).
  destruct ok; cbn [negb orb andb].
  - destruct (String.eqb (Str.strip txt) EmptyString); cbn [negb].
    + cbn [ret snd]. apply frame_labels_with_labels. exact Hi.
    + unfold bind at 1, gets at 1.
      change (pts ed1) with (pts ed). unfold new_label, new_centre.
      destruct (match pts ed with [] => _ | _ => _ end) as [[x y] z].
      erewrite snd_bind by (apply put_labels_run; exact E1').
      set (ed2 := with_labels _ _ ed1).
      transitivity (frame_labels ed2);
        [|apply frame_labels_with_labels; exact Hi1].
      apply frame_labels_ext.
      * apply (fun H => H ed2).
        change (keeps data
          (bind (_refresh ratio listdir read_point_cloud renders)
             (fun _ => bind (gets (fun e => List.length (combo e)))
                (fun n => combo_setCurrentIndex (Z.of_nat n - 1))))).
        apply keeps_bind; [apply keeps_refresh; reflexivity | intros _].
        apply keeps_bind; [apply keeps_gets | intros n].
        apply keeps_setCurrentIndex; reflexivity.
      * apply (fun H => H ed2).
        change (keeps i
          (bind (_refresh ratio listdir read_point_cloud renders)
             (fun _ => bind (gets (fun e => List.length (combo e)))
                (fun n => combo_setCurrentIndex (Z.of_nat n - 1))))).
        apply keeps_bind; [apply keeps_refresh; reflexivity | intros _].
        apply keeps_bind; [apply keeps_gets | intros n].
        apply keeps_setCurrentIndex; reflexivity.
  - cbn [ret snd]. apply frame_labels_with_labels. exact Hi.
Qed.

End AddLabel.

Lemma new_label_boxes txt p :
  exists x y z,
    new_centre p = (x, y, z)
    /\ new_label txt p = mkLabel (Str.strip txt) [x; y; z; 1; 1; 1; 0; 0; 0]%R.
Proof.
  unfold new_label. destruct (new_centre p) as [[x y] z].
  exists x, y, z. split; reflexivity.
Qed.

(** C8 (amended).  When the prompt is accepted with a text that is not
    blank, [_add_label] appends one label at the end of the frame's
    sequence, so at the index that was the sequence's length, and keeps
    the labels already there.  Its class name is the text with leading and
    trailing whitespace stripped; its box has extents [1, 1, 1] and yaw [0]
    and is centred at the mean of the active cloud's points (at the origin
    when the cloud has no point).  When the prompt is cancelled or the text
    is blank, the sequence is left as it was. *)
Theorem add_label_appends_stripped
    (ratio : string -> string -> Q) (listdir : list string)
    (read_point_cloud : string -> option (list vec3))
    (renders : list Label -> list vec3 -> bool)
    (ed : Editor) (labs : list Label) (txt : string) :
  frame_labels ed = Some labs ->
  let add dialog :=
    snd (_add_label ratio listdir read_point_cloud renders dialog ed) in
  (Str.strip txt <> EmptyString ->
   exists lab cx cy cz tail,
     frame_labels (add (txt, true)) = Some (labs ++ [lab])
     /\ nth_error (labs ++ [lab]) (List.length labs) = Some lab
     /\ Class lab = Str.strip txt
     /\ BoundingBoxes lab = [cx; cy; cz; 1; 1; 1; 0]%R ++ tail
     /\ (pts ed <> [] -> (cx, cy, cz) = mean0 (pts ed))
     /\ (pts ed = [] -> (cx, cy, cz) = (0, 0, 0)%R))
  /\ (forall ok, ok = false \/ Str.strip txt = EmptyString ->
      frame_labels (add (txt, ok)) = Some labs).
Proof.
  intros El add. split.
  - intros Hne. apply String.eqb_neq in Hne.
    destruct (new_label_boxes txt (pts ed)) as (x & y & z & Ec & Enew).
    exists (new_label txt (pts ed)), x, y, z, [0; 0]%R.
    split.
    { unfold add. rewrite (add_label_state _ _ _ _ ed labs txt true El).
      rewrite Hne. reflexivity. }
    split.
    { rewrite nth_error_app2, Nat.sub_diag by lia. reflexivity. }
    rewrite Enew. cbn [Class BoundingBoxes app].
    split; [reflexivity|]. split; [reflexivity|].
    unfold new_centre in Ec. split.
    + intros Hp. destruct (pts ed); [contradiction | symmetry; exact Ec].
    + intros Hp. rewrite Hp in Ec. symmetry; exact Ec.
  - intros ok Hok. unfold add.
    rewrite (add_label_state _ _ _ _ ed labs txt ok El).
    destruct Hok as [-> | ->]; [reflexivity|].
    cbn. rewrite andb_false_r. reflexivity.
Qed.

Lemma add_label_appends_stripped_witness :
  exists lab,
    frame_labels
      (snd (_add_label Difflib.ratio [] (fun _ => None) (fun _ _ => true)
              (" car ", true)%string demo_editor))
    = Some ([demo_label] ++ [lab])
    /\ Class lab = "car"%string.
Proof.
  destruct (proj1 (add_label_appends_stripped Difflib.ratio [] (fun _ => None)
                     (fun _ _ => true) demo_editor [demo_label] " car " eq_refl))
    as (lab & cx & cy & cz & tail & E & _ & Ecl & _).
  - cbn. discriminate.
  - exists lab. split; [exact E | exact Ecl].
Defined.

(** C8 as stated fails: a text with surrounding blanks is not the class
    name that gets stored. *)
Lemma add_label_class_is_text_counterexample :
  ~ (exists lab,
       frame_labels
         (snd (_add_label Difflib.ratio [] (fun _ => None) (fun _ _ => true)
                 (" car ", true)%string demo_editor))
       = Some ([demo_label] ++ [lab])
       /\ Class lab = " car "%string).
Proof.
  intros (lab & E & Ecl).
  rewrite (add_label_state _ _ _ _ demo_editor [demo_label] " car " true eq_refl)
    in E.
  cbn [andb negb Str.strip] in E.
  injection E as E. rewrite <- E in Ecl.
  cbn in Ecl. discriminate.
Qed.

(** C10.  A label is created exactly when the prompt is accepted with a
    text that is not blank.  Then [_add_label] appends one label to the
    frame's sequence, and the parameter list of that label has exactly
    nine scalars: the three centre coordinates (the mean of the active
    cloud, the origin when it has no point), the extents [1, 1, 1], yaw
    [0], and two trailing scalars that are both [0].  When the prompt is
    cancelled or the text is blank, no label is created. *)
Theorem add_label_creates_nine_scalars
    (ratio : string -> string -> Q) (listdir : list string)
    (read_point_cloud : string -> option (list vec3))
    (renders : list Label -> list vec3 -> bool)
    (ed : Editor) (labs : list Label) (txt : string) (ok : bool) :
  frame_labels ed = Some labs ->
  let labs' :=
    frame_labels
      (snd (_add_label ratio listdir read_point_cloud renders (txt, ok) ed)) in
  (ok = true -> Str.strip txt <> EmptyString ->
   exists lab cx cy cz,
     labs' = Some (labs ++ [lab])
     /\ (cx, cy, cz) = new_centre (pts ed)
     /\ BoundingBoxes lab = [cx; cy; cz; 1; 1; 1; 0; 0; 0]%R
     /\ List.length (BoundingBoxes lab) = 9%nat
     /\ skipn 7 (BoundingBoxes lab) = [0; 0]%R)
  /\ (ok = false \/ Str.strip txt = EmptyString -> labs' = Some labs).
Proof.
  intros El labs'. unfold labs'.
  rewrite (add_label_state _ _ _ _ ed labs txt ok El). split.
  - intros -> Hne. apply String.eqb_neq in Hne. rewrite Hne. cbn [andb negb].
    destruct (new_label_boxes txt (pts ed)) as (x & y & z & Ec & Enew).
    exists (new_label txt (pts ed)), x, y, z.
    rewrite Enew. cbn [BoundingBoxes].
    split; [reflexivity|]. split; [symmetry; exact Ec|].
    repeat split.
  - intros [-> | ->]; [reflexivity|].
    cbn. rewrite andb_false_r. reflexivity.
Qed.

Lemma add_label_creates_nine_scalars_witness :
  exists lab cx cy cz,
    frame_labels
      (snd (_add_label Difflib.ratio [] (fun _ => None) (fun _ _ => true)
              ("human2", true)%string demo_editor))
    = Some ([demo_label] ++ [lab])
    /\ BoundingBoxes lab = [cx; cy; cz; 1; 1; 1; 0; 0; 0]%R.
Proof.
  destruct (proj1 (add_label_creates_nine_scalars Difflib.ratio []
                     (fun _ => None) (fun _ _ => true) demo_editor
                     [demo_label] "human2" true eq_refl) eq_refl)
    as (lab & cx & cy & cz & E & _ & Hb & _).
  - cbn. discriminate.
  - exists lab, cx, cy, cz. split; [exact E | exact Hb].
Defined.

(** ** Corners *)

Open Scope R_scope.

(** C5.  For every centre, extents and yaw (positive extents included),
    [_corners] returns eight points, each the image of one vertex of the
    unit cube under scaling by the half-extents, rotation by [yaw] about
    the vertical axis and translation by the centre, and the mean of the
    eight points is the centre [(cx, cy, cz)]. *)
Theorem corners_centroid_is_centre (cx cy cz w h d yaw : R) :
  let c := _corners cx cy cz w h d yaw in
  List.length c = 8%nat
  /\ c = map (place cx cy cz w h d yaw) unit_cube
  /\ mean0 c = (cx, cy, cz).
Proof.
  cbv zeta. split; [reflexivity|]. split.
  - unfold _corners, add_row, matmul, vecmat, transpose3, dot3, vadd,
      unit_cube, place.
    cbn [map]. repeat (f_equal; try ring).
  - unfold mean0, _corners, add_row, matmul, vecmat, transpose3, dot3, vsum.
    cbn [map fold_right List.length]. unfold vadd. cbn [INR].
    f_equal; [f_equal|]; field.
Qed.

Close Scope R_scope.

(** ** Positive extents *)

Lemma safe_bind {A B} (m : M A) (f : A -> M B) (Q : A -> Prop) (R : B -> Prop) :
  safe m Q -> (forall a, Q a -> safe (f a) R) -> safe (bind m f) R.
Proof.
  intros Hm Hf ed Hok. specialize (Hm ed Hok). unfold bind.
  destruct (m ed) as [[a|] ed']; cbn [fst snd] in *.
  - destruct Hm as [Hok' Ha]. apply (Hf a (Ha a eq_refl) ed' Hok').
  - split; [apply Hm | discriminate].
Qed.

Lemma safe_ret {A} (a : A) (Q : A -> Prop) : Q a -> safe (ret a) Q.
Proof.
  intros Ha ed Hok. split; [exact Hok|].
  intros a' E. injection E as <-. exact Ha.
Qed.

Lemma safe_raise {A} (Q : A -> Prop) : safe (@raise A) Q.
Proof. intros ed Hok. split; [exact Hok | discriminate]. Qed.

Lemma safe_lift {A} (o : option A) (Q : A -> Prop) :
  (forall a, o = Some a -> Q a) -> safe (lift o) Q.
Proof.
  intros H. destruct o as [a|]; [apply safe_ret; auto | apply safe_raise].
Qed.

Lemma safe_gets {A} (f : Editor -> A) : safe (gets f) (fun _ => True).
Proof. intros ed Hok. split; [exact Hok | trivial]. Qed.

Lemma safe_keeps {A} (m : M A) : keeps data m -> safe m (fun _ => True).
Proof.
  intros Hk ed Hok. split; [rewrite Hk; exact Hok | trivial].
Qed.

Lemma safe_cur_rec : safe cur_rec (fun rec => Forall label_ok (get_Labels rec)).
Proof.
  intros ed Hok. unfold cur_rec.
  destruct (nth_error (data ed) (i ed)) as [rec|] eqn:E; cbn.
  - split; [exact Hok|]. intros a Ea. injection Ea as <-.
    apply nth_error_In in E.
    apply (proj1 (Forall_forall _ _) Hok rec E).
  - split; [exact Hok | discriminate].
Qed.

Lemma safe_cur_labels : safe cur_labels (Forall label_ok).
Proof.
  unfold cur_labels. eapply safe_bind; [apply safe_cur_rec|].
  intros rec Hrec. apply safe_ret. exact Hrec.
Qed.

Lemma safe_put_labels labs :
  Forall label_ok labs -> safe (put_labels labs) (fun _ => True).
Proof.
  intros Hl ed Hok. split; [|trivial].
  destruct (nth_error (data ed) (i ed)) as [rec|] eqn:E.
  - rewrite (put_labels_run ed rec labs E). cbn [snd].
    unfold with_labels, set_data. cbn [data].
    apply Forall_app. split; [apply Forall_firstn; exact Hok|].
    constructor; [exact Hl | apply Forall_skipn; exact Hok].
  - unfold put_labels, cur_rec. unfold_M. rewrite E. exact Hok.
Qed.

Lemma Forall_list_set {A} (P : A -> Prop) l k v l' :
  list_set l k v = Some l' -> Forall P l -> P v -> Forall P l'.
Proof.
  intros E Hl Hv. apply list_set_inv in E as [_ ->].
  apply Forall_app. split; [apply Forall_firstn; exact Hl|].
  constructor; [exact Hv | apply Forall_skipn; exact Hl].
Qed.

Lemma Forall_list_pop {A} (P : A -> Prop) l k :
  Forall P l -> Forall P (list_pop l k).
Proof.
  intros Hl. unfold list_pop. apply Forall_app.
  split; [apply Forall_firstn | apply Forall_skipn]; exact Hl.
Qed.

Lemma Forall_nth_error {A} (P : A -> Prop) l k a :
  Forall P l -> nth_error l k = Some a -> P a.
Proof.
  intros Hl E. apply nth_error_In in E.
  apply (proj1 (Forall_forall _ _) Hl a E).
Qed.

Section Invariant.

Variable ratio : string -> string -> Q.
Variable listdir : list string.
Variable read_point_cloud : string -> option (list vec3).
Variable renders : list Label -> list vec3 -> bool.

Lemma safe_draw_all : safe (_draw_all renders) (fun _ => True).
Proof. apply safe_keeps, keeps_draw_all. Qed.

Lemma safe_refresh :
  safe (_refresh ratio listdir read_point_cloud renders) (fun _ => True).
Proof. apply safe_keeps, keeps_refresh; reflexivity. Qed.

Lemma safe_bbox_params idx : safe (_bbox_params idx) positive_extents.
Proof.
  unfold _bbox_params.
  eapply safe_bind; [apply safe_cur_rec | intros rec Hrec].
  eapply safe_bind;
    [apply (safe_lift _ (fun labs => labs = get_Labels rec)) | intros labs ->].
  { intros labs E. unfold get_Labels. rewrite E. reflexivity. }
  eapply safe_bind; [apply (safe_lift _ label_ok) | intros lab Hlab].
  { intros lab E. apply (Forall_nth_error _ _ _ _ Hrec E). }
  apply safe_ret. exact Hlab.
Qed.

Lemma safe_set_bbox_params idx params :
  positive_extents params -> safe (_set_bbox_params idx params) (fun _ => True).
Proof.
  intros Hp. unfold _set_bbox_params.
  eapply safe_bind; [apply safe_cur_rec | intros rec Hrec].
  eapply safe_bind;
    [apply (safe_lift _ (fun labs => labs = get_Labels rec)) | intros labs ->].
  { intros labs E. unfold get_Labels. rewrite E. reflexivity. }
  eapply safe_bind; [apply (safe_lift _ (fun _ => True)); trivial | intros lab _].
  eapply safe_bind; [apply (safe_lift _ (Forall label_ok)) | intros labs' Hl'].
  { intros labs' E. apply (Forall_list_set _ _ _ _ _ E Hrec). exact Hp. }
  apply safe_put_labels. exact Hl'.
Qed.

Lemma safe_roi_moved roi idx axes :
  (0 < fst (size roi))%R -> (0 < snd (size roi))%R ->
  safe (_roi_moved renders roi idx axes) (fun _ => True).
Proof.
  intros Hsx Hsy. unfold _roi_moved.
  destruct (pos roi) as [px py]. destruct (size roi) as [sx sy].
  cbn [fst snd] in *.
  eapply safe_bind; [apply safe_bbox_params | intros full Hfull].
  destruct full as [|cx [|cy [|cz [|w [|h [|d [|yaw tail]]]]]]];
    cbn [firstn]; try apply safe_raise.
  cbn [skipn]. cbn [positive_extents] in Hfull.
  destruct Hfull as (Hw & Hh & Hd).
  destruct (axes_eqb axes (0, 1)%Z); [|destruct (axes_eqb axes (0, 2)%Z)];
    (eapply safe_bind;
     [apply safe_set_bbox_params | intros ? _; apply safe_draw_all]);
    cbn; auto.
Qed.

Lemma safe_rot_bbox deg : safe (_rot_bbox renders deg) (fun _ => True).
Proof.
  unfold _rot_bbox.
  eapply safe_bind; [apply safe_gets | intros idx _].
  eapply safe_bind; [apply safe_cur_labels | intros labs Hlabs].
  destruct (selected idx labs) as [k|]; [|apply safe_ret; trivial].
  eapply safe_bind; [apply (safe_lift _ label_ok) | intros lab Hlab].
  { intros lab E. apply (Forall_nth_error _ _ _ _ Hlabs E). }
  eapply safe_bind; [apply (safe_lift _ positive_extents) | intros bb Hbb].
  { intros bb E. apply list_set_inv in E as [_ ->].
    unfold label_ok in Hlab.
    destruct (BoundingBoxes lab) as [|cx [|cy [|cz [|w [|h [|d tl]]]]]];
      cbn in Hlab |- *; try contradiction. exact Hlab. }
  eapply safe_bind; [apply (safe_lift _ (Forall label_ok)) | intros labs' Hl'].
  { intros labs' E. apply (Forall_list_set _ _ _ _ _ E Hlabs). exact Hbb. }
  eapply safe_bind; [apply safe_put_labels; exact Hl' | intros ? _].
  apply safe_draw_all.
Qed.

Lemma safe_setItemText k txt : safe (combo_setItemText k txt) (fun _ => True).
Proof.
  apply safe_keeps. unfold combo_setItemText. repeat keeps_step.
Qed.

Lemma safe_rename_label auto_prompt dialog line_text :
  safe (_rename_label renders auto_prompt dialog line_text) (fun _ => True).
Proof.
  unfold _rename_label.
  eapply safe_bind; [apply safe_gets | intros idx _].
  eapply safe_bind; [apply safe_cur_labels | intros labs Hlabs].
  destruct (selected idx labs) as [k|]; [|apply safe_ret; trivial].
  destruct (auto_prompt && negb (snd dialog)); [apply safe_ret; trivial|].
  eapply safe_bind; [apply (safe_lift _ label_ok) | intros lab Hlab].
  { intros lab E. apply (Forall_nth_error _ _ _ _ Hlabs E). }
  match goal with |- safe (if ?c then _ else _) _ => destruct c end;
    [apply safe_ret; trivial|].
  eapply safe_bind; [apply (safe_lift _ (Forall label_ok)) | intros labs' Hl'].
  { intros labs' E. apply (Forall_list_set _ _ _ _ _ E Hlabs). exact Hlab. }
  eapply safe_bind; [apply safe_put_labels; exact Hl' | intros ? _].
  eapply safe_bind; [apply safe_setItemText | intros ? _].
  apply safe_draw_all.
Qed.

Lemma safe_delete_label yes :
  safe (_delete_label ratio listdir read_point_cloud renders yes)
       (fun _ => True).
Proof.
  unfold _delete_label.
  eapply safe_bind; [apply safe_gets | intros idx _].
  eapply safe_bind; [apply safe_cur_labels | intros labs Hlabs].
  destruct (selected idx labs) as [k|]; [|apply safe_ret; trivial].
  destruct yes; [|apply safe_ret; trivial].
  eapply safe_bind; [|intros ? _; apply safe_refresh].
  apply safe_put_labels, Forall_list_pop, Hlabs.
Qed.

Lemma safe_add_label dialog :
  safe (_add_label ratio listdir read_point_cloud renders dialog)
       (fun _ => True).
Proof.
  unfold _add_label.
  eapply safe_bind; [apply safe_cur_rec | intros rec Hrec].
  eapply safe_bind; [apply safe_put_labels; exact Hrec | intros ? _].
  destruct dialog as [txt ok].
  match goal with |- safe (if ?c then _ else _) _ => destruct c end;
    [apply safe_ret; trivial|].
  eapply safe_bind; [apply safe_gets | intros p _].
  destruct (match p with [] => _ | _ => _ end) as [[x y] z].
  eapply safe_bind; [apply safe_put_labels | intros ? _].
  { apply Forall_app. split; [exact Hrec|].
    constructor; [|constructor]. cbn. repeat split; lra. }
  eapply safe_bind; [apply safe_refresh | intros ? _].
  eapply safe_bind; [apply safe_gets | intros n _].
  apply safe_keeps, keeps_setCurrentIndex; reflexivity.
Qed.

End Invariant.

(** C4 (amended).  No method checks extents before it writes.  From a
    store in which every box has positive extents, a rectangle commit
    whose size is positive in both directions, a rotation change, a rename,
    a deletion and an addition each end in a store in which every box has
    positive extents; [_set_bbox_params] stores whatever list it is given,
    and a rectangle commit stores the rectangle's size as the two extents
    of its view whatever their sign. *)
Theorem mutations_keep_positive_extents
    (ratio : string -> string -> Q) (listdir : list string)
    (read_point_cloud : string -> option (list vec3))
    (renders : list Label -> list vec3 -> bool) (ed : Editor) :
  store_ok (data ed) ->
  (forall roi idx axes,
      (0 < fst (size roi))%R -> (0 < snd (size roi))%R ->
      store_ok (data (snd (_roi_moved renders roi idx axes ed))))
  /\ (forall deg, store_ok (data (snd (_rot_bbox renders deg ed))))
  /\ (forall auto_prompt dialog line_text,
      store_ok (data (snd (_rename_label renders auto_prompt dialog line_text ed))))
  /\ (forall yes,
      store_ok (data (snd (_delete_label ratio listdir read_point_cloud
                             renders yes ed))))
  /\ (forall dialog,
      store_ok (data (snd (_add_label ratio listdir read_point_cloud
                             renders dialog ed))))
  /\ (forall idx params,
      fst (_bbox_params idx ed) <> None ->
      fst (_bbox_params idx (snd (_set_bbox_params idx params ed)))
      = Some params)
  /\ (forall idx cx cy cz w h d yaw tail px py sx sy,
      fst (_bbox_params idx ed) = Some ([cx; cy; cz; w; h; d; yaw] ++ tail) ->
      fst (_bbox_params idx
             (snd (_roi_moved renders (mkROI (px, py) (sx, sy)) idx
                     (0, 1)%Z ed)))
      = Some ([px + sx / 2; py + sy / 2; cz; sx; sy; d; yaw] ++ tail)%R).
Proof.
  intros Hok.
  split; [intros roi idx axes Hx Hy; apply (safe_roi_moved renders roi idx axes Hx Hy ed Hok)|].
  split; [intros deg; apply (safe_rot_bbox renders deg ed Hok)|].
  split; [intros a dlg t; apply (safe_rename_label renders a dlg t ed Hok)|].
  split; [intros yes;
          apply (safe_delete_label ratio listdir read_point_cloud renders yes ed Hok)|].
  split; [intros dlg;
          apply (safe_add_label ratio listdir read_point_cloud renders dlg ed Hok)|].
  split.
  - intros idx params Hsome.
    destruct (fst (_bbox_params idx ed)) as [bb|] eqn:Hbb; [|contradiction].
    destruct (bbox_params_inv _ _ _ Hbb) as (rec & labs & lab & E1 & E2 & E3 & _).
    rewrite (set_bbox_params_run idx params ed rec labs lab E1 E2 E3).
    cbn [snd].
    rewrite (bbox_params_with_labels idx ed rec labs lab _ idx E1 E3).
    rewrite Nat.eqb_refl. reflexivity.
  - intros idx cx cy cz w h d yaw tail px py sx sy Hbb.
    destruct (bbox_params_inv _ _ _ Hbb) as (rec & labs & lab & E1 & E2 & E3 & Ebb).
    rewrite (roi_moved_state renders ed idx rec labs lab cx cy cz w h d yaw tail
               px py sx sy (0, 1)%Z E1 E2 E3 Ebb).
    rewrite (bbox_params_with_labels idx ed rec labs lab _ idx E1 E3).
    rewrite Nat.eqb_refl. reflexivity.
Qed.

Lemma demo_editor_ok : store_ok (data demo_editor).
Proof.
  repeat constructor; cbn; lra.
Qed.

Lemma mutations_keep_positive_extents_witness :
  store_ok (data (snd (_roi_moved (fun _ _ => true) (mkROI (2, 3) (4, 5))%R
                         0 (0, 1)%Z demo_editor))).
Proof.
  apply (proj1 (mutations_keep_positive_extents Difflib.ratio []
                  (fun _ => None) (fun _ _ => true) demo_editor
                  ltac:(repeat constructor; cbn; lra))
           (mkROI (2, 3) (4, 5))%R 0%nat (0, 1)%Z);
    cbn; lra.
Defined.

(** C4 as stated fails: a commit with a zero-width rectangle is written
    to the store, which then holds a box with [w = 0]; this is so even
    when the redraw that follows the write raises on the flat box. *)
Lemma zero_size_commit_counterexample :
  store_ok (data demo_editor)
  /\ fst (_bbox_params 0
            (snd (_roi_moved (fun _ _ => false) (mkROI (2, 3) (0, 5))%R
                    0 (0, 1)%Z demo_editor)))
     = Some [2 + 0 / 2; 3 + 5 / 2; 30; 0; 5; 3; 0; 7; 8]%R
  /\ ~ store_ok (data (snd (_roi_moved (fun _ _ => false)
                              (mkROI (2, 3) (0, 5))%R 0 (0, 1)%Z
                              demo_editor))).
Proof.
  split; [exact demo_editor_ok|].
  rewrite (roi_moved_state (fun _ _ => false) demo_editor 0 _ [demo_label]
             demo_label 10 20 30 1 2 3 0 [7; 8]%R 2 3 0 5 (0, 1)%Z
             eq_refl eq_refl eq_refl eq_refl).
  split; [reflexivity|].
  intros H. cbn in H.
  apply Forall_inv in H. apply Forall_inv in H.
  cbn in H. lra.
Qed.

(** ** Orders and sorting *)

Lemma ltb_lt a b : String.ltb a b = true <-> String_as_OT.lt a b.
Proof.
  rewrite <- String_as_OT.cmp_lt. unfold String.ltb, String_as_OT.cmp.
  destruct (String.compare a b); split; congruence.
Qed.

Lemma str_lt_trans a b c : str_lt a b -> str_lt b c -> str_lt a c.
Proof.
  unfold str_lt. rewrite !ltb_lt. apply String_as_OT.lt_trans.
Qed.

Lemma str_lt_irrefl a : ~ str_lt a a.
Proof.
  unfold str_lt. rewrite ltb_lt. intros H.
  apply (String_as_OT.lt_not_eq _ _ H). reflexivity.
Qed.

Lemma str_lt_asym a b : str_lt a b -> str_le a b.
Proof.
  intros H. unfold str_le. destruct (String.ltb b a) eqn:E; [|reflexivity].
  exfalso. apply (str_lt_irrefl a). apply (str_lt_trans a b a); assumption.
Qed.

Lemma str_compare_refl a : String.compare a a = Eq.
Proof.
  pose proof (String.compare_antisym a a) as H.
  destruct (String.compare a a); cbn in H; congruence.
Qed.

Lemma str_le_cases a b : str_le a b <-> str_lt a b \/ a = b.
Proof.
  unfold str_le, str_lt, String.ltb.
  pose proof (String.compare_antisym b a) as Ha.
  pose proof (String.compare_eq_iff a b) as He.
  destruct (String.compare a b) eqn:E; rewrite Ha; cbn.
  - intuition.
  - intuition.
  - split; [discriminate|]. intros [H | H]; [discriminate|].
    subst b. rewrite str_compare_refl in E. discriminate.
Qed.

Lemma str_le_trans a b c : str_le a b -> str_le b c -> str_le a c.
Proof.
  rewrite !str_le_cases. intros [H1 | ->] [H2 | ->]; auto.
  left. apply (str_lt_trans a b c); assumption.
Qed.

Section SortBy.

Variable A : Type.
Variable ltb : A -> A -> bool.

Hypothesis ltb_asym : forall a b, ltb a b = true -> ltb b a = false.
Hypothesis le_trans : forall a b c, le_of ltb a b -> le_of ltb b c -> le_of ltb a c.

Lemma insert_by_perm x l : Permutation (insert_by ltb x l) (x :: l).
Proof.
  induction l as [|y t IH]; cbn; [reflexivity|].
  destruct (ltb y x); [|reflexivity].
  rewrite IH. apply perm_swap.
Qed.

Lemma sort_by_perm l : Permutation (sort_by ltb l) l.
Proof.
  induction l as [|x t IH]; cbn; [reflexivity|].
  rewrite insert_by_perm. constructor. exact IH.
Qed.

Lemma insert_by_hd x l y :
  HdRel (le_of ltb) y l -> le_of ltb y x -> HdRel (le_of ltb) y (insert_by ltb x l).
Proof.
  intros Hl Hx. destruct l as [|z t]; cbn.
  - constructor. exact Hx.
  - destruct (ltb z x); constructor; [inversion Hl; assumption | exact Hx].
Qed.

Lemma insert_by_sorted x l :
  Sorted (le_of ltb) l -> Sorted (le_of ltb) (insert_by ltb x l).
Proof.
  induction 1 as [|y t Ht IH Hhd]; cbn.
  - repeat constructor.
  - destruct (ltb y x) eqn:E.
    + constructor; [exact IH|].
      apply insert_by_hd; [exact Hhd | apply ltb_asym; exact E].
    + constructor; [constructor; assumption|]. constructor. exact E.
Qed.

Lemma sort_by_sorted l : Sorted (le_of ltb) (sort_by ltb l).
Proof.
  induction l as [|x t IH]; cbn; [constructor|].
  apply insert_by_sorted. exact IH.
Qed.

Lemma sort_by_strongly_sorted l : StronglySorted (le_of ltb) (sort_by ltb l).
Proof.
  apply Sorted_StronglySorted; [|apply sort_by_sorted].
  intros a b c. apply le_trans.
Qed.

Lemma le_of_refl a : le_of ltb a a.
Proof.
  unfold le_of. destruct (ltb a a) eqn:E; [|reflexivity].
  pose proof (ltb_asym _ _ E). congruence.
Qed.

Lemma strongly_sorted_last l x :
  StronglySorted (le_of ltb) (l ++ [x]) -> Forall (fun a => le_of ltb a x) (l ++ [x]).
Proof.
  induction l as [|y t IH]; cbn; intros H.
  - constructor; [apply le_of_refl | constructor].
  - inversion H as [|? ? Ht Hy]; subst. constructor; [|apply IH; exact Ht].
    apply (proj1 (Forall_forall _ _) Hy). apply in_or_app. right. left. reflexivity.
Qed.

(** The first element of the reversed sorted list is a largest element. *)
Lemma rev_sort_head l :
  match rev (sort_by ltb l) with
  | [] => l = []
  | mx :: _ => In mx l /\ forall a, In a l -> le_of ltb a mx
  end.
Proof.
  pose proof (sort_by_perm l) as Hp.
  pose proof (sort_by_strongly_sorted l) as Hs.
  destruct (rev (sort_by ltb l)) as [|mx r] eqn:E.
  - apply (f_equal (@rev A)) in E. rewrite rev_involutive in E. cbn in E.
    rewrite E in Hp. apply Permutation_nil. exact Hp.
  - apply (f_equal (@rev A)) in E. rewrite rev_involutive in E. cbn in E.
    rewrite E in Hp, Hs. split.
    + apply (Permutation_in _ Hp). apply in_or_app. right. left. reflexivity.
    + intros a Ha. apply strongly_sorted_last in Hs.
      apply (proj1 (Forall_forall _ _) Hs).
      apply (Permutation_in _ (Permutation_sym Hp)). exact Ha.
Qed.

End SortBy.

(** ** [get_close_matches] *)

Section CloseMatchFacts.

Variable ratio : string -> string -> Q.

Lemma Qltb_lt x y : Difflib.Qltb x y = true <-> x < y.
Proof.
  unfold Difflib.Qltb. rewrite negb_true_iff. split.
  - intros H. apply Qnot_le_lt. intros Hle.
    apply Qle_bool_iff in Hle. congruence.
  - intros H. destruct (Qle_bool y x) eqn:E; [|reflexivity].
    apply Qle_bool_iff in E. exfalso. apply (Qlt_not_le _ _ H E).
Qed.

Lemma tuple_ltb_true p q :
  Difflib.tuple_ltb p q = true <->
  fst p < fst q \/ (fst p == fst q /\ str_lt (snd p) (snd q)).
Proof.
  unfold Difflib.tuple_ltb.
  destruct (Qeq_bool (fst p) (fst q)) eqn:E.
  - apply Qeq_bool_iff in E. split.
    + intros H. right. split; assumption.
    + intros [H | [_ H]]; [|exact H].
      exfalso. rewrite E in H. apply (Qlt_irrefl _ H).
  - apply Qeq_bool_neq in E. rewrite Qltb_lt. split.
    + intros H. left. exact H.
    + intros [H | [H _]]; [exact H | contradiction].
Qed.

Lemma tuple_ltb_false p q :
  Difflib.tuple_ltb q p = false <->
  fst p < fst q \/ (fst p == fst q /\ str_le (snd p) (snd q)).
Proof.
  unfold Difflib.tuple_ltb.
  destruct (Qeq_bool (fst q) (fst p)) eqn:E.
  - apply Qeq_bool_iff in E. split.
    + intros H. right. split; [symmetry; exact E | exact H].
    + intros [H | [_ H]]; [|exact H].
      exfalso. rewrite E in H. apply (Qlt_irrefl _ H).
  - apply Qeq_bool_neq in E. unfold Difflib.Qltb. rewrite negb_false_iff.
    rewrite Qle_bool_iff, Qle_lteq. split.
    + intros [H | H]; [left; exact H | exfalso; apply E; symmetry; exact H].
    + intros [H | [H _]]; [left; exact H | right; exact H].
Qed.

Lemma tuple_asym p q :
  Difflib.tuple_ltb p q = true -> Difflib.tuple_ltb q p = false.
Proof.
  rewrite tuple_ltb_true, tuple_ltb_false.
  intros [H | [H1 H2]]; [left; exact H|].
  right. split; [exact H1 | apply str_lt_asym; exact H2].
Qed.

Lemma tuple_le_trans p q r :
  le_of Difflib.tuple_ltb p q -> le_of Difflib.tuple_ltb q r ->
  le_of Difflib.tuple_ltb p r.
Proof.
  unfold le_of. rewrite !tuple_ltb_false.
  intros [H1 | [H1 H1']] [H2 | [H2 H2']].
  - left. apply (Qlt_trans _ _ _ H1 H2).
  - left. rewrite <- H2. exact H1.
  - left. rewrite H1. exact H2.
  - right. split; [rewrite H1; exact H2 | apply (str_le_trans _ _ _ H1' H2')].
Qed.

Lemma in_close_candidates word poss cutoff p :
  In p (Difflib.close_candidates ratio word poss cutoff) <->
  exists x, In x poss /\ cutoff <= ratio x word /\ p = (ratio x word, x).
Proof.
  unfold Difflib.close_candidates. rewrite in_map_iff. split.
  - intros (x & <- & Hx). apply filter_In in Hx as [Hx Hc].
    apply Qle_bool_iff in Hc. exists x. auto.
  - intros (x & Hx & Hc & ->). exists x. split; [reflexivity|].
    apply filter_In. split; [exact Hx | apply Qle_bool_iff; exact Hc].
Qed.

Lemma get_close_matches_one word poss cutoff r :
  Difflib.get_close_matches ratio word poss 1 cutoff = Some r ->
  0 <= cutoff <= 1
  /\ match r with
     | [] => forall x, In x poss -> ~ cutoff <= ratio x word
     | m :: r' => r' = [] /\ best_match ratio word poss cutoff m
     end.
Proof.
  unfold Difflib.get_close_matches. cbn [Nat.ltb Nat.leb negb].
  destruct (Qle_bool 0 cutoff && Qle_bool cutoff 1) eqn:Ec; cbn [negb];
    [|discriminate].
  apply andb_true_iff in Ec as [E0 E1].
  apply Qle_bool_iff in E0. apply Qle_bool_iff in E1.
  intros E. injection E as <-. split; [split; assumption|].
  unfold Difflib.nlargest, Difflib.sorted_reverse.
  pose proof (rev_sort_head _ Difflib.tuple_ltb tuple_asym tuple_le_trans
                (rev (Difflib.close_candidates ratio word poss cutoff))) as H.
  destruct (rev (sort_by Difflib.tuple_ltb
                   (rev (Difflib.close_candidates ratio word poss cutoff))))
    as [|mx rest].
  - cbn. intros x Hx Hc.
    assert (Hin : In (ratio x word, x)
                     (rev (Difflib.close_candidates ratio word poss cutoff))).
    { apply -> in_rev. apply in_close_candidates. exists x. auto. }
    rewrite H in Hin. exact Hin.
  - cbn. split; [reflexivity|]. destruct H as [Hin Hmax].
    apply in_rev, in_close_candidates in Hin as (m & Hm & Hc & ->).
    cbn [snd]. split; [exact Hm|]. split; [exact Hc|].
    intros x Hx Hcx.
    assert (Hle : le_of Difflib.tuple_ltb (ratio x word, x) (ratio m word, m)).
    { apply Hmax. apply -> in_rev. apply in_close_candidates. exists x. auto. }
    unfold le_of in Hle. apply tuple_ltb_false in Hle. exact Hle.
Qed.

Lemma get_close_matches_valid word poss cutoff :
  0 <= cutoff <= 1 ->
  exists r, Difflib.get_close_matches ratio word poss 1 cutoff = Some r.
Proof.
  intros [H0 H1]. unfold Difflib.get_close_matches. cbn [Nat.ltb Nat.leb negb].
  apply Qle_bool_iff in H0. apply Qle_bool_iff in H1. rewrite H0, H1. cbn.
  eexists. reflexivity.
Qed.

End CloseMatchFacts.

(** ** Strings and [splitext] *)

Section StrFacts.
Import Str.
Local Open Scope string_scope.

Lemma length_app s t : String.length (s ++ t) = (String.length s + String.length t)%nat.
Proof. induction s as [|c s IH]; cbn; [reflexivity | rewrite IH; reflexivity]. Qed.

Lemma substring_app_l s t :
  String.substring 0 (String.length s) (s ++ t) = s.
Proof.
  induction s as [|c s IH]; cbn.
  - destruct t; reflexivity.
  - rewrite IH. reflexivity.
Qed.

Lemma substring_all s : String.substring 0 (String.length s) s = s.
Proof. induction s as [|c s IH]; cbn; [reflexivity | rewrite IH; reflexivity]. Qed.

Lemma substring_app_r s t :
  String.substring (String.length s) (String.length t) (s ++ t) = t.
Proof.
  induction s as [|c s IH]; cbn; [apply substring_all | exact IH].
Qed.

Lemma substring_split k s :
  (k <= String.length s)%nat ->
  s = String.substring 0 k s ++ String.substring k (String.length s - k) s.
Proof.
  revert k. induction s as [|c s IH]; intros [|k] H; cbn in *; try lia.
  - reflexivity.
  - rewrite substring_all. reflexivity.
  - rewrite <- (IH k) by lia. reflexivity.
Qed.

Lemma substring_length k m s :
  (k + m <= String.length s)%nat -> String.length (String.substring k m s) = m.
Proof.
  revert k m. induction s as [|c s IH]; intros [|k] [|m] H; cbn in *;
    try lia; try reflexivity.
  - rewrite (IH 0%nat m) by lia. reflexivity.
  - apply IH. lia.
  - apply IH. lia.
Qed.

Lemma lower_length s : String.length (lower s) = String.length s.
Proof. induction s as [|c s IH]; cbn; [reflexivity | rewrite IH; reflexivity]. Qed.

Lemma lower_substring k m s :
  lower (String.substring k m s) = String.substring k m (lower s).
Proof.
  revert k m. induction s as [|c s IH]; intros [|k] [|m]; cbn;
    try reflexivity.
  - rewrite IH. reflexivity.
  - apply IH.
  - apply IH.
Qed.

Lemma get_app_l s t k :
  (k < String.length s)%nat -> String.get k (s ++ t) = String.get k s.
Proof.
  revert k. induction s as [|c s IH]; intros k H; cbn in *; [lia|].
  destruct k as [|k]; [reflexivity | apply IH; lia].
Qed.

Lemma get_app_r s t k :
  String.get (String.length s + k) (s ++ t) = String.get k t.
Proof. induction s as [|c s IH]; cbn; [reflexivity | exact IH]. Qed.

(** *** [rfind] *)

Lemma rfind_from_app c s t k last :
  rfind_from c (s ++ t) k last
  = rfind_from c t (k + Z.of_nat (String.length s)) (rfind_from c s k last).
Proof.
  revert k last. induction s as [|x s IH]; intros k last; cbn [append rfind_from String.length].
  - f_equal. lia.
  - rewrite IH. f_equal. lia.
Qed.

Lemma rfind_from_lacks c s k last : lacks c s -> rfind_from c s k last = last.
Proof.
  revert k last. induction s as [|x s IH]; intros k last H; cbn in *; [reflexivity|].
  destruct H as [E H]. rewrite E. apply IH. exact H.
Qed.

Lemma rfind_from_bounds c s k last :
  (last < k)%Z ->
  (last <= rfind_from c s k last < k + Z.of_nat (String.length s))%Z.
Proof.
  revert k last. induction s as [|x s IH]; intros k last H; cbn [rfind_from String.length].
  - lia.
  - destruct (Ascii.eqb x c).
    + specialize (IH (k + 1)%Z k). lia.
    + specialize (IH (k + 1)%Z last). lia.
Qed.

Lemma rfind_bounds c s : (-1 <= rfind c s < Z.of_nat (String.length s))%Z.
Proof. unfold rfind. pose proof (rfind_from_bounds c s 0 (-1)). lia. Qed.

Lemma rfind_app_lacks c s t : lacks c t -> rfind c (s ++ t) = rfind c s.
Proof.
  intros H. unfold rfind. rewrite rfind_from_app. apply rfind_from_lacks. exact H.
Qed.

Lemma rfind_app_last c s t :
  lacks c t -> rfind c (s ++ String c t) = Z.of_nat (String.length s).
Proof.
  intros H. unfold rfind. rewrite rfind_from_app. cbn [rfind_from].
  rewrite Ascii.eqb_refl. rewrite rfind_from_lacks by exact H. lia.
Qed.

(** *** The leading-dots loop *)

Lemma has_name_char_app s t k n :
  (k + n <= String.length s)%nat ->
  has_name_char (s ++ t) k n = has_name_char s k n.
Proof.
  revert k. induction n as [|n IH]; intros k H; cbn; [reflexivity|].
  rewrite get_app_l by lia. destruct (String.get k s); [|reflexivity].
  destruct (Ascii.eqb a "."); [apply IH; lia | reflexivity].
Qed.

Lemma has_name_char_at p k n j c :
  (k <= j < k + n)%nat -> String.get j p = Some c -> Ascii.eqb c "." = false ->
  has_name_char p k n = true.
Proof.
  revert k. induction n as [|n IH]; intros k H Hg Hc; cbn; [lia|].
  destruct (String.get k p) as [a|] eqn:Ek; [|reflexivity].
  destruct (Ascii.eqb a ".") eqn:Ea; [|reflexivity].
  apply IH; [|exact Hg | exact Hc].
  destruct (Nat.eq_dec j k) as [->|Hne]; [|lia].
  congruence.
Qed.

(** *** [splitext] on a name that ends in an extension *)

Lemma splitext_ext st e :
  lacks "." e -> lacks "/" e ->
  splitext (st ++ String "." e)
  = if named st then (st, String "." e) else (st ++ String "." e, "").
Proof.
  intros Hd Hs. unfold splitext, named.
  rewrite (rfind_app_last "." st e Hd).
  rewrite (rfind_app_lacks "/" st (String "." e)) by (cbn; auto).
  pose proof (rfind_bounds "/" st) as Hb.
  destruct (Z.ltb_spec (rfind "/" st) (Z.of_nat (String.length st))); [|lia].
  rewrite Nat2Z.id.
  rewrite has_name_char_app by lia.
  destruct (has_name_char st _ _); [|reflexivity].
  rewrite substring_app_l. f_equal.
  rewrite length_app.
  replace (String.length st + String.length (String "." e) - String.length st)%nat
    with (String.length (String "." e)) by lia.
  apply substring_app_r.
Qed.

End StrFacts.

Section PcdNames.
Import Str.
Local Open Scope string_scope.

Lemma lower_char_dot x : lower_char x = "."%char -> x = "."%char.
Proof.
  destruct x as [[] [] [] [] [] [] [] []]; intros H; vm_compute in H;
    try discriminate H; reflexivity.
Qed.

Lemma lower_char_fixes_marks x :
  x = "."%char \/ x = "/"%char -> lower_char x = x.
Proof. intros [-> | ->]; reflexivity. Qed.

Lemma lower_char_letter x y :
  lower_char x = y -> y <> "."%char -> y <> "/"%char ->
  Ascii.eqb x "." = false /\ Ascii.eqb x "/" = false.
Proof.
  intros H Hd Hs. split.
  - destruct (Ascii.eqb_spec x "."%char) as [->|]; [|reflexivity].
    rewrite lower_char_fixes_marks in H by auto. congruence.
  - destruct (Ascii.eqb_spec x "/"%char) as [->|]; [|reflexivity].
    rewrite lower_char_fixes_marks in H by auto. congruence.
Qed.

(** A name accepted by the filter [f.lower().endswith('.pcd')] is a root
    followed by a dot and three characters that are neither dots nor
    separators. *)
Lemma pcd_name_split f :
  endswith (lower f) ".pcd" = true ->
  exists st e c,
    f = st ++ String "." e /\ lacks "." e /\ lacks "/" e
    /\ String.get 0 e = Some c /\ Ascii.eqb c "." = false
    /\ lower (String "." e) = ".pcd".
Proof.
  unfold endswith. rewrite lower_length. cbn [String.length].
  intros H. apply andb_true_iff in H as [Hn He].
  apply Nat.leb_le in Hn. apply String.eqb_eq in He.
  rewrite <- lower_substring in He.
  set (n := String.length f) in *.
  assert (Hl : String.length (String.substring (n - 4) 4 f) = 4%nat)
    by (apply substring_length; unfold n; lia).
  pose proof (substring_split (n - 4) f ltac:(unfold n; lia)) as Hsplit.
  fold n in Hsplit. replace (n - (n - 4))%nat with 4%nat in Hsplit by lia.
  destruct (String.substring (n - 4) 4 f) as [|a [|b [|c [|d [|]]]]];
    cbn in Hl; try discriminate Hl.
  cbn in He. injection He as Ha Hb Hc Hd.
  apply lower_char_dot in Ha. subst a.
  destruct (lower_char_letter b _ Hb ltac:(discriminate) ltac:(discriminate)).
  destruct (lower_char_letter c _ Hc ltac:(discriminate) ltac:(discriminate)).
  destruct (lower_char_letter d _ Hd ltac:(discriminate) ltac:(discriminate)).
  exists (String.substring 0 (n - 4) f), (String b (String c (String d ""))), b.
  split; [exact Hsplit|]. cbn. rewrite Hb, Hc, Hd. auto 10.
Qed.

Lemma splitext_join p : fst (splitext p) ++ snd (splitext p) = p.
Proof.
  unfold splitext. pose proof (rfind_bounds "." p) as Hb.
  destruct (Z.ltb_spec (rfind "/" p) (rfind "." p)); cbn [fst snd].
  - destruct (has_name_char p _ _); cbn [fst snd].
    + symmetry. apply substring_split. lia.
    + clear. induction p as [|c p IH]; cbn; [reflexivity | rewrite IH; reflexivity].
  - clear. induction p as [|c p IH]; cbn; [reflexivity | rewrite IH; reflexivity].
Qed.

(** Appending [".pcd"] to the stem of a point-cloud file name gives a name
    whose stem is that stem again. *)
Lemma stem_pcd f :
  endswith (lower f) ".pcd" = true ->
  splitext (stem f ++ ".pcd") = (stem f, ".pcd").
Proof.
  intros H.
  destruct (pcd_name_split f H) as (st & e & c & -> & Hd & Hs & Hg & Hc & _).
  unfold stem. rewrite (splitext_ext st e Hd Hs).
  destruct (named st) eqn:En; cbn [fst].
  - rewrite (splitext_ext st "pcd") by (cbn; auto). rewrite En. reflexivity.
  - rewrite (splitext_ext (st ++ String "." e) "pcd") by (cbn; auto).
    assert (Hn : named (st ++ String "." e) = true).
    { unfold named.
      rewrite (rfind_app_lacks "/" st (String "." e)) by (cbn; auto).
      pose proof (rfind_bounds "/" st) as Hb.
      apply (has_name_char_at _ _ _ (String.length st + 1) c).
      - rewrite length_app. cbn [String.length].
        destruct e; [discriminate Hg|]. cbn [String.length]. lia.
      - rewrite get_app_r. cbn. exact Hg.
      - exact Hc. }
    rewrite Hn. reflexivity.
Qed.

Lemma stem_pcd_exact f :
  snd (splitext f) = ".pcd" -> stem f ++ ".pcd" = f.
Proof. intros H. unfold stem. rewrite <- H. apply splitext_join. Qed.

End PcdNames.

(** ** Reconciliation *)

Section ReconcilerFacts.
Local Open Scope string_scope.

Variable ratio : string -> string -> Q.

Lemma new_files_unmatched basenames cutoff data :
  Exists (unmatched ratio basenames cutoff) data ->
  exists e, new_files ratio basenames cutoff data = inl e.
Proof.
  induction data as [|rec rest IH]; intros H; [inversion H|].
  cbn [new_files].
  destruct (Difflib.get_close_matches ratio (Str.stem (get_File rec)) basenames
              1 cutoff) as [[|m r]|] eqn:E; try (eexists; reflexivity).
  apply get_close_matches_one in E as [_ [_ (Hm & Hc & _)]].
  inversion H as [? ? Hrec | ? ? Hrest]; subst.
  - exfalso. apply (Hrec m Hm Hc).
  - destruct (IH Hrest) as [e ->]. eexists; reflexivity.
Qed.

Lemma new_files_matched basenames cutoff data fs :
  new_files ratio basenames cutoff data = inr fs ->
  exists ms,
    fs = map (fun m => m ++ ".pcd") ms
    /\ Forall2 (fun rec m =>
                  best_match ratio (Str.stem (get_File rec)) basenames cutoff m)
               data ms.
Proof.
  revert fs. induction data as [|rec rest IH]; intros fs; cbn [new_files].
  - intros E. injection E as <-. exists []. split; [reflexivity | constructor].
  - destruct (Difflib.get_close_matches ratio (Str.stem (get_File rec)) basenames
                1 cutoff) as [[|m r]|] eqn:E; try discriminate.
    apply get_close_matches_one in E as [_ [_ Hbest]].
    destruct (new_files ratio basenames cutoff rest) as [e|fs'];
      [discriminate|].
    intros E'. injection E' as <-.
    destruct (IH fs' eq_refl) as (ms & -> & Hms).
    exists (m :: ms). split; [reflexivity | constructor; assumption].
Qed.

Lemma new_files_total basenames cutoff data :
  0 <= cutoff <= 1 ->
  Forall (fun rec => ~ unmatched ratio basenames cutoff rec) data ->
  exists fs, new_files ratio basenames cutoff data = inr fs.
Proof.
  intros Hc. induction 1 as [|rec rest Hrec Hrest IH]; cbn [new_files].
  - eexists; reflexivity.
  - destruct (get_close_matches_valid ratio (Str.stem (get_File rec)) basenames
                cutoff Hc) as [r Er].
    rewrite Er. destruct r as [|m r].
    + exfalso. apply Hrec. apply get_close_matches_one in Er as [_ Hno].
      exact Hno.
    + destruct IH as [fs ->]. eexists; reflexivity.
Qed.

Lemma sort_records_sorted data : StronglySorted key_le (sort_records data).
Proof.
  apply (sort_by_strongly_sorted Rec key_ltb).
  - intros a b H. apply (str_lt_asym _ _ H).
  - intros a b c. apply str_le_trans.
Qed.

Lemma sort_records_perm data : Permutation (sort_records data) data.
Proof. apply sort_by_perm. Qed.

Lemma in_rewrite_files data ms r :
  In r (rewrite_files data (map (fun m => m ++ ".pcd") ms)) ->
  exists rec m,
    In rec data /\ In m ms /\ r = mkRec (Some (m ++ ".pcd")) (Labels rec).
Proof.
  unfold rewrite_files. rewrite in_map_iff.
  intros ([rec f] & <- & Hin). pose proof (in_combine_l _ _ _ _ Hin) as Hl.
  apply in_combine_r, in_map_iff in Hin as (m & <- & Hm).
  exists rec, m. auto.
Qed.

End ReconcilerFacts.

(** C2.  When the number of records differs from the number of
    point-cloud files, or some record has no candidate stem whose
    similarity reaches the cutoff, the run does not end with "Sync
    complete" and the stored file holds exactly the records it held: no
    [File] field is rewritten and nothing is reordered.  In the first case
    the run ends with the count warning. *)
Theorem sync_abort_leaves_file
    (ratio : string -> string -> Q) (stored : list Rec)
    (listing : list string) (cutoff : Q) :
  List.length stored <> List.length (pcd_files listing)
  \/ Exists (unmatched ratio (map Str.stem (pcd_files listing)) cutoff) stored ->
  let run := sync_json_pcd_filenames ratio stored listing cutoff in
  snd run = stored
  /\ fst run <> SyncComplete
  /\ (List.length stored <> List.length (pcd_files listing) ->
      fst run = CountMismatch (List.length stored)
                  (List.length (pcd_files listing))).
Proof.
  intros H. cbv zeta. unfold sync_json_pcd_filenames.
  destruct (Nat.eqb_spec (List.length stored) (List.length (pcd_files listing)))
    as [Heq | Hne]; cbn [negb].
  - destruct H as [H | H]; [contradiction|].
    destruct (new_files_unmatched ratio _ _ _ H) as [e He].
    rewrite He. cbn [fst snd]. split; [reflexivity|].
    split; [|intros Hc; contradiction].
    intros ->.
    clear - He. revert He.
    induction stored as [|rec rest IH]; cbn [new_files]; [discriminate|].
    destruct (Difflib.get_close_matches _ _ _ _ _) as [[|m r]|];
      try discriminate.
    destruct (new_files ratio _ cutoff rest) as [e|fs]; [|discriminate].
    intros E. injection E as ->. apply IH. reflexivity.
  - cbn [fst snd]. split; [reflexivity|]. split; [discriminate | reflexivity].
Qed.

Lemma sync_abort_leaves_file_witness :
  snd (sync_json_pcd_filenames Difflib.ratio
         [file_rec "scan_b.json"; file_rec "zzz"]%string
         ["scan_a.PCD"; "notes.txt"; "scan_b.pcd"]%string default_cutoff)
  = [file_rec "scan_b.json"; file_rec "zzz"]%string.
Proof.
  refine (proj1 (sync_abort_leaves_file Difflib.ratio
            [file_rec "scan_b.json"; file_rec "zzz"]%string
            ["scan_a.PCD"; "notes.txt"; "scan_b.pcd"]%string default_cutoff _)).
  right. apply Exists_cons_tl, Exists_cons_hd.
  intros x [<- | [<- | []]]; apply Qlt_not_le; reflexivity.
Defined.

(** C3 (amended).  With as many records as point-cloud files, a cutoff in
    [[0, 1]] and, for every record, a candidate stem that reaches the
    cutoff, the run ends with "Sync complete".  Each record's [File] then
    is its best-matching stem followed by [".pcd"]; that is the matched
    file's own name whenever that name's extension is spelled [".pcd"].
    The stored records are those rewritten records, sorted ascending by
    stem, and the stem of each rewritten name is the matched stem.  In
    particular, when every record's stem is among the files' stems and
    scores [1] against itself and less against the others, each record
    keeps its stem; [ratio_exact_on] shows that the executable ratio
    scores so on names shorter than 200 characters. *)
Theorem sync_rewrites_and_sorts
    (ratio : string -> string -> Q) (stored : list Rec)
    (listing : list string) (cutoff : Q) :
  let pcds := pcd_files listing in
  let basenames := map Str.stem pcds in
  List.length stored = List.length pcds ->
  0 <= cutoff <= 1 ->
  Forall (fun rec => ~ unmatched ratio basenames cutoff rec) stored ->
  exists ms out,
    sync_json_pcd_filenames ratio stored listing cutoff = (SyncComplete, out)
    /\ Forall2 (fun rec m =>
                  best_match ratio (Str.stem (get_File rec)) basenames cutoff m)
               stored ms
    /\ Permutation out
         (rewrite_files stored (map (fun m => (m ++ ".pcd")%string) ms))
    /\ StronglySorted key_le out
    /\ Forall (fun r =>
         exists f, In f pcds
           /\ File r = Some (Str.stem f ++ ".pcd")%string
           /\ sort_key r = Str.stem f
           /\ (snd (Str.splitext f) = ".pcd"%string -> File r = Some f)) out
    /\ (Forall (fun rec =>
          In (Str.stem (get_File rec)) basenames
          /\ exact_on ratio basenames (Str.stem (get_File rec))) stored ->
        ms = map (fun rec => Str.stem (get_File rec)) stored).
Proof.
  intros pcds basenames Hlen Hcut Hall.
  destruct (new_files_total ratio basenames cutoff stored Hcut Hall) as [fs Hfs].
  destruct (new_files_matched ratio basenames cutoff stored fs Hfs)
    as (ms & -> & Hms).
  exists ms, (sort_records (rewrite_files stored (map (fun m => (m ++ ".pcd")%string) ms))).
  split.
  { unfold sync_json_pcd_filenames. fold pcds. fold basenames.
    rewrite Hlen, Nat.eqb_refl. cbn [negb]. rewrite Hfs. reflexivity. }
  split; [exact Hms|].
  split; [apply sort_records_perm|].
  split; [apply sort_records_sorted|].
  split.
  { apply Forall_forall. intros r Hr.
    apply (Permutation_in _ (sort_records_perm _)) in Hr.
    apply in_rewrite_files in Hr as (rec & m & Hrec & Hm & ->).
    assert (Hb : In m basenames).
    { clear - Hms Hm. induction Hms as [|rec' m' ? ? Hbest _ IH]; [contradiction|].
      destruct Hm as [<- | Hm]; [apply Hbest | apply IH, Hm]. }
    apply in_map_iff in Hb as (f & <- & Hf).
    exists f. split; [exact Hf|]. split; [reflexivity|].
    assert (Hpcd : Str.endswith (Str.lower f) ".pcd" = true).
    { unfold pcds, pcd_files in Hf. apply filter_In in Hf. apply Hf. }
    split.
    - unfold sort_key, get_File. cbn [File]. unfold Str.stem at 1.
      rewrite (stem_pcd f Hpcd). reflexivity.
    - intros Hext. cbn [File]. rewrite (stem_pcd_exact f Hext). reflexivity. }
  intros Hexact. clear - Hms Hexact Hcut.
  induction Hms as [|rec m recs ms' Hbest _ IH]; [reflexivity|].
  apply Forall_cons_iff in Hexact as [[Hin [Hself Hother]] Hrest].
  cbn [map]. f_equal; [|apply IH, Hrest].
  destruct Hbest as (Hm & Hc & Hmax).
  destruct (string_dec m (Str.stem (get_File rec))) as [E | Hne]; [exact E|].
  exfalso. specialize (Hother m Hm Hne).
  assert (Hcb : cutoff <= ratio (Str.stem (get_File rec)) (Str.stem (get_File rec))).
  { rewrite Hself. apply Hcut. }
  destruct (Hmax _ Hin Hcb) as [Hlt | [Heq _]].
  - rewrite Hself in Hlt. apply (Qlt_irrefl 1). apply (Qlt_trans _ _ _ Hlt Hother).
  - rewrite Hself in Heq. rewrite <- Heq in Hother. apply (Qlt_irrefl _ Hother).
Qed.

Lemma sync_rewrites_and_sorts_witness :
  exists ms out,
    sync_json_pcd_filenames Difflib.ratio
      [file_rec "scan_b.json"; file_rec "scan_a"]%string
      ["scan_a.PCD"; "notes.txt"; "scan_b.pcd"]%string default_cutoff
    = (SyncComplete, out)
    /\ StronglySorted key_le out
    /\ ms = ["scan_b"; "scan_a"]%string.
Proof.
  destruct (sync_rewrites_and_sorts Difflib.ratio
              [file_rec "scan_b.json"; file_rec "scan_a"]%string
              ["scan_a.PCD"; "notes.txt"; "scan_b.pcd"]%string default_cutoff)
    as (ms & out & E & _ & _ & Hs & _ & Hround).
  - reflexivity.
  - split; vm_compute; discriminate.
  - repeat constructor.
    + intros H. apply (H "scan_b"%string); [vm_compute; auto|].
      vm_compute; discriminate.
    + intros H. apply (H "scan_a"%string); [vm_compute; auto|].
      vm_compute; discriminate.
  - exists ms, out. split; [exact E|]. split; [exact Hs|].
    apply Hround. repeat constructor; try (vm_compute; auto; fail);
      intros x [<- | [<- | []]] Hx; try (exfalso; apply Hx; reflexivity);
      reflexivity.
Defined.

(** C3 as stated fails: the file is matched, but the name written is the
    stem with a lower-case [".pcd"], which is not the name of the matched
    file [scan_a.PCD]. *)
Lemma sync_matched_name_counterexample :
  let run :=
    sync_json_pcd_filenames Difflib.ratio [file_rec "scan_a"]%string
      ["scan_a.PCD"]%string default_cutoff in
  fst run = SyncComplete
  /\ snd run = [file_rec "scan_a.pcd"]%string
  /\ ~ (forall r, In r (snd run) ->
          exists f, In f ["scan_a.PCD"]%string /\ File r = Some f).
Proof.
  cbv zeta. split; [reflexivity|]. split; [reflexivity|].
  intros H.
  destruct (H (file_rec "scan_a.pcd")) as (f & [<- | []] & Hf).
  - vm_compute. left. reflexivity.
  - discriminate Hf.
Qed.

(** ** The per-frame lookup *)

Lemma find_split {A} (p : A -> bool) l f :
  find p l = Some f ->
  exists l1 l2,
    l = l1 ++ f :: l2 /\ p f = true /\ forall g, In g l1 -> p g = false.
Proof.
  induction l as [|x l IH]; cbn [find]; [discriminate|].
  destruct (p x) eqn:Ex.
  - intros E. injection E as ->. exists [], l.
    repeat split; [exact Ex | intros g []].
  - intros E. destruct (IH E) as (l1 & l2 & -> & Hp & Hl1).
    exists (x :: l1), l2. repeat split; [exact Hp|].
    intros g [<- | Hg]; auto.
Qed.

(** C9 (amended).  [_find_pcd] leaves the editor's state, the store
    included, as it was.  It looks only at the directory entries whose name
    ends in a lower-case [".pcd"]: when one of them bears the prefix
    ["cloud_<stem>_"] the lookup returns such an entry, the first in
    listing order.  When none does, it returns the best match among those
    entries' stems with similarity at least [0.6], with [".pcd"] appended,
    and no file when no stem reaches [0.6]. *)
Theorem find_pcd_lookup
    (ratio : string -> string -> Q) (listdir : list string)
    (img : string) (ed : Editor) :
  let base := Str.stem img in
  let cands := filter (fun f => Str.endswith f ".pcd") listdir in
  let pref := ("cloud_" ++ base ++ "_")%string in
  let res := _find_pcd ratio listdir img ed in
  snd res = ed
  /\ ((exists g, In g cands /\ Str.startswith g pref = true) ->
      exists f l1 l2,
        fst res = Some (Some f)
        /\ Str.startswith f pref = true
        /\ cands = l1 ++ f :: l2
        /\ forall g, In g l1 -> Str.startswith g pref = false)
  /\ ((forall g, In g cands -> Str.startswith g pref = false) ->
      (forall x, In x (map Str.stem cands) ->
                 ~ default_cutoff <= ratio x base) /\ fst res = Some None
      \/ exists m,
           best_match ratio base (map Str.stem cands) default_cutoff m
           /\ fst res = Some (Some (m ++ ".pcd")%string)).
Proof.
  intros base cands pref res.
  split; [apply (keeps_find_pcd ratio listdir (fun e => e))|].
  unfold res, _find_pcd. fold base. fold cands. fold pref.
  split.
  - intros (g & Hg & Hp).
    destruct (find (fun f => Str.startswith f pref) cands) as [f|] eqn:Ef.
    + destruct (find_split _ _ _ Ef) as (l1 & l2 & Hc & Hpf & Hl1).
      exists f, l1, l2. repeat split; assumption.
    + exfalso. pose proof (find_none _ _ Ef g Hg) as Hn.
      cbv beta in Hn. rewrite Hp in Hn. discriminate Hn.
  - intros Hnone.
    assert (Ef : find (fun f => Str.startswith f pref) cands = None).
    { destruct (find (fun f => Str.startswith f pref) cands) as [f|] eqn:Ef;
        [|reflexivity].
      apply find_some in Ef as [Hin Hp]. rewrite (Hnone f Hin) in Hp.
      discriminate. }
    rewrite Ef.
    destruct (get_close_matches_valid ratio base (map Str.stem cands)
                default_cutoff) as [r Er].
    { split; vm_compute; discriminate. }
    unfold bind, lift. rewrite Er.
    apply get_close_matches_one in Er as [_ Hr].
    destruct r as [|m r].
    + left. split; [exact Hr | reflexivity].
    + right. exists m. destruct Hr as [_ Hbest]. split; [exact Hbest | reflexivity].
Qed.

Lemma find_pcd_lookup_witness :
  exists f,
    fst (_find_pcd Difflib.ratio
           ["cloud_scan7_001.pcd"; "scan7.pcd"]%string "scan7.png" demo_editor)
    = Some (Some f)
    /\ Str.startswith f "cloud_scan7_" = true.
Proof.
  destruct (proj1 (proj2 (find_pcd_lookup Difflib.ratio
              ["cloud_scan7_001.pcd"; "scan7.pcd"]%string "scan7.png"
              demo_editor)))
    as (f & l1 & l2 & E & Hp & _).
  - exists "cloud_scan7_001.pcd"%string. split; [left|]; reflexivity.
  - exists f. split; [exact E | exact Hp].
Defined.

(** C9 as stated fails: the directory holds a file that bears the prefix,
    [cloud_scan7_001.PCD], but its extension is in upper case, so the
    lookup passes it over and returns the fuzzy match, which does not bear
    the prefix. *)
Lemma find_pcd_prefix_counterexample :
  let listdir := ["cloud_scan7_001.PCD"; "scan7_b.pcd"]%string in
  let res := fst (_find_pcd Difflib.ratio listdir "scan7.png" demo_editor) in
  (exists g, In g listdir /\ Str.startswith g "cloud_scan7_" = true)
  /\ res = Some (Some "scan7_b.pcd"%string)
  /\ ~ (exists f, res = Some (Some f)
                  /\ Str.startswith f "cloud_scan7_" = true).
Proof.
  cbv zeta.
  assert (E : fst (_find_pcd Difflib.ratio
                     ["cloud_scan7_001.PCD"; "scan7_b.pcd"]%string
                     "scan7.png" demo_editor)
              = Some (Some "scan7_b.pcd"%string))
    by (vm_compute; reflexivity).
  split.
  - exists "cloud_scan7_001.PCD"%string. split; [left|]; reflexivity.
  - split; [exact E|].
    intros (f & Ef & Hp). rewrite E in Ef. injection Ef as <-.
    vm_compute in Hp. discriminate Hp.
Qed.

(** ** The executable ratio

    Two facts about [Difflib.ratio]: it is below [1] on distinct strings,
    and it is [1] on a string shorter than 200 characters against itself.
    They are what [exact_on] asks. *)

Lemma in_indices_from c l k0 j :
  In j (Difflib.indices_from c l k0) ->
  (k0 <= j)%nat /\ nth_error l (j - k0) = Some c.
Proof.
  revert k0. induction l as [|x l IH]; intros k0; cbn [Difflib.indices_from];
    [intros []|].
  destruct (Ascii.eqb_spec x c) as [->|Hne].
  - intros [<- | Hin].
    + rewrite Nat.sub_diag. split; [lia | reflexivity].
    + destruct (IH _ Hin) as [Hle Hn]. split; [lia|].
      replace (j - k0)%nat with (S (j - S k0)) by lia. exact Hn.
  - intros Hin. destruct (IH _ Hin) as [Hle Hn]. split; [lia|].
    replace (j - k0)%nat with (S (j - S k0)) by lia. exact Hn.
Qed.

Section LongestMatch.

Variables a b : list ascii.
Variables alo ahi blo bhi : nat.

Hypothesis a_window : (alo <= ahi <= List.length a)%nat.
Hypothesis b_window : (blo <= bhi <= List.length b)%nat.

Local Abbreviation blk := (block a b alo ahi blo bhi).
Local Abbreviation ent := (entry a b alo ahi blo bhi).
Local Abbreviation tbefore := (table_before a b alo ahi blo bhi).
Local Abbreviation tof := (table_of a b alo ahi blo bhi).

Lemma next_entry i j j2len :
  tbefore i j2len ->
  (alo <= i < ahi)%nat -> (blo <= j < bhi)%nat ->
  Difflib.same_at a b i j = true ->
  ent i j (next_len j2len j).
Proof.
  intros Ht Hi Hj Hs. unfold next_len.
  destruct j as [|j'].
  - split; [lia|]. intros t Ht'. replace t with 0%nat by lia.
    rewrite !Nat.sub_0_r. exact Hs.
  - destruct (Difflib.j2len_get j2len j') as [|k'] eqn:Ek.
    + split; [lia|]. intros t Ht'. replace t with 0%nat by lia.
      rewrite !Nat.sub_0_r. exact Hs.
    + destruct (Ht j') as [Hi1 [Hb Hsame]]; [rewrite Ek; lia|].
      rewrite Ek in Hb, Hsame. split; [lia|].
      intros [|t] Ht'.
      * rewrite !Nat.sub_0_r. exact Hs.
      * replace (i - S t)%nat with (i - 1 - t)%nat by lia.
        replace (S j' - S t)%nat with (j' - t)%nat by lia.
        apply Hsame. lia.
Qed.

Lemma entry_block i j k :
  ent i j k -> blk (i + 1 - k, j + 1 - k, k)%nat.
Proof.
  intros [Hb Hsame]. split; [lia|]. intros t Ht.
  replace (i + 1 - k + t)%nat with (i - (k - 1 - t))%nat by lia.
  replace (j + 1 - k + t)%nat with (j - (k - 1 - t))%nat by lia.
  apply Hsame. lia.
Qed.

Lemma table_of_cons i j k t :
  ent i j k -> tof i t -> tof i ((j, k) :: t).
Proof.
  intros He Ht j'. cbn [Difflib.j2len_get].
  destruct (Nat.eqb_spec j j') as [<-|]; [intros _; exact He | apply Ht].
Qed.

Lemma scan_js_sound i c js j2len newj2len best :
  nth_error a i = Some c ->
  (forall j, In j js -> nth_error b j = Some c) ->
  (alo <= i < ahi)%nat ->
  tbefore i j2len -> tof i newj2len -> blk best ->
  tof i (fst (Difflib.scan_js js blo bhi i j2len newj2len best))
  /\ blk (snd (Difflib.scan_js js blo bhi i j2len newj2len best)).
Proof.
  intros Ha Hjs Hi Hprev. revert newj2len best.
  induction js as [|j js IH]; intros newj2len best Hnew Hbest;
    cbn [Difflib.scan_js]; [auto|].
  assert (Hjs' : forall j', In j' js -> nth_error b j' = Some c)
    by (intros j' Hj'; apply Hjs; right; exact Hj').
  destruct (Nat.ltb_spec j blo); [apply IH; assumption|].
  destruct (Nat.leb_spec bhi j); [auto|].
  assert (Hsame : Difflib.same_at a b i j = true).
  { unfold Difflib.same_at. rewrite Ha, (Hjs j (or_introl eq_refl)).
    apply Ascii.eqb_refl. }
  pose proof (next_entry i j j2len Hprev Hi (conj H H0) Hsame) as He.
  fold (next_len j2len j).
  destruct best as [[bi bj] bk].
  apply IH; [exact Hjs' | apply table_of_cons; assumption |].
  destruct (Nat.ltb_spec bk (next_len j2len j)); [|exact Hbest].
  apply entry_block. exact He.
Qed.

Lemma in_b2j c j : In j (Difflib.b2j b c) -> nth_error b j = Some c.
Proof.
  unfold Difflib.b2j. destruct (Difflib.popular b c); [intros []|].
  intros H. apply in_indices_from in H as [_ H].
  rewrite Nat.sub_0_r in H. exact H.
Qed.

Lemma scan_is_sound cnt i j2len best :
  (alo <= i)%nat -> (i + cnt <= ahi)%nat ->
  tbefore i j2len -> blk best ->
  blk (Difflib.scan_is a b blo bhi cnt i j2len best).
Proof.
  revert i j2len best. induction cnt as [|cnt IH]; intros i j2len best Hlo Hhi Ht Hb;
    cbn [Difflib.scan_is]; [exact Hb|].
  destruct (nth_error a i) as [c|] eqn:Ea.
  - pose proof (scan_js_sound i c (Difflib.b2j b c) j2len [] best Ea
                  (in_b2j c) ltac:(lia) Ht
                  ltac:(intros j Hj; cbn in Hj; lia) Hb) as [Hn Hb'].
    destruct (Difflib.scan_js (Difflib.b2j b c) blo bhi i j2len [] best)
      as [newj2len best'].
    cbn [fst snd] in *. apply IH; try lia; [|exact Hb'].
    intros j Hj. split; [lia|].
    replace (S i - 1)%nat with i by lia. apply Hn. exact Hj.
  - apply nth_error_None in Ea. lia.
Qed.

Lemma extend_back_sound fuel m :
  blk m -> blk (Difflib.extend_back a b alo blo fuel m).
Proof.
  revert m. induction fuel as [|fuel IH]; intros [[i j] k] Hb;
    cbn [Difflib.extend_back]; [exact Hb|].
  destruct ((alo <? i)%nat && (blo <? j)%nat
            && Difflib.same_at a b (i - 1) (j - 1)) eqn:E; [|exact Hb].
  apply andb_true_iff in E as [E Hs]. apply andb_true_iff in E as [E1 E2].
  apply Nat.ltb_lt in E1. apply Nat.ltb_lt in E2.
  apply IH. destruct Hb as [Hb Hsame]. split; [lia|].
  intros [|t] Ht.
  - rewrite !Nat.add_0_r. exact Hs.
  - replace (i - 1 + S t)%nat with (i + t)%nat by lia.
    replace (j - 1 + S t)%nat with (j + t)%nat by lia.
    apply Hsame. lia.
Qed.

Lemma extend_fwd_sound fuel m :
  blk m -> blk (Difflib.extend_fwd a b ahi bhi fuel m).
Proof.
  revert m. induction fuel as [|fuel IH]; intros [[i j] k] Hb;
    cbn [Difflib.extend_fwd]; [exact Hb|].
  destruct ((i + k <? ahi)%nat && (j + k <? bhi)%nat
            && Difflib.same_at a b (i + k) (j + k)) eqn:E; [|exact Hb].
  apply andb_true_iff in E as [E Hs]. apply andb_true_iff in E as [E1 E2].
  apply Nat.ltb_lt in E1. apply Nat.ltb_lt in E2.
  apply IH. destruct Hb as [Hb Hsame]. split; [lia|].
  intros t Ht. destruct (Nat.eq_dec t k) as [->|]; [exact Hs|].
  apply Hsame. lia.
Qed.

Lemma find_longest_match_sound :
  blk (Difflib.find_longest_match a b alo ahi blo bhi).
Proof.
  unfold Difflib.find_longest_match.
  apply extend_fwd_sound, extend_back_sound, scan_is_sound; try lia.
  - intros j Hj. cbn in Hj. lia.
  - split; [lia|]. intros t Ht. lia.
Qed.

End LongestMatch.

Section Matches.

Variables a b : list ascii.

Lemma matches_bound fuel alo ahi blo bhi :
  (alo <= ahi <= List.length a)%nat -> (blo <= bhi <= List.length b)%nat ->
  (Difflib.matches a b fuel alo ahi blo bhi <= ahi - alo
   /\ Difflib.matches a b fuel alo ahi blo bhi <= bhi - blo)%nat.
Proof.
  revert alo ahi blo bhi. induction fuel as [|fuel IH];
    intros alo ahi blo bhi Ha Hb; cbn [Difflib.matches]; [lia|].
  pose proof (find_longest_match_sound a b alo ahi blo bhi Ha Hb) as Hblk.
  destruct (Difflib.find_longest_match a b alo ahi blo bhi) as [[i j] k].
  destruct Hblk as [Hw _].
  destruct (Nat.eqb_spec k 0); [lia|].
  assert (HL : ((if (alo <? i) && (blo <? j)
                 then Difflib.matches a b fuel alo i blo j else 0) <= i - alo
                /\ (if (alo <? i) && (blo <? j)
                    then Difflib.matches a b fuel alo i blo j else 0) <= j - blo)%nat).
  { destruct ((alo <? i) && (blo <? j))%nat; [apply IH; lia | lia]. }
  assert (HR : ((if (i + k <? ahi) && (j + k <? bhi)
                 then Difflib.matches a b fuel (i + k) ahi (j + k) bhi else 0)
                <= ahi - (i + k)
                /\ (if (i + k <? ahi) && (j + k <? bhi)
                    then Difflib.matches a b fuel (i + k) ahi (j + k) bhi else 0)
                   <= bhi - (j + k))%nat).
  { destruct ((i + k <? ahi) && (j + k <? bhi))%nat; [apply IH; lia | lia]. }
  lia.
Qed.

(** A window matched in full is the same on both sides. *)
Lemma matches_full fuel alo ahi blo bhi :
  (alo <= ahi <= List.length a)%nat -> (blo <= bhi <= List.length b)%nat ->
  Difflib.matches a b fuel alo ahi blo bhi = (ahi - alo)%nat ->
  Difflib.matches a b fuel alo ahi blo bhi = (bhi - blo)%nat ->
  forall t, (t < ahi - alo)%nat ->
    Difflib.same_at a b (alo + t) (blo + t) = true.
Proof.
  revert alo ahi blo bhi. induction fuel as [|fuel IH];
    intros alo ahi blo bhi Ha Hb; cbn [Difflib.matches]; [lia|].
  pose proof (find_longest_match_sound a b alo ahi blo bhi Ha Hb) as Hblk.
  destruct (Difflib.find_longest_match a b alo ahi blo bhi) as [[i j] k].
  destruct Hblk as [Hw Hsame].
  destruct (Nat.eqb_spec k 0); [lia|].
  pose proof (matches_bound fuel alo i blo j ltac:(lia) ltac:(lia)) as HL.
  pose proof (matches_bound fuel (i + k) ahi (j + k) bhi ltac:(lia) ltac:(lia))
    as HR.
  pose proof (IH alo i blo j ltac:(lia) ltac:(lia)) as IHL.
  pose proof (IH (i + k)%nat ahi (j + k)%nat bhi ltac:(lia) ltac:(lia)) as IHR.
  destruct ((alo <? i) && (blo <? j))%nat eqn:EL;
    destruct ((i + k <? ahi) && (j + k <? bhi))%nat eqn:ER;
    intros E1 E2 t Ht.
  - destruct (Nat.lt_ge_cases t (i - alo)) as [H1 | H1];
      [apply IHL; lia|].
    destruct (Nat.lt_ge_cases t (i - alo + k)) as [H2 | H2].
    + replace (alo + t)%nat with (i + (t - (i - alo)))%nat by lia.
      replace (blo + t)%nat with (j + (t - (i - alo)))%nat by lia.
      apply Hsame. lia.
    + replace (alo + t)%nat with (i + k + (t - (i - alo + k)))%nat by lia.
      replace (blo + t)%nat with (j + k + (t - (i - alo + k)))%nat by lia.
      apply IHR; lia.
  - destruct (Nat.lt_ge_cases t (i - alo)) as [H1 | H1];
      [apply IHL; lia|].
    replace (alo + t)%nat with (i + (t - (i - alo)))%nat by lia.
    replace (blo + t)%nat with (j + (t - (i - alo)))%nat by lia.
    apply Hsame. lia.
  - destruct (Nat.lt_ge_cases t k) as [H2 | H2].
    + replace (alo + t)%nat with (i + t)%nat by lia.
      replace (blo + t)%nat with (j + t)%nat by lia.
      apply Hsame. lia.
    + replace (alo + t)%nat with (i + k + (t - k))%nat by lia.
      replace (blo + t)%nat with (j + k + (t - k))%nat by lia.
      apply IHR; lia.
  - replace (alo + t)%nat with (i + t)%nat by lia.
    replace (blo + t)%nat with (j + t)%nat by lia.
    apply Hsame. lia.
Qed.

End Matches.

Lemma same_at_all_eq (a b : list ascii) :
  List.length a = List.length b ->
  (forall t, (t < List.length a)%nat -> Difflib.same_at a b t t = true) ->
  a = b.
Proof.
  revert b. induction a as [|x a IH]; intros [|y b] Hl H; cbn in Hl;
    try discriminate; [reflexivity|].
  f_equal.
  - specialize (H 0%nat ltac:(cbn; lia)). cbn in H.
    apply Ascii.eqb_eq. exact H.
  - apply IH; [lia|]. intros t Ht. apply (H (S t)). cbn. lia.
Qed.

Lemma list_ascii_inj (s t : string) :
  list_ascii_of_string s = list_ascii_of_string t -> s = t.
Proof.
  intros H. rewrite <- (string_of_list_ascii_of_string s),
    <- (string_of_list_ascii_of_string t), H. reflexivity.
Qed.

(** Distinct strings score below [1]. *)
Lemma ratio_distinct (x w : string) : x <> w -> Difflib.ratio x w < 1.
Proof.
  intros Hne. unfold Difflib.ratio.
  set (a := list_ascii_of_string x). set (b := list_ascii_of_string w).
  pose proof (matches_bound a b (S (List.length a)) 0 (List.length a) 0
                (List.length b) ltac:(lia) ltac:(lia)) as [H1 H2].
  pose proof (matches_full a b (S (List.length a)) 0 (List.length a) 0
                (List.length b) ltac:(lia) ltac:(lia)) as Hfull.
  set (m := Difflib.matches a b (S (List.length a)) 0 (List.length a) 0
              (List.length b)) in *.
  assert (Hlt : (2 * m < List.length a + List.length b)%nat).
  { destruct (Nat.eq_dec m (List.length a)) as [Ea|]; [|lia].
    destruct (Nat.eq_dec m (List.length b)) as [Eb|]; [|lia].
    exfalso. apply Hne. apply list_ascii_inj. fold a. fold b.
    apply same_at_all_eq; [lia|].
    intros t Ht. apply (Hfull ltac:(lia) ltac:(lia) t). lia. }
  unfold Difflib.calculate_ratio.
  destruct (List.length a + List.length b)%nat as [|T] eqn:ET; [lia|].
  unfold Qlt. cbn [Qnum Qden].
  rewrite <- Pos.of_nat_succ, Zpos_P_of_succ_nat. lia.
Qed.

Lemma indices_from_sorted c l k0 :
  StronglySorted lt (Difflib.indices_from c l k0).
Proof.
  revert k0. induction l as [|x l IH]; intros k0; cbn [Difflib.indices_from];
    [constructor|].
  destruct (Ascii.eqb x c); [|apply IH].
  constructor; [apply IH|]. apply Forall_forall. intros j Hj.
  apply in_indices_from in Hj as [Hj _]. lia.
Qed.

Lemma indices_from_complete c l k0 j :
  nth_error l j = Some c -> In (k0 + j)%nat (Difflib.indices_from c l k0).
Proof.
  revert k0 j. induction l as [|x l IH]; intros k0 [|j] H; cbn in H;
    try discriminate; cbn [Difflib.indices_from].
  - injection H as ->. rewrite Ascii.eqb_refl, Nat.add_0_r. left. reflexivity.
  - replace (k0 + S j)%nat with (S k0 + j)%nat by lia.
    destruct (Ascii.eqb x c); [right|]; apply IH; exact H.
Qed.

Section SelfMatch.

Variable a : list ascii.

Let n := List.length a.

Hypothesis short : (n < 200)%nat.

Lemma self_window : (0 <= n <= List.length a)%nat.
Proof. unfold n. lia. Qed.

Lemma b2j_short c : Difflib.b2j a c = Difflib.indices_from c a 0.
Proof.
  unfold Difflib.b2j, Difflib.popular. fold n.
  destruct (Nat.leb_spec 200 n); [lia | reflexivity].
Qed.

(** Row [i] after the diagonal entry: nothing longer turns up. *)
Lemma scan_js_after i c js j2len newj2len :
  nth_error a i = Some c -> (i < n)%nat ->
  table_before a a 0 n 0 n i j2len ->
  (forall j, In j js -> (i < j)%nat /\ nth_error a j = Some c) ->
  Difflib.j2len_get newj2len i = S i ->
  snd (Difflib.scan_js js 0 n i j2len newj2len (0, 0, S i)%nat)
  = (0, 0, S i)%nat
  /\ Difflib.j2len_get
       (fst (Difflib.scan_js js 0 n i j2len newj2len (0, 0, S i)%nat)) i
     = S i.
Proof.
  intros Ha Hi Hprev. revert newj2len.
  induction js as [|j js IH]; intros newj2len Hjs Hget;
    cbn [Difflib.scan_js]; [auto|].
  destruct (Hjs j (or_introl eq_refl)) as [Hij Hj].
  assert (Hjn : (j < n)%nat) by (apply nth_error_Some; congruence).
  destruct (Nat.ltb_spec j 0); [lia|].
  destruct (Nat.leb_spec n j); [lia|].
  assert (Hsame : Difflib.same_at a a i j = true).
  { unfold Difflib.same_at. rewrite Ha, Hj. apply Ascii.eqb_refl. }
  pose proof (next_entry a a 0 n 0 n self_window self_window i j j2len
                Hprev ltac:(lia) ltac:(lia) Hsame) as [Hb _].
  fold (next_len j2len j).
  destruct (Nat.ltb_spec (S i) (next_len j2len j)); [lia|].
  apply IH; [intros j' Hj'; apply Hjs; right; exact Hj'|].
  cbn [Difflib.j2len_get]. destruct (Nat.eqb_spec j i); [lia | exact Hget].
Qed.

(** Row [i] up to and including the diagonal entry. *)
Lemma scan_js_diag i c js j2len newj2len :
  nth_error a i = Some c -> (i < n)%nat ->
  table_before a a 0 n 0 n i j2len ->
  next_len j2len i = S i ->
  StronglySorted lt js -> In i js ->
  (forall j, In j js -> nth_error a j = Some c) ->
  snd (Difflib.scan_js js 0 n i j2len newj2len (0, 0, i)%nat)
  = (0, 0, S i)%nat
  /\ Difflib.j2len_get
       (fst (Difflib.scan_js js 0 n i j2len newj2len (0, 0, i)%nat)) i
     = S i.
Proof.
  intros Ha Hi Hprev Hnext. revert newj2len.
  induction js as [|j js IH]; intros newj2len Hs Hin Hjs; [destruct Hin|].
  cbn [Difflib.scan_js].
  pose proof (Hjs j (or_introl eq_refl)) as Hj.
  assert (Hjn : (j < n)%nat) by (apply nth_error_Some; congruence).
  destruct (Nat.ltb_spec j 0); [lia|].
  destruct (Nat.leb_spec n j); [lia|].
  assert (Hsame : Difflib.same_at a a i j = true).
  { unfold Difflib.same_at. rewrite Ha, Hj. apply Ascii.eqb_refl. }
  pose proof (next_entry a a 0 n 0 n self_window self_window i j j2len
                Hprev ltac:(lia) ltac:(lia) Hsame) as [Hb _].
  fold (next_len j2len j).
  apply StronglySorted_inv in Hs as [Hs Hall].
  destruct Hin as [-> | Hin].
  - rewrite Hnext. destruct (Nat.ltb_spec i (S i)); [|lia].
    replace (i + 1 - S i)%nat with 0%nat by lia.
    apply (scan_js_after i c); try assumption.
    + intros j' Hj'. split; [|apply Hjs; right; exact Hj'].
      apply (proj1 (Forall_forall _ _) Hall j' Hj').
    + cbn [Difflib.j2len_get]. rewrite Nat.eqb_refl. reflexivity.
  - pose proof (proj1 (Forall_forall _ _) Hall i Hin) as Hlt.
    destruct (Nat.ltb_spec i (next_len j2len j)); [lia|].
    apply IH; try assumption.
    intros j' Hj'. apply Hjs. right. exact Hj'.
Qed.

Lemma scan_is_self cnt i j2len :
  (i + cnt <= n)%nat ->
  table_before a a 0 n 0 n i j2len ->
  next_len j2len i = S i ->
  Difflib.scan_is a a 0 n cnt i j2len (0, 0, i)%nat = (0, 0, i + cnt)%nat.
Proof.
  revert i j2len. induction cnt as [|cnt IH]; intros i j2len Hle Hprev Hnext;
    cbn [Difflib.scan_is]; [rewrite Nat.add_0_r; reflexivity|].
  destruct (nth_error a i) as [c|] eqn:Ea;
    [|apply nth_error_None in Ea; fold n in Ea; lia].
  rewrite b2j_short.
  pose proof (scan_js_diag i c (Difflib.indices_from c a 0) j2len [] Ea
                ltac:(lia) Hprev Hnext (indices_from_sorted c a 0)
                (indices_from_complete c a 0 i Ea)) as Hrow.
  pose proof (scan_js_sound a a 0 n 0 n self_window self_window i c
                (Difflib.indices_from c a 0) j2len [] (0, 0, i)%nat Ea) as Hsound.
  assert (Hjs : forall j, In j (Difflib.indices_from c a 0) ->
                          nth_error a j = Some c).
  { intros j Hj. apply in_indices_from in Hj as [_ Hj].
    rewrite Nat.sub_0_r in Hj. exact Hj. }
  specialize (Hrow Hjs).
  destruct Hsound as [Htab _]; try assumption; try lia.
  { intros j Hj. cbn in Hj. lia. }
  { split; [lia|]. intros t Ht.
    pose proof (Hprev 0%nat) as _.
    destruct i as [|i']; [lia|].
    assert (Hg : Difflib.j2len_get j2len i' = S i')
      by (unfold next_len in Hnext; lia).
    destruct (Hprev i') as [_ [_ Hsm]]; [lia|].
    rewrite Hg in Hsm. cbn [Nat.add].
    replace t with (S i' - 1 - (i' - t))%nat at 1 by lia.
    replace t with (i' - (i' - t))%nat at 2 by lia.
    apply Hsm. lia. }
  destruct (Difflib.scan_js (Difflib.indices_from c a 0) 0 n i j2len []
              (0, 0, i)%nat) as [newj2len best'].
  cbn [fst snd] in *. destruct Hrow as [-> Hget].
  replace (i + S cnt)%nat with (S i + cnt)%nat by lia.
  apply IH; [lia | |].
  - intros j Hj. split; [lia|].
    replace (S i - 1)%nat with i by lia. apply Htab. exact Hj.
  - unfold next_len. rewrite Hget. reflexivity.
Qed.

Lemma find_longest_match_self :
  Difflib.find_longest_match a a 0 n 0 n = (0, 0, n)%nat.
Proof.
  unfold Difflib.find_longest_match. rewrite Nat.sub_0_r.
  rewrite (scan_is_self n 0 []);
    [|lia | intros j Hj; cbn in Hj; lia | reflexivity].
  cbn [Nat.add]. fold n.
  assert (Hb : forall fuel, Difflib.extend_back a a 0 0 fuel (0, 0, n)%nat
                            = (0, 0, n)%nat)
    by (intros [|fuel]; reflexivity).
  rewrite Hb.
  destruct n as [|n'] eqn:En; [reflexivity|].
  cbn [Difflib.extend_fwd Nat.add].
  rewrite Nat.ltb_irrefl. reflexivity.
Qed.

Lemma matches_self : Difflib.matches a a (S n) 0 n 0 n = n.
Proof.
  cbn [Difflib.matches]. rewrite find_longest_match_self.
  destruct (Nat.eqb_spec n 0) as [E|]; [lia|].
  change (0 <? 0)%nat with false. cbn [andb Nat.add].
  rewrite Nat.ltb_irrefl. cbn [andb]. lia.
Qed.

End SelfMatch.

(** A string shorter than 200 characters scores [1] against itself. *)
Lemma ratio_self (w : string) :
  (String.length w < 200)%nat -> Difflib.ratio w w == 1.
Proof.
  intros H. unfold Difflib.ratio.
  assert (Hl : List.length (list_ascii_of_string w) = String.length w).
  { clear. induction w as [|c w IH]; cbn; [reflexivity | rewrite IH; reflexivity]. }
  rewrite matches_self by (rewrite Hl; exact H).
  unfold Difflib.calculate_ratio.
  destruct (List.length (list_ascii_of_string w)
            + List.length (list_ascii_of_string w))%nat as [|T] eqn:ET;
    [reflexivity|].
  unfold Qeq. cbn [Qnum Qden].
  rewrite <- Pos.of_nat_succ, Zpos_P_of_succ_nat. lia.
Qed.

(** The executable ratio meets [exact_on] on names shorter than 200
    characters. *)
Lemma ratio_exact_on (names : list string) (w : string) :
  (String.length w < 200)%nat -> exact_on Difflib.ratio names w.
Proof.
  intros H. split; [apply ratio_self; exact H|].
  intros x _ Hx. apply ratio_distinct. exact Hx.
Qed.

(* ================================================================== *)
(** * Further properties of the editor and the reconciler              *)
(* ================================================================== *)

(** ** Selection and the selector's entries *)

Lemma selected_of_nat_inv idx (labs : list Label) k :
  selected idx labs = Some k ->
  idx = Z.of_nat k /\ (k < List.length labs)%nat.
Proof.
  unfold selected.
  destruct (Z.leb_spec 0 idx); [|discriminate].
  destruct (Z.ltb_spec idx (Z.of_nat (List.length labs))); [|discriminate].
  cbn. intros E. injection E as <-. lia.
Qed.

Lemma keeps_setItemText {T} (P : Editor -> T) k txt :
  (forall c j ed, P (set_combo c j ed) = P ed) ->
  keeps P (combo_setItemText k txt).
Proof.
  intros H. unfold combo_setItemText.
  apply keeps_bind; [apply keeps_gets | intros items].
  apply keeps_bind; [apply keeps_gets | intros idx].
  destruct (list_set items k txt); [|apply keeps_ret].
  apply keeps_modify. intros ed. apply H.
Qed.

(** ** Calls that change nothing *)

Lemma frame_labels_inv ed labs :
  frame_labels ed = Some labs ->
  exists rec, nth_error (data ed) (i ed) = Some rec /\ get_Labels rec = labs.
Proof.
  rewrite frame_labels_eq.
  destruct (nth_error (data ed) (i ed)) as [rec|]; [|discriminate].
  cbn. intros E. injection E as <-. eauto.
Qed.

Lemma get_Labels_key rec lab k :
  nth_error (get_Labels rec) k = Some lab -> Labels rec = Some (get_Labels rec).
Proof.
  unfold get_Labels. destruct (Labels rec); [reflexivity|].
  destruct k; discriminate.
Qed.

(** X1.  [_rename_label] returns without touching any field of the
    editor when no label is selected, when the dialog is cancelled, when
    the stripped text is empty, or when it is the selected label's current
    class name. *)
Theorem rename_label_noop
    (renders : list Label -> list vec3 -> bool) (ed : Editor)
    (labs : list Label) (auto_prompt : bool) (dialog : string * bool)
    (line_text : string) :
  frame_labels ed = Some labs ->
  let new_txt := Str.strip (if auto_prompt then fst dialog else line_text) in
  selected (combo_index ed) labs = None
  \/ (auto_prompt = true /\ snd dialog = false)
  \/ new_txt = EmptyString
  \/ (exists k lab, selected (combo_index ed) labs = Some k
                    /\ nth_error labs k = Some lab /\ Class lab = new_txt) ->
  _rename_label renders auto_prompt dialog line_text ed = (Some tt, ed).
Proof.
  intros El new_txt H.
  destruct (frame_labels_inv ed labs El) as (rec & E1 & <-).
  unfold _rename_label. unfold bind at 1, gets at 1.
  erewrite bind_Some by (apply cur_labels_run; exact E1).
  destruct (selected (combo_index ed) (get_Labels rec)) as [k|] eqn:Es;
    [|reflexivity].
  destruct (auto_prompt && negb (snd dialog)) eqn:Ea; [reflexivity|].
  apply selected_of_nat_inv in Es as [_ Hk].
  destruct (nth_error (get_Labels rec) k) as [lab|] eqn:E3;
    [|apply nth_error_None in E3; lia].
  unfold bind at 1, lift at 1. cbn [ret]. fold new_txt.
  destruct H as [H | [[-> H] | [H | (k' & lab' & Hs & Hn & Hc)]]].
  - discriminate.
  - rewrite H in Ea. discriminate.
  - rewrite H. reflexivity.
  - injection Hs as <-. rewrite E3 in Hn. injection Hn as <-.
    rewrite Hc, String.eqb_refl, orb_true_r. reflexivity.
Qed.

(** X2.  A rename that goes through (a label is selected, the dialog is
    not cancelled, the stripped text is neither empty nor the current
    name) overwrites the class name of the selected label with the
    stripped text and the selector's entry at the same position with it;
    the label's parameter list, the number of labels and every other label
    are as before. *)
Theorem rename_label_effect
    (renders : list Label -> list vec3 -> bool) (ed : Editor)
    (labs : list Label) (k : nat) (lab : Label) (auto_prompt : bool)
    (dialog : string * bool) (line_text : string) :
  frame_labels ed = Some labs ->
  combo_index ed = Z.of_nat k ->
  nth_error labs k = Some lab ->
  (auto_prompt = true -> snd dialog = true) ->
  let new_txt := Str.strip (if auto_prompt then fst dialog else line_text) in
  new_txt <> EmptyString -> new_txt <> Class lab ->
  let ed' :=
    snd (_rename_label renders auto_prompt dialog line_text ed) in
  exists labs',
    frame_labels ed' = Some labs'
    /\ List.length labs' = List.length labs
    /\ nth_error labs' k = Some (mkLabel new_txt (BoundingBoxes lab))
    /\ (forall j, j <> k -> nth_error labs' j = nth_error labs j)
    /\ ((k < List.length (combo ed))%nat ->
        nth_error (combo ed') k = Some new_txt
        /\ forall j, j <> k -> nth_error (combo ed') j = nth_error (combo ed) j).
Proof.
  intros El Ec E3 Hok new_txt Hne Hdiff ed'.
  destruct (frame_labels_inv ed labs El) as (rec & E1 & <-).
  assert (Hi : (i ed < List.length (data ed))%nat)
    by (apply nth_error_Some; congruence).
  assert (Hk : (k < List.length (get_Labels rec))%nat)
    by (apply nth_error_Some; congruence).
  set (lab' := mkLabel new_txt (BoundingBoxes lab)).
  pose proof (list_set_lt (get_Labels rec) k lab' Hk) as Hset.
  set (labs' := firstn k (get_Labels rec) ++ lab' :: skipn (S k) (get_Labels rec))
    in *.
  assert (Hrun : ed' = snd (combo_setItemText k new_txt
                              (with_labels labs' rec ed))).
  { unfold ed', _rename_label. unfold bind at 1, gets at 1. rewrite Ec.
    erewrite bind_Some by (apply cur_labels_run; exact E1).
    rewrite (selected_of_nat _ _ Hk).
    assert (Ea : auto_prompt && negb (snd dialog) = false).
    { destruct auto_prompt; [|reflexivity]. rewrite (Hok eq_refl). reflexivity. }
    rewrite Ea. unfold bind at 1, lift at 1. rewrite E3. cbn [ret].
    fold new_txt.
    apply String.eqb_neq in Hne. apply String.eqb_neq in Hdiff.
    rewrite Hne, Hdiff. cbn [orb].
    unfold bind at 1, lift at 1. fold lab'. rewrite Hset. cbn [ret].
    erewrite snd_bind by (apply put_labels_run; exact E1).
    unfold bind.
    destruct (combo_setItemText k new_txt (with_labels labs' rec ed))
      as [[u|] e2]; cbn [snd]; [apply draw_all_state | reflexivity]. }
  exists labs'.
  assert (Hfl : frame_labels ed' = Some labs').
  { rewrite Hrun.
    rewrite (frame_labels_ext (with_labels labs' rec ed)).
    - apply frame_labels_with_labels. exact Hi.
    - apply (keeps_setItemText data); reflexivity.
    - apply (keeps_setItemText i); reflexivity. }
  split; [exact Hfl|].
  split; [unfold labs'; rewrite List.length_app; cbn [List.length];
          rewrite length_firstn, length_skipn; lia|].
  split; [apply (list_set_nth_eq _ _ _ _ Hset)|].
  split; [intros j Hj; apply (list_set_nth_neq _ _ _ _ _ Hset Hj)|].
  intros Hkc. rewrite Hrun.
  unfold combo_setItemText, bind, gets, modify, ret.
  change (combo (with_labels labs' rec ed)) with (combo ed).
  pose proof (list_set_lt (combo ed) k new_txt Hkc) as Hc.
  rewrite Hc. cbn [snd set_combo combo].
  split; [apply (list_set_nth_eq _ _ _ _ Hc)|].
  intros j Hj. apply (list_set_nth_neq _ _ _ _ _ Hc Hj).
Qed.

Lemma rename_label_effect_witness :
  exists labs',
    frame_labels (snd (_rename_label (fun _ _ => true) false
                         (EmptyString, false) "  walker " demo_editor))
    = Some labs'
    /\ nth_error labs' 0 = Some (mkLabel "walker" (BoundingBoxes demo_label)).
Proof.
  destruct (rename_label_effect (fun _ _ => true) demo_editor [demo_label] 0
              demo_label false (EmptyString, false) "  walker "
              eq_refl eq_refl eq_refl)
    as (labs' & E & _ & Hk & _).
  - discriminate.
  - cbn. discriminate.
  - cbn. discriminate.
  - exists labs'. split; [exact E | exact Hk].
Defined.

Lemma rename_label_noop_witness :
  _rename_label (fun _ _ => true) true ("other"%string, false) EmptyString
    demo_editor
  = (Some tt, demo_editor).
Proof.
  apply (rename_label_noop (fun _ _ => true) demo_editor [demo_label] true
           ("other"%string, false) EmptyString eq_refl).
  right. left. split; reflexivity.
Defined.

(** X3.  [_delete_label] returns without touching any field of the editor
    when the confirmation is declined or when no label is selected. *)
Theorem delete_label_noop
    (ratio : string -> string -> Q) (listdir : list string)
    (read_point_cloud : string -> option (list vec3))
    (renders : list Label -> list vec3 -> bool)
    (ed : Editor) (labs : list Label) (yes : bool) :
  frame_labels ed = Some labs ->
  yes = false \/ selected (combo_index ed) labs = None ->
  _delete_label ratio listdir read_point_cloud renders yes ed = (Some tt, ed).
Proof.
  intros El H.
  destruct (frame_labels_inv ed labs El) as (rec & E1 & <-).
  unfold _delete_label. unfold bind at 1, gets at 1.
  erewrite bind_Some by (apply cur_labels_run; exact E1).
  destruct H as [-> | ->]; [|reflexivity].
  destruct (selected _ _); reflexivity.
Qed.

Lemma delete_label_noop_witness :
  _delete_label Difflib.ratio [] (fun _ => None) (fun _ _ => true) false
    demo_three
  = (Some tt, demo_three).
Proof.
  apply (delete_label_noop Difflib.ratio [] (fun _ => None) (fun _ _ => true)
           demo_three _ false eq_refl).
  left. reflexivity.
Defined.

Lemma goto_run ratio listdir read_point_cloud renders idx ed :
  _goto ratio listdir read_point_cloud renders idx ed
  = if ((0 <=? idx) && (idx <? Z.of_nat (List.length (data ed))))%Z
    then _refresh ratio listdir read_point_cloud renders
           (set_i (Z.to_nat idx) ed)
    else (Some tt, ed).
Proof.
  unfold _goto, bind, gets, modify, ret.
  destruct ((0 <=? idx) && (idx <? Z.of_nat (List.length (data ed))))%Z;
    reflexivity.
Qed.

(** X4.  [_goto] ignores an index outside [0 .. len(data) - 1]: no field
    of the editor changes.  For an index inside, the current record
    becomes that index and the store is as before, and this also holds
    when loading or drawing the new frame raises. *)
Theorem goto_bounds
    (ratio : string -> string -> Q) (listdir : list string)
    (read_point_cloud : string -> option (list vec3))
    (renders : list Label -> list vec3 -> bool)
    (ed : Editor) (idx : Z) :
  let run := _goto ratio listdir read_point_cloud renders idx ed in
  ((idx < 0 \/ Z.of_nat (List.length (data ed)) <= idx)%Z ->
   run = (Some tt, ed))
  /\ ((0 <= idx < Z.of_nat (List.length (data ed)))%Z ->
      i (snd run) = Z.to_nat idx /\ data (snd run) = data ed).
Proof.
  cbv zeta. rewrite goto_run. split.
  - intros H.
    destruct (Z.leb_spec 0 idx);
      destruct (Z.ltb_spec idx (Z.of_nat (List.length (data ed))));
      try lia; reflexivity.
  - intros H.
    destruct (Z.leb_spec 0 idx); [|lia].
    destruct (Z.ltb_spec idx (Z.of_nat (List.length (data ed)))); [|lia].
    cbn [andb]. split.
    + rewrite (keeps_refresh ratio listdir read_point_cloud renders i);
        reflexivity.
    + rewrite (keeps_refresh ratio listdir read_point_cloud renders data);
        reflexivity.
Qed.

Lemma goto_bounds_witness :
  _goto Difflib.ratio [] (fun _ => None) (fun _ _ => true) 5 demo_editor
  = (Some tt, demo_editor).
Proof.
  apply (proj1 (goto_bounds Difflib.ratio [] (fun _ => None) (fun _ _ => true)
                  demo_editor 5)).
  right. cbn. lia.
Defined.

(** ** Writing and reading the store *)

Lemma upd_same {A} (l : list A) k x :
  nth_error l k = Some x -> firstn k l ++ x :: skipn (S k) l = l.
Proof.
  revert k. induction l as [|y l IH]; intros [|k] E; cbn in *;
    try discriminate.
  - congruence.
  - f_equal. apply IH. exact E.
Qed.

Lemma upd_firstn {A} (l : list A) k x :
  (k <= List.length l)%nat ->
  firstn k (firstn k l ++ x :: skipn (S k) l) = firstn k l.
Proof.
  intros H. rewrite firstn_app, length_firstn.
  replace (k - Nat.min k (List.length l))%nat with 0%nat by lia.
  cbn [firstn]. rewrite app_nil_r, firstn_firstn, Nat.min_id. reflexivity.
Qed.

Lemma upd_skipn {A} (l : list A) k x :
  (k < List.length l)%nat ->
  skipn (S k) (firstn k l ++ x :: skipn (S k) l) = skipn (S k) l.
Proof.
  intros H. rewrite skipn_app, length_firstn.
  replace (S k - Nat.min k (List.length l))%nat with 1%nat by lia.
  rewrite skipn_all2 by (rewrite length_firstn; lia). reflexivity.
Qed.

Lemma set_data_same ed : set_data (data ed) ed = ed.
Proof. destruct ed; reflexivity. Qed.

Lemma with_labels_id labs rec ed :
  nth_error (data ed) (i ed) = Some rec -> Labels rec = Some labs ->
  with_labels labs rec ed = ed.
Proof.
  intros E1 E2. unfold with_labels.
  replace (mkRec (File rec) (Some labs)) with rec
    by (destruct rec; cbn in E2; subst; reflexivity).
  rewrite (upd_same _ _ _ E1). apply set_data_same.
Qed.

Lemma with_labels_twice l1 l2 rec ed :
  (i ed < List.length (data ed))%nat ->
  with_labels l2 (mkRec (File rec) (Some l1)) (with_labels l1 rec ed)
  = with_labels l2 rec ed.
Proof.
  intros H. unfold with_labels, set_data. cbn [data i pts combo combo_index rot File].
  rewrite upd_firstn, upd_skipn by lia. reflexivity.
Qed.

(** X5.  [_set_bbox_params] after [_bbox_params]: writing back the list
    that was read changes no field of the editor, and of two writes to the
    same label the second alone decides the state. *)
Theorem set_bbox_params_round_trip (ed : Editor) (idx : nat) (bb : list R) :
  fst (_bbox_params idx ed) = Some bb ->
  _set_bbox_params idx bb ed = (Some tt, ed)
  /\ forall p1 p2,
       snd (_set_bbox_params idx p2 (snd (_set_bbox_params idx p1 ed)))
       = snd (_set_bbox_params idx p2 ed).
Proof.
  intros Hbb.
  destruct (bbox_params_inv _ _ _ Hbb) as (rec & labs & lab & E1 & E2 & E3 & Ebb).
  assert (Hi : (i ed < List.length (data ed))%nat)
    by (apply nth_error_Some; congruence).
  assert (Hk : (idx < List.length labs)%nat)
    by (apply nth_error_Some; congruence).
  split.
  - rewrite (set_bbox_params_run idx bb ed rec labs lab E1 E2 E3). f_equal.
    replace (mkLabel (Class lab) bb) with lab
      by (destruct lab; cbn in Ebb; subst; reflexivity).
    rewrite (upd_same _ _ _ E3). apply with_labels_id; assumption.
  - intros p1 p2.
    rewrite (set_bbox_params_run idx p1 ed rec labs lab E1 E2 E3).
    rewrite (set_bbox_params_run idx p2 ed rec labs lab E1 E2 E3).
    cbn [snd].
    set (l1 := firstn idx labs ++ mkLabel (Class lab) p1 :: skipn (S idx) labs).
    rewrite (set_bbox_params_run idx p2 (with_labels l1 rec ed)
               (mkRec (File rec) (Some l1)) l1 (mkLabel (Class lab) p1)).
    + cbn [snd Class]. rewrite with_labels_twice by exact Hi.
      unfold l1. rewrite upd_firstn, upd_skipn by lia. reflexivity.
    + apply with_labels_cur. exact Hi.
    + reflexivity.
    + apply (list_set_nth_eq labs). apply list_set_lt. exact Hk.
Qed.

Lemma set_bbox_params_round_trip_witness :
  _set_bbox_params 0 (BoundingBoxes demo_label) demo_editor
  = (Some tt, demo_editor).
Proof.
  apply (proj1 (set_bbox_params_round_trip demo_editor 0
                  (BoundingBoxes demo_label) eq_refl)).
Defined.

(** ** Parameter lists that are too short *)

(** X6.  When the label's parameter list has fewer than seven entries,
    [_roi_moved] raises at the unpacking, and with that label selected
    [_rot_bbox] and [_sync_slider] raise at index 6; in each case no field
    of the editor has changed. *)
Theorem short_params_raise
    (renders : list Label -> list vec3 -> bool) (ed : Editor) (k : nat)
    (bb : list R) :
  fst (_bbox_params k ed) = Some bb ->
  (List.length bb < 7)%nat ->
  (forall roi axes, _roi_moved renders roi k axes ed = (None, ed))
  /\ (combo_index ed = Z.of_nat k ->
      (forall deg, _rot_bbox renders deg ed = (None, ed))
      /\ _sync_slider ed = (None, ed)).
Proof.
  intros Hbb Hlen.
  destruct (bbox_params_inv _ _ _ Hbb) as (rec & labs & lab & E1 & E2 & E3 & Ebb).
  assert (Hk : (k < List.length labs)%nat)
    by (apply nth_error_Some; congruence).
  assert (EL : get_Labels rec = labs) by (unfold get_Labels; rewrite E2; reflexivity).
  split.
  - intros roi axes. unfold _roi_moved.
    destruct (pos roi) as [px py]. destruct (size roi) as [sx sy].
    erewrite bind_Some by (eapply bbox_params_run; eassumption).
    rewrite Ebb.
    destruct bb as [|a0 [|a1 [|a2 [|a3 [|a4 [|a5 [|a6 t]]]]]]];
      cbn in Hlen; try lia; reflexivity.
  - intros Ec. split.
    + intros deg. unfold _rot_bbox. unfold bind at 1, gets at 1. rewrite Ec.
      erewrite bind_Some by (apply cur_labels_run; exact E1).
      rewrite EL, (selected_of_nat _ _ Hk).
      unfold bind at 1, lift at 1. rewrite E3. cbn [ret].
      unfold bind at 1, lift at 1, list_set. rewrite Ebb.
      destruct (Nat.ltb_spec 6 (List.length bb)); [lia | reflexivity].
    + unfold _sync_slider. unfold bind at 1, gets at 1. rewrite Ec.
      erewrite bind_Some by (apply cur_labels_run; exact E1).
      rewrite EL, (selected_of_nat _ _ Hk).
      unfold bind at 1, lift at 1. rewrite E3. cbn [ret].
      unfold bind at 1, lift at 1. rewrite Ebb.
      destruct (nth_error bb 6) eqn:E6; [|reflexivity].
      assert (6 < List.length bb)%nat by (apply nth_error_Some; congruence).
      lia.
Qed.

Lemma short_params_raise_witness :
  _roi_moved (fun _ _ => true) (mkROI (0, 0) (1, 1))%R 1 (0, 1)%Z demo_three
  = (None, demo_three).
Proof.
  apply (proj1 (short_params_raise (fun _ _ => true) demo_three 1 []
                  eq_refl ltac:(cbn; lia))).
Defined.

(** ** The selector follows the store *)

Lemma bind_success {A B} (m : M A) (f : A -> M B) ed b :
  fst (bind m f ed) = Some b ->
  exists a, m ed = (Some a, snd (m ed)) /\ bind m f ed = f a (snd (m ed)).
Proof.
  unfold bind. destruct (m ed) as [[a|] e]; cbn; [eauto | discriminate].
Qed.

Lemma cur_labels_inv ed labs e :
  cur_labels ed = (Some labs, e) ->
  e = ed /\ exists rec,
    nth_error (data ed) (i ed) = Some rec /\ get_Labels rec = labs.
Proof.
  unfold cur_labels, cur_rec. unfold_M.
  destruct (nth_error (data ed) (i ed)) as [rec|]; cbn; [|discriminate].
  intros E. injection E as <- <-. eauto.
Qed.

Section Selector.

Variable ratio : string -> string -> Q.
Variable listdir : list string.
Variable read_point_cloud : string -> option (list vec3).
Variable renders : list Label -> list vec3 -> bool.

Let refresh := _refresh ratio listdir read_point_cloud renders.

Lemma cur_rec_state ed : snd (cur_rec ed) = ed.
Proof. apply (keeps_cur_rec (fun e => e)). Qed.

Lemma lift_state {A} (o : option A) ed : snd (lift o ed) = ed.
Proof. apply (keeps_lift (fun e => e)). Qed.

(** What a [_load_cloud] that returns has done. *)
Lemma load_cloud_inv ed u e :
  _load_cloud ratio listdir read_point_cloud ed = (Some u, e) ->
  exists name p, read_point_cloud name = Some p /\ e = set_pts p ed.
Proof.
  unfold _load_cloud. intros H.
  destruct (bind_success _ _ _ _ (f_equal fst H)) as (rec & _ & R).
  rewrite R, cur_rec_state in H. clear R.
  destruct (bind_success _ _ _ _ (f_equal fst H)) as (pcd & _ & R).
  rewrite R in H. clear R.
  assert (Hs : snd ((if Str.endswith (get_File rec) ".pcd"
                     then ret (Some (get_File rec))
                     else _find_pcd ratio listdir (get_File rec)) ed) = ed).
  { destruct (Str.endswith (get_File rec) ".pcd"); [reflexivity|].
    apply (keeps_find_pcd ratio listdir (fun e => e)). }
  rewrite Hs in H. clear Hs.
  destruct (bind_success _ _ _ _ (f_equal fst H)) as (name & _ & R).
  rewrite R, lift_state in H. clear R.
  destruct (bind_success _ _ _ _ (f_equal fst H)) as (p & Ep & R).
  rewrite R, lift_state in H. clear R.
  exists name, p. split.
  - unfold lift, ret, raise in Ep.
    destruct (read_point_cloud name); [|discriminate]. congruence.
  - unfold modify in H. congruence.
Qed.

(** What a [_refresh] that returns has done. *)
Lemma refresh_success ed :
  fst (refresh ed) = Some tt ->
  exists rec name p,
    nth_error (data ed) (i ed) = Some rec
    /\ read_point_cloud name = Some p
    /\ _load_cloud ratio listdir read_point_cloud ed = (Some tt, set_pts p ed)
    /\ pts (snd (refresh ed)) = p
    /\ combo (snd (refresh ed)) = map Class (get_Labels rec)
    /\ combo_index (snd (refresh ed))
       = match get_Labels rec with [] => (-1)%Z | _ => 0%Z end.
Proof.
  unfold refresh, _refresh. intros H.
  destruct (bind_success _ _ _ _ H) as ([] & E1 & R1). rewrite R1 in *. clear R1.
  destruct (load_cloud_inv _ _ _ E1) as (name & p & Ep & E1').
  rewrite E1' in *. clear E1'.
  destruct (bind_success _ _ _ _ H) as (u2 & E2 & R2). rewrite R2 in *. clear R2.
  rewrite draw_all_state in *.
  destruct (bind_success _ _ _ _ H) as (labs & E3 & R3). rewrite R3 in *. clear R3.
  apply cur_labels_inv in E3 as (E3 & rec & En & <-). rewrite E3 in *.
  change (nth_error (data ed) (i ed) = Some rec) in En.
  change (bind (modify (set_combo (map Class (get_Labels rec))
                          (match get_Labels rec with [] => (-1)%Z | _ => 0%Z end)))
            (fun _ => _sync_slider) (set_pts p ed))
    with (_sync_slider
            (set_combo (map Class (get_Labels rec))
               (match get_Labels rec with [] => (-1)%Z | _ => 0%Z end)
               (set_pts p ed))).
  rewrite (keeps_sync_slider pts), (keeps_sync_slider combo),
    (keeps_sync_slider combo_index) by reflexivity.
  exists rec, name, p. repeat split; assumption.
Qed.

Lemma aligned_inv ed :
  aligned ed ->
  exists rec, nth_error (data ed) (i ed) = Some rec
              /\ combo ed = map Class (get_Labels rec).
Proof.
  unfold aligned. rewrite frame_labels_eq.
  destruct (nth_error (data ed) (i ed)) as [rec|]; [|discriminate].
  cbn. intros E. injection E as E. eauto.
Qed.

Lemma aligned_ext ed ed' :
  data ed' = data ed -> i ed' = i ed -> combo ed' = combo ed ->
  aligned ed -> aligned ed'.
Proof.
  unfold aligned. intros Hd Hi Hc.
  rewrite (frame_labels_ext ed ed' Hd Hi), Hc. auto.
Qed.

Lemma aligned_with_labels labs rec ed :
  nth_error (data ed) (i ed) = Some rec -> map Class labs = combo ed ->
  aligned (with_labels labs rec ed).
Proof.
  intros E1 Hc. unfold aligned.
  rewrite frame_labels_with_labels by (apply nth_error_Some; congruence).
  cbn. rewrite Hc. reflexivity.
Qed.

Lemma aligned_refresh ed :
  fst (refresh ed) = Some tt -> aligned (snd (refresh ed)).
Proof.
  intros H. destruct (refresh_success ed H) as (rec & _ & _ & E1 & _ & _ & _ & Hc & _).
  unfold aligned. unfold refresh. rewrite refresh_frame_labels. fold refresh.
  rewrite frame_labels_eq, E1, Hc. reflexivity.
Qed.

Lemma classes_upd (labs : list Label) k lab lab' :
  nth_error labs k = Some lab -> Class lab' = Class lab ->
  map Class (firstn k labs ++ lab' :: skipn (S k) labs) = map Class labs.
Proof.
  intros E Hc. rewrite map_app. cbn [map]. rewrite Hc.
  rewrite <- firstn_map, <- skipn_map.
  apply upd_same. apply map_nth_error. exact E.
Qed.

Lemma roi_moved_short roi k axes ed bb :
  fst (_bbox_params k ed) = Some bb -> (List.length bb < 7)%nat ->
  _roi_moved renders roi k axes ed = (None, ed).
Proof.
  intros Hbb Hlen.
  destruct (bbox_params_inv _ _ _ Hbb) as (rec & labs & lab & E1 & E2 & E3 & Ebb).
  unfold _roi_moved.
  destruct (pos roi) as [px py]. destruct (size roi) as [sx sy].
  erewrite bind_Some by (eapply bbox_params_run; eassumption).
  rewrite Ebb.
  destruct bb as [|a0 [|a1 [|a2 [|a3 [|a4 [|a5 [|a6 t]]]]]]];
    cbn in Hlen; try lia; reflexivity.
Qed.

Lemma roi_moved_cases roi k axes ed rec :
  nth_error (data ed) (i ed) = Some rec ->
  snd (_roi_moved renders roi k axes ed) = ed
  \/ exists lab bb,
       nth_error (get_Labels rec) k = Some lab
       /\ snd (_roi_moved renders roi k axes ed)
          = with_labels (firstn k (get_Labels rec) ++ mkLabel (Class lab) bb
                         :: skipn (S k) (get_Labels rec)) rec ed.
Proof.
  intros E1.
  destruct (fst (_bbox_params k ed)) as [bb|] eqn:EB.
  - destruct (bbox_params_inv _ _ _ EB) as (rec' & labs & lab & E1' & E2 & E3 & Ebb).
    assert (rec' = rec) by congruence. subst rec'.
    assert (EL : get_Labels rec = labs)
      by (unfold get_Labels; rewrite E2; reflexivity).
    destruct (Nat.lt_ge_cases (List.length bb) 7) as [Hs | Hl].
    + left. rewrite (roi_moved_short roi k axes ed bb EB Hs). reflexivity.
    + right. destruct roi as [[px py] [sx sy]].
      destruct bb as [|a0 [|a1 [|a2 [|a3 [|a4 [|a5 [|a6 t]]]]]]];
        cbn in Hl; try lia.
      exists lab. eexists. rewrite EL. split; [exact E3|].
      apply (roi_moved_state renders ed k rec labs lab a0 a1 a2 a3 a4 a5 a6 t);
        assumption.
  - left. unfold _roi_moved.
    destruct (pos roi) as [px py]. destruct (size roi) as [sx sy].
    unfold bind at 1.
    pose proof (keeps_bind (fun e => e) cur_rec
                  (fun rec => bind (lift (Labels rec))
                     (fun labs => bind (lift (nth_error labs k))
                        (fun lab => ret (BoundingBoxes lab))))) as K.
    change (bind cur_rec _) with (_bbox_params k) in K.
    assert (Hk : snd (_bbox_params k ed) = ed).
    { apply K; [apply keeps_cur_rec|]. intros r. repeat keeps_step. }
    destruct (_bbox_params k ed) as [[bb|] e]; cbn in EB, Hk;
      [discriminate | exact Hk].
Qed.

Lemma rot_bbox_cases deg ed rec :
  nth_error (data ed) (i ed) = Some rec ->
  snd (_rot_bbox renders deg ed) = ed
  \/ exists k lab bb,
       nth_error (get_Labels rec) k = Some lab
       /\ snd (_rot_bbox renders deg ed)
          = with_labels (firstn k (get_Labels rec) ++ mkLabel (Class lab) bb
                         :: skipn (S k) (get_Labels rec)) rec ed.
Proof.
  intros E1. remember (snd (_rot_bbox renders deg ed)) as st eqn:Est.
  unfold _rot_bbox in Est. unfold bind at 1, gets at 1 in Est.
  erewrite bind_Some in Est by (apply cur_labels_run; exact E1).
  destruct (selected (combo_index ed) (get_Labels rec)) as [k|] eqn:Es;
    [|left; exact Est].
  apply selected_of_nat_inv in Es as [_ Hk].
  destruct (nth_error (get_Labels rec) k) as [lab|] eqn:E3;
    [|apply nth_error_None in E3; lia].
  unfold bind at 1, lift at 1 in Est. cbn [ret] in Est.
  destruct (list_set (BoundingBoxes lab) 6 (radians (IZR deg))) as [bb|];
    [|left; exact Est].
  unfold bind at 1, lift at 1 in Est. cbn [ret] in Est.
  unfold bind at 1, lift at 1 in Est.
  rewrite list_set_lt in Est by exact Hk. cbn [ret] in Est.
  right. exists k, lab, bb. split; [exact E3|].
  rewrite Est.
  erewrite snd_bind_keep;
    [ reflexivity | apply put_labels_run; exact E1
    | intros; apply draw_all_state ].
Qed.

Lemma rename_label_cases auto_prompt dialog line_text ed rec :
  nth_error (data ed) (i ed) = Some rec ->
  snd (_rename_label renders auto_prompt dialog line_text ed) = ed
  \/ exists k lab txt,
       nth_error (get_Labels rec) k = Some lab
       /\ snd (_rename_label renders auto_prompt dialog line_text ed)
          = snd (combo_setItemText k txt
                   (with_labels
                      (firstn k (get_Labels rec)
                       ++ mkLabel txt (BoundingBoxes lab)
                       :: skipn (S k) (get_Labels rec)) rec ed)).
Proof.
  intros E1.
  remember (snd (_rename_label renders auto_prompt dialog line_text ed))
    as st eqn:Est.
  unfold _rename_label in Est. unfold bind at 1, gets at 1 in Est.
  erewrite bind_Some in Est by (apply cur_labels_run; exact E1).
  destruct (selected (combo_index ed) (get_Labels rec)) as [k|] eqn:Es;
    [|left; exact Est].
  apply selected_of_nat_inv in Es as [_ Hk].
  destruct (auto_prompt && negb (snd dialog)); [left; exact Est|].
  destruct (nth_error (get_Labels rec) k) as [lab|] eqn:E3;
    [|apply nth_error_None in E3; lia].
  unfold bind at 1, lift at 1 in Est. cbn [ret] in Est.
  set (txt := Str.strip (if auto_prompt then fst dialog else line_text)) in Est.
  destruct (String.eqb txt EmptyString || String.eqb txt (Class lab));
    [left; exact Est|].
  unfold bind at 1, lift at 1 in Est.
  rewrite list_set_lt in Est by exact Hk. cbn [ret] in Est.
  right. exists k, lab, txt. split; [exact E3|].
  rewrite Est.
  erewrite snd_bind by (apply put_labels_run; exact E1).
  unfold bind.
  destruct (combo_setItemText k txt _) as [[u|] e2]; cbn [snd];
    [apply draw_all_state | reflexivity].
Qed.

Lemma setCurrentIndex_combo k ed :
  combo (snd (combo_setCurrentIndex k ed)) = combo ed.
Proof.
  unfold combo_setCurrentIndex. unfold bind at 1, gets at 1.
  destruct (k =? combo_index ed)%Z; [reflexivity|].
  unfold bind at 1, gets at 1. unfold bind at 1, modify at 1.
  rewrite (keeps_sync_slider combo) by reflexivity. reflexivity.
Qed.

Lemma delete_label_run yes ed rec :
  nth_error (data ed) (i ed) = Some rec ->
  _delete_label ratio listdir read_point_cloud renders yes ed
  = match selected (combo_index ed) (get_Labels rec) with
    | Some k =>
        if yes
        then refresh (with_labels (list_pop (get_Labels rec) k) rec ed)
        else (Some tt, ed)
    | None => (Some tt, ed)
    end.
Proof.
  intros E1. unfold _delete_label. unfold bind at 1, gets at 1.
  erewrite bind_Some by (apply cur_labels_run; exact E1).
  destruct (selected _ _); [|reflexivity].
  destruct yes; [|reflexivity].
  erewrite bind_Some by (apply put_labels_run; exact E1). reflexivity.
Qed.

Lemma add_label_run txt ok ed rec :
  nth_error (data ed) (i ed) = Some rec ->
  _add_label ratio listdir read_point_cloud renders (txt, ok) ed
  = let ed1 := with_labels (get_Labels rec) rec ed in
    if negb ok || String.eqb (Str.strip txt) EmptyString then (Some tt, ed1)
    else
      bind refresh
        (fun _ => bind (gets (fun e => List.length (combo e)))
           (fun n => combo_setCurrentIndex (Z.of_nat n - 1)))
        (with_labels (get_Labels rec ++ [new_label txt (pts ed)])
           (mkRec (File rec) (Some (get_Labels rec))) ed1).
Proof.
  intros E1. cbv zeta. unfold _add_label.
  erewrite bind_Some by (apply cur_rec_run; exact E1).
  erewrite bind_Some by (apply put_labels_run; exact E1).
  destruct (negb ok || String.eqb (Str.strip txt) EmptyString); [reflexivity|].
  unfold bind at 1, gets at 1.
  change (pts (with_labels (get_Labels rec) rec ed)) with (pts ed).
  unfold new_label, new_centre.
  destruct (match pts ed with [] => _ | _ => _ end) as [[x y] z].
  erewrite bind_Some
    by (apply put_labels_run, with_labels_cur, nth_error_Some; congruence).
  reflexivity.
Qed.

End Selector.

(** X7.  [_refresh] rebuilds the selector from the store: when it returns,
    the selector lists the class names of the current frame's labels in
    order, with the first entry selected ([-1] when there is none), the
    active cloud is one that the reader returned, and the store and the
    current record are as before. *)
Theorem refresh_rebuilds_selector
    (ratio : string -> string -> Q) (listdir : list string)
    (read_point_cloud : string -> option (list vec3))
    (renders : list Label -> list vec3 -> bool) (ed : Editor) :
  let run := _refresh ratio listdir read_point_cloud renders ed in
  fst run = Some tt ->
  exists labs,
    frame_labels ed = Some labs
    /\ combo (snd run) = map Class labs
    /\ combo_index (snd run) = (if Nat.eqb (List.length labs) 0 then -1 else 0)%Z
    /\ (exists name, read_point_cloud name = Some (pts (snd run)))
    /\ data (snd run) = data ed /\ i (snd run) = i ed.
Proof.
  intros run H.
  destruct (refresh_success ratio listdir read_point_cloud renders ed H)
    as (rec & name & p & E1 & Ep & _ & Hp & Hc & Hi).
  exists (get_Labels rec). fold run in Hp, Hc, Hi.
  split; [rewrite frame_labels_eq, E1; reflexivity|].
  split; [exact Hc|].
  split; [rewrite Hi; destruct (get_Labels rec); reflexivity|].
  split; [exists name; rewrite Hp; exact Ep|].
  split.
  - apply (keeps_refresh ratio listdir read_point_cloud renders data);
      reflexivity.
  - apply (keeps_refresh ratio listdir read_point_cloud renders i);
      reflexivity.
Qed.

Lemma refresh_rebuilds_selector_witness :
  combo (snd (_refresh Difflib.ratio [] (fun _ => Some [])
                (fun _ _ => true) demo_editor))
  = ["human1"%string].
Proof.
  destruct (refresh_rebuilds_selector Difflib.ratio [] (fun _ => Some [])
              (fun _ _ => true) demo_editor eq_refl)
    as (labs & El & Hc & _).
  rewrite Hc. cbn in El. injection El as <-. reflexivity.
Defined.

(** X8.  The selector stays aligned with the store.  From a state in
    which the selector lists the class names of the current frame's
    labels, it still does after a rectangle commit, a rotation or a rename
    (whether or not the redraw raises), and after a move to another frame,
    a deletion or an addition that returns. *)
Theorem selector_stays_aligned
    (ratio : string -> string -> Q) (listdir : list string)
    (read_point_cloud : string -> option (list vec3))
    (renders : list Label -> list vec3 -> bool) (ed : Editor) :
  aligned ed ->
  (forall roi idx axes, aligned (snd (_roi_moved renders roi idx axes ed)))
  /\ (forall deg, aligned (snd (_rot_bbox renders deg ed)))
  /\ (forall auto_prompt dialog line_text,
        aligned (snd (_rename_label renders auto_prompt dialog line_text ed)))
  /\ (forall idx,
        let run := _goto ratio listdir read_point_cloud renders idx ed in
        fst run = Some tt -> aligned (snd run))
  /\ (forall yes,
        let run := _delete_label ratio listdir read_point_cloud renders yes ed in
        fst run = Some tt -> aligned (snd run))
  /\ (forall dialog,
        let run := _add_label ratio listdir read_point_cloud renders dialog ed in
        fst run = Some tt -> aligned (snd run)).
Proof.
  intros Ha. destruct (aligned_inv ed Ha) as (rec & E1 & Hc).
  split; [|split; [|split; [|split; [|split]]]].
  - intros roi idx axes.
    destruct (roi_moved_cases renders roi idx axes ed rec E1)
      as [-> | (lab & bb & E3 & ->)]; [exact Ha|].
    apply aligned_with_labels; [exact E1|].
    rewrite Hc. apply (classes_upd _ _ lab); [exact E3 | reflexivity].
  - intros deg.
    destruct (rot_bbox_cases renders deg ed rec E1)
      as [-> | (k & lab & bb & E3 & ->)]; [exact Ha|].
    apply aligned_with_labels; [exact E1|].
    rewrite Hc. apply (classes_upd _ _ lab); [exact E3 | reflexivity].
  - intros auto_prompt dialog line_text.
    destruct (rename_label_cases renders auto_prompt dialog line_text ed rec E1)
      as [-> | (k & lab & txt & E3 & ->)]; [exact Ha|].
    assert (Hi : (i ed < List.length (data ed))%nat)
      by (apply nth_error_Some; congruence).
    assert (Hk : (k < List.length (get_Labels rec))%nat)
      by (apply nth_error_Some; congruence).
    set (labs' := firstn k (get_Labels rec) ++ mkLabel txt (BoundingBoxes lab)
                  :: skipn (S k) (get_Labels rec)).
    unfold aligned.
    rewrite (frame_labels_ext (with_labels labs' rec ed));
      [ | apply (keeps_setItemText data); reflexivity
        | apply (keeps_setItemText i); reflexivity ].
    rewrite frame_labels_with_labels by exact Hi. cbn [option_map]. f_equal.
    unfold combo_setItemText, bind, gets, modify, ret.
    change (combo (with_labels labs' rec ed)) with (combo ed).
    rewrite list_set_lt by (rewrite Hc, length_map; exact Hk).
    cbn [snd set_combo combo]. rewrite Hc. unfold labs'.
    rewrite map_app, firstn_map, skipn_map. reflexivity.
  - intros idx run. unfold run. rewrite goto_run.
    destruct ((0 <=? idx) && (idx <? Z.of_nat (List.length (data ed))))%Z;
      [apply aligned_refresh | intros _; exact Ha].
  - intros yes run. unfold run.
    rewrite (delete_label_run ratio listdir read_point_cloud renders yes ed
               rec E1).
    destruct (selected (combo_index ed) (get_Labels rec)) as [k|];
      [|intros _; exact Ha].
    destruct yes; [apply aligned_refresh | intros _; exact Ha].
  - intros [txt ok] run. unfold run.
    rewrite (add_label_run ratio listdir read_point_cloud renders txt ok ed
               rec E1).
    cbv zeta. set (ed1 := with_labels (get_Labels rec) rec ed).
    destruct (negb ok || String.eqb (Str.strip txt) EmptyString).
    { intros _. apply aligned_with_labels; [exact E1 | symmetry; exact Hc]. }
    set (ed2 := with_labels _ _ ed1).
    intros H.
    destruct (bind_success _ _ _ _ H) as ([] & E2 & R2). rewrite R2. clear R2.
    pose proof (aligned_refresh ratio listdir read_point_cloud renders ed2
                  (f_equal fst E2)) as Ha3.
    unfold bind at 1, gets at 1.
    eapply aligned_ext; [ | | | exact Ha3].
    + apply setCurrentIndex_store.
    + apply setCurrentIndex_store.
    + apply setCurrentIndex_combo.
Qed.

Lemma selector_stays_aligned_witness :
  aligned (snd (_rot_bbox (fun _ _ => true) 90 demo_editor)).
Proof.
  apply (selector_stays_aligned Difflib.ratio [] (fun _ => None)
           (fun _ _ => true) demo_editor eq_refl).
Defined.

(** ** Adding, then deleting *)

Lemma list_pop_last {A} (l : list A) x : list_pop (l ++ [x]) (List.length l) = l.
Proof.
  unfold list_pop.
  rewrite firstn_app, firstn_all, Nat.sub_diag. cbn [firstn].
  rewrite skipn_all2 by (rewrite List.length_app; cbn; lia).
  rewrite !app_nil_r. reflexivity.
Qed.

(** X9.  A cancelled or blank [_add_label] returns and adds no label, but
    it is not always without effect: [setdefault] has run before the
    dialog, so a record that had no ["Labels"] key now carries an empty
    list under it.  When the key was there, no field of the editor has
    changed. *)
Theorem add_label_cancelled
    (ratio : string -> string -> Q) (listdir : list string)
    (read_point_cloud : string -> option (list vec3))
    (renders : list Label -> list vec3 -> bool)
    (ed : Editor) (rec : Rec) (txt : string) (ok : bool) :
  nth_error (data ed) (i ed) = Some rec ->
  ok = false \/ Str.strip txt = EmptyString ->
  let run := _add_label ratio listdir read_point_cloud renders (txt, ok) ed in
  fst run = Some tt
  /\ (Labels rec <> None -> snd run = ed)
  /\ (Labels rec = None ->
      nth_error (data (snd run)) (i ed) = Some (mkRec (File rec) (Some []))
      /\ snd run <> ed).
Proof.
  intros E1 Hc run. unfold run.
  rewrite (add_label_run ratio listdir read_point_cloud renders txt ok ed rec E1).
  cbv zeta.
  assert (Hg : negb ok || String.eqb (Str.strip txt) EmptyString = true).
  { destruct Hc as [-> | ->]; [reflexivity|]. apply orb_true_r. }
  rewrite Hg. cbn [fst snd].
  assert (Hi : (i ed < List.length (data ed))%nat)
    by (apply nth_error_Some; congruence).
  split; [reflexivity|]. split.
  - intros Hl. destruct (Labels rec) as [labs|] eqn:El; [|contradiction].
    apply with_labels_id; [exact E1|].
    unfold get_Labels. rewrite El. reflexivity.
  - intros Hl. unfold get_Labels. rewrite Hl.
    pose proof (with_labels_cur [] rec ed Hi) as Hw.
    change (i (with_labels [] rec ed)) with (i ed) in Hw.
    split; [exact Hw|].
    intros E. rewrite E in Hw. rewrite E1 in Hw. injection Hw as Hw.
    rewrite Hw in Hl. discriminate.
Qed.

Lemma add_label_cancelled_witness :
  nth_error
    (data (snd (_add_label Difflib.ratio [] (fun _ => None) (fun _ _ => true)
                  ("human1"%string, false)
                  (mkEditor [file_rec "a.pcd"] 0 [] [] (-1) 0))))
    0
  = Some (mkRec (Some "a.pcd"%string) (Some [])).
Proof.
  apply (add_label_cancelled Difflib.ratio [] (fun _ => None) (fun _ _ => true)
           (mkEditor [file_rec "a.pcd"] 0 [] [] (-1) 0) (file_rec "a.pcd")
           "human1" false eq_refl (or_introl eq_refl)).
  reflexivity.
Defined.

(** X10.  An addition that returns leaves the new label selected, so a
    confirmed deletion right after it removes exactly the label that was
    added: the frame's label sequence is what it was before the two
    calls. *)
Theorem add_then_delete_restores
    (ratio : string -> string -> Q) (listdir : list string)
    (read_point_cloud : string -> option (list vec3))
    (renders : list Label -> list vec3 -> bool)
    (ed : Editor) (labs : list Label) (txt : string) :
  frame_labels ed = Some labs ->
  Str.strip txt <> EmptyString ->
  let added :=
    _add_label ratio listdir read_point_cloud renders (txt, true) ed in
  fst added = Some tt ->
  combo_index (snd added) = Z.of_nat (List.length labs)
  /\ frame_labels
       (snd (_delete_label ratio listdir read_point_cloud renders true
               (snd added)))
     = Some labs.
Proof.
  intros El Hne added Hok.
  assert (Hfl : frame_labels (snd added)
                = Some (labs ++ [new_label txt (pts ed)])).
  { unfold added.
    rewrite (add_label_state ratio listdir read_point_cloud renders ed labs
               txt true El).
    apply String.eqb_neq in Hne. rewrite Hne. reflexivity. }
  assert (Hidx : combo_index (snd added) = Z.of_nat (List.length labs)).
  { destruct (frame_labels_inv ed labs El) as (rec & E1 & EL).
    assert (Hi : (i ed < List.length (data ed))%nat)
      by (apply nth_error_Some; congruence).
    unfold added in *.
    rewrite (add_label_run ratio listdir read_point_cloud renders txt true ed
               rec E1) in *.
    cbv zeta in *.
    apply String.eqb_neq in Hne. rewrite Hne in *. cbn [negb orb] in *.
    set (ed2 := with_labels _ _ _) in *.
    destruct (bind_success _ _ _ _ Hok) as ([] & E2 & R2).
    rewrite R2 in *. clear R2.
    destruct (refresh_success ratio listdir read_point_cloud renders ed2
                (f_equal fst E2)) as (rec2 & _ & _ & En & _ & _ & _ & Hc & _).
    unfold ed2 in En at 1 2.
    rewrite with_labels_cur in En
      by (change (i (with_labels (get_Labels rec) rec ed)) with (i ed);
          unfold with_labels, set_data; cbn [data i];
          rewrite List.length_app, length_firstn; cbn [List.length];
          rewrite length_skipn; lia).
    injection En as <-.
    unfold bind at 1, gets at 1. rewrite setCurrentIndex_index.
    rewrite Hc. cbn [get_Labels Labels].
    rewrite length_map, List.length_app, EL. cbn [List.length]. lia. }
  split; [exact Hidx|].
  rewrite (delete_label_state ratio listdir read_point_cloud renders
             (snd added) (List.length labs) _ Hidx Hfl)
    by (rewrite List.length_app; cbn; lia).
  rewrite list_pop_last. reflexivity.
Qed.

Lemma add_then_delete_restores_witness :
  frame_labels
    (snd (_delete_label Difflib.ratio [] (fun _ => Some []) (fun _ _ => true)
            true
            (snd (_add_label Difflib.ratio [] (fun _ => Some [])
                    (fun _ _ => true) ("human2"%string, true) demo_editor))))
  = Some [demo_label].
Proof.
  apply (add_then_delete_restores Difflib.ratio [] (fun _ => Some [])
           (fun _ _ => true) demo_editor [demo_label] "human2" eq_refl).
  - cbn. discriminate.
  - reflexivity.
Defined.

(** ** More on the reconciliation *)

Lemma insert_by_front {A} (ltb : A -> A -> bool) x l :
  Forall (le_of ltb x) l -> insert_by ltb x l = x :: l.
Proof.
  intros H. destruct l as [|y t]; [reflexivity|]. cbn.
  inversion H as [|? ? Hy _]; subst. unfold le_of in Hy. rewrite Hy.
  reflexivity.
Qed.

(** Sorting a sorted list returns it. *)
Lemma sort_by_sorted_id {A} (ltb : A -> A -> bool) l :
  StronglySorted (le_of ltb) l -> sort_by ltb l = l.
Proof.
  induction 1 as [|x t Ht IH Hx]; [reflexivity|]. cbn.
  rewrite IH. apply insert_by_front. exact Hx.
Qed.

Lemma new_files_abort ratio basenames cutoff data e :
  new_files ratio basenames cutoff data = inl e -> e <> SyncComplete.
Proof.
  induction data as [|rec rest IH]; cbn [new_files]; [discriminate|].
  destruct (Difflib.get_close_matches _ _ _ _ _) as [[|m r]|];
    try (intros E; injection E as <-; discriminate).
  destruct (new_files ratio basenames cutoff rest) as [e'|fs]; [|discriminate].
  intros E. injection E as <-. apply IH. reflexivity.
Qed.

Lemma new_files_cutoff ratio basenames cutoff rec rest fs :
  new_files ratio basenames cutoff (rec :: rest) = inr fs -> 0 <= cutoff <= 1.
Proof.
  cbn [new_files].
  destruct (Difflib.get_close_matches _ _ _ _ _) as [r|] eqn:E; [|discriminate].
  intros _. apply get_close_matches_one in E. apply E.
Qed.

(** What a run that ends with "Sync complete" has done. *)
Lemma sync_complete_inv ratio stored listing cutoff out :
  sync_json_pcd_filenames ratio stored listing cutoff = (SyncComplete, out) ->
  exists ms,
    List.length stored = List.length (pcd_files listing)
    /\ new_files ratio (map Str.stem (pcd_files listing)) cutoff stored
       = inr (map (fun m => (m ++ ".pcd")%string) ms)
    /\ Forall2 (fun rec m =>
                  best_match ratio (Str.stem (get_File rec))
                    (map Str.stem (pcd_files listing)) cutoff m) stored ms
    /\ out = sort_records
               (rewrite_files stored (map (fun m => (m ++ ".pcd")%string) ms)).
Proof.
  unfold sync_json_pcd_filenames.
  destruct (Nat.eqb_spec (List.length stored) (List.length (pcd_files listing)))
    as [Hlen | Hlen]; cbn [negb]; [|discriminate].
  destruct (new_files ratio _ cutoff stored) as [e|fs] eqn:Hfs.
  - intros E. injection E as -> _.
    exfalso. apply (new_files_abort _ _ _ _ _ Hfs). reflexivity.
  - intros E. injection E as <-.
    destruct (new_files_matched ratio _ cutoff stored fs Hfs) as (ms & -> & Hms).
    exists ms. auto.
Qed.

Lemma rewrite_files_labels data fs :
  List.length fs = List.length data ->
  map Labels (rewrite_files data fs) = map Labels data.
Proof.
  unfold rewrite_files. revert fs.
  induction data as [|rec rest IH]; intros [|f fs] H; cbn in *;
    try discriminate; [reflexivity|].
  f_equal. apply IH. lia.
Qed.

Lemma rewrite_files_same data :
  Forall (fun r => File r <> None) data ->
  rewrite_files data (map get_File data) = data.
Proof.
  unfold rewrite_files. induction 1 as [|r t Hr _ IH]; [reflexivity|].
  cbn. rewrite IH. f_equal.
  destruct r as [[f|] l]; [reflexivity | contradiction].
Qed.

Lemma best_match_exact ratio names cutoff b m :
  cutoff <= 1 -> In b names -> exact_on ratio names b ->
  best_match ratio b names cutoff m -> m = b.
Proof.
  intros Hcut Hin [Hself Hother] (Hm & Hc & Hmax).
  destruct (string_dec m b) as [E | Hne]; [exact E|].
  exfalso. specialize (Hother m Hm Hne).
  assert (Hcb : cutoff <= ratio b b) by (rewrite Hself; exact Hcut).
  destruct (Hmax _ Hin Hcb) as [Hlt | [Heq _]].
  - rewrite Hself in Hlt. apply (Qlt_irrefl 1). apply (Qlt_trans _ _ _ Hlt Hother).
  - rewrite Hself in Heq. rewrite <- Heq in Hother. apply (Qlt_irrefl _ Hother).
Qed.

(** On records that carry the name of a file whose stem scores exactly,
    the first loop returns the names they carry. *)
Lemma new_files_fixed ratio basenames cutoff data :
  0 <= cutoff <= 1 ->
  Forall (fun r =>
            exists m, In m basenames /\ exact_on ratio basenames m
                      /\ Str.stem (get_File r) = m
                      /\ get_File r = (m ++ ".pcd")%string) data ->
  new_files ratio basenames cutoff data = inr (map get_File data).
Proof.
  intros Hcut. induction 1 as [|r t (m & Hm & Hex & Hst & Hf) _ IH];
    [reflexivity|].
  cbn [new_files map]. rewrite IH, Hst.
  destruct (get_close_matches_valid ratio m basenames cutoff Hcut) as [res Er].
  rewrite Er. apply get_close_matches_one in Er as [_ Hres].
  destruct res as [|m' res'].
  - exfalso. apply (Hres m Hm). destruct Hex as [Hself _]. rewrite Hself.
    apply Hcut.
  - destruct Hres as [_ Hbest].
    rewrite (best_match_exact ratio basenames cutoff m m' (proj2 Hcut) Hm Hex
               Hbest).
    rewrite Hf. reflexivity.
Qed.

Lemma in_Forall2_r {A B} (R : A -> B -> Prop) l l' y :
  Forall2 R l l' -> In y l' -> exists x, In x l /\ R x y.
Proof.
  induction 1 as [|a b l l' Hab _ IH]; [contradiction|].
  intros [<- | Hy].
  - exists a. split; [left; reflexivity | exact Hab].
  - destruct (IH Hy) as (x & Hx & Hr). exists x. split; [right|]; assumption.
Qed.

(** The records a completed run stores. *)
Lemma sync_complete_records ratio stored listing cutoff out :
  sync_json_pcd_filenames ratio stored listing cutoff = (SyncComplete, out) ->
  Forall (fun r =>
            exists rec f,
              In rec stored /\ In f (pcd_files listing)
              /\ r = mkRec (Some (Str.stem f ++ ".pcd")%string) (Labels rec)
              /\ Str.stem (Str.stem f ++ ".pcd") = Str.stem f) out.
Proof.
  intros H. destruct (sync_complete_inv _ _ _ _ _ H) as (ms & _ & _ & Hms & ->).
  apply Forall_forall. intros r Hr.
  apply (Permutation_in _ (sort_records_perm _)) in Hr.
  apply in_rewrite_files in Hr as (rec & m & Hrec & Hm & ->).
  destruct (in_Forall2_r _ _ _ _ Hms Hm) as (rec' & _ & (Hb & _)).
  apply in_map_iff in Hb as (f & <- & Hf).
  exists rec, f. split; [exact Hrec|]. split; [exact Hf|].
  split; [reflexivity|].
  unfold Str.stem at 1. rewrite stem_pcd; [reflexivity|].
  unfold pcd_files in Hf. apply filter_In in Hf. apply Hf.
Qed.

Lemma endswith_app s t : Str.endswith (s ++ t) t = true.
Proof.
  unfold Str.endswith. rewrite length_app.
  replace (String.length s + String.length t - String.length t)%nat
    with (String.length s) by lia.
  rewrite substring_app_r, String.eqb_refl.
  destruct (Nat.leb_spec (String.length t) (String.length s + String.length t));
    [reflexivity | lia].
Qed.

Lemma load_cloud_by_name ratio listdir read_point_cloud ed rec :
  nth_error (data ed) (i ed) = Some rec ->
  Str.endswith (get_File rec) ".pcd" = true ->
  _load_cloud ratio listdir read_point_cloud ed
  = match read_point_cloud (get_File rec) with
    | Some p => (Some tt, set_pts p ed)
    | None => (None, ed)
    end.
Proof.
  intros E1 He. unfold _load_cloud.
  erewrite bind_Some by (apply cur_rec_run; exact E1).
  rewrite He. unfold bind, lift, ret, raise, modify. cbn.
  destruct (read_point_cloud (get_File rec)); reflexivity.
Qed.

(** X11.  A completed run loses no record and no label: the stored
    records carry the ["Labels"] values of the input records, each as often
    as before, every stored record has a ["File"] key, and there are as
    many records as point-cloud files. *)
Theorem sync_keeps_labels
    (ratio : string -> string -> Q) (stored : list Rec)
    (listing : list string) (cutoff : Q) (out : list Rec) :
  sync_json_pcd_filenames ratio stored listing cutoff = (SyncComplete, out) ->
  Permutation (map Labels out) (map Labels stored)
  /\ List.length out = List.length (pcd_files listing)
  /\ Forall (fun r => File r <> None) out.
Proof.
  intros H.
  destruct (sync_complete_inv _ _ _ _ _ H) as (ms & Hlen & _ & Hms & Hout).
  split; [|split].
  - rewrite Hout.
    rewrite (Permutation_map Labels (sort_records_perm _)).
    rewrite rewrite_files_labels; [reflexivity|].
    rewrite length_map. symmetry. apply (Forall2_length Hms).
  - rewrite <- Hlen.
    apply (f_equal (@List.length _)) in Hout. rewrite Hout.
    rewrite (Permutation_length (sort_records_perm _)).
    unfold rewrite_files. rewrite length_map, length_combine, length_map.
    rewrite <- (Forall2_length Hms). lia.
  - eapply Forall_impl; [|apply (sync_complete_records _ _ _ _ _ H)].
    intros r (rec & f & _ & _ & -> & _). discriminate.
Qed.

Lemma sync_keeps_labels_witness :
  Permutation
    (map Labels [mkRec (Some "scan_a.pcd"%string) (Some [demo_label]);
                 mkRec (Some "scan_b.pcd"%string) None])
    (map Labels [mkRec (Some "scan_b.json"%string) None;
                 mkRec (Some "scan_a"%string) (Some [demo_label])]).
Proof.
  apply (sync_keeps_labels Difflib.ratio
           [mkRec (Some "scan_b.json"%string) None;
            mkRec (Some "scan_a"%string) (Some [demo_label])]
           ["scan_a.PCD"; "notes.txt"; "scan_b.pcd"]%string default_cutoff).
  vm_compute. reflexivity.
Defined.

(** X12.  Reconciliation is idempotent: when a run has ended with "Sync
    complete" and every file stem scores [1] against itself and less
    against the other stems, a second run over what the first one stored
    ends with "Sync complete" as well and stores the same records in the
    same order. *)
Theorem sync_idempotent
    (ratio : string -> string -> Q) (stored : list Rec)
    (listing : list string) (cutoff : Q) (out : list Rec) :
  let basenames := map Str.stem (pcd_files listing) in
  sync_json_pcd_filenames ratio stored listing cutoff = (SyncComplete, out) ->
  Forall (exact_on ratio basenames) basenames ->
  sync_json_pcd_filenames ratio out listing cutoff = (SyncComplete, out).
Proof.
  intros basenames H Hex.
  pose proof (sync_complete_records _ _ _ _ _ H) as Hrecs.
  destruct (sync_complete_inv _ _ _ _ _ H) as (ms & Hlen & Hfs & Hms & Hout).
  assert (Hlen' : List.length out = List.length (pcd_files listing)).
  { rewrite <- Hlen. apply (f_equal (@List.length _)) in Hout. rewrite Hout.
    rewrite (Permutation_length (sort_records_perm _)).
    unfold rewrite_files. rewrite length_map, length_combine, length_map.
    rewrite <- (Forall2_length Hms). lia. }
  assert (Hsorted : sort_records out = out).
  { unfold sort_records. apply (sort_by_sorted_id key_ltb).
    rewrite Hout. apply sort_records_sorted. }
  unfold sync_json_pcd_filenames. rewrite Hlen', Nat.eqb_refl. cbn [negb].
  fold basenames.
  destruct out as [|r0 out'].
  { reflexivity. }
  assert (Hcut : 0 <= cutoff <= 1).
  { destruct stored as [|rec rest].
    - destruct (pcd_files listing); [discriminate Hlen' | discriminate Hlen].
    - apply (new_files_cutoff _ _ _ _ _ _ Hfs). }
  rewrite (new_files_fixed ratio basenames cutoff (r0 :: out') Hcut).
  - rewrite rewrite_files_same, Hsorted; [reflexivity|].
    eapply Forall_impl; [|exact Hrecs].
    intros r (rec & f & _ & _ & -> & _). discriminate.
  - eapply Forall_impl; [|exact Hrecs].
    intros r (rec & f & _ & Hf & -> & Hst).
    exists (Str.stem f).
    assert (Hb : In (Str.stem f) basenames) by (apply in_map; exact Hf).
    split; [exact Hb|].
    split; [apply (proj1 (Forall_forall _ _) Hex _ Hb)|].
    split; [exact Hst | reflexivity].
Qed.

Lemma sync_idempotent_witness :
  sync_json_pcd_filenames Difflib.ratio
    [file_rec "scan_a.pcd"; file_rec "scan_b.pcd"]%string
    ["scan_a.PCD"; "notes.txt"; "scan_b.pcd"]%string default_cutoff
  = (SyncComplete, [file_rec "scan_a.pcd"; file_rec "scan_b.pcd"]%string).
Proof.
  apply (sync_idempotent Difflib.ratio
           [file_rec "scan_b.json"; file_rec "scan_a"]%string
           ["scan_a.PCD"; "notes.txt"; "scan_b.pcd"]%string default_cutoff).
  - vm_compute. reflexivity.
  - apply Forall_cons; [apply ratio_exact_on; apply Nat.ltb_lt; vm_compute; reflexivity|].
    apply Forall_cons; [apply ratio_exact_on; apply Nat.ltb_lt; vm_compute; reflexivity|].
    apply Forall_nil.
Defined.

(** X13.  How an aborted run ends, for equal counts.  With a cutoff in
    [[0, 1]] the warning names the first record, in file order, that has
    no candidate at or above the cutoff.  With a cutoff outside [[0, 1]]
    and at least one record, [get_close_matches] raises on the first
    record.  The file holds what it held in both cases. *)
Theorem sync_reports_first_unmatched
    (ratio : string -> string -> Q) (stored : list Rec)
    (listing : list string) (cutoff : Q) :
  let basenames := map Str.stem (pcd_files listing) in
  let run := sync_json_pcd_filenames ratio stored listing cutoff in
  List.length stored = List.length (pcd_files listing) ->
  (0 <= cutoff <= 1 ->
   forall pre rec post,
     stored = pre ++ rec :: post ->
     Forall (fun r => ~ unmatched ratio basenames cutoff r) pre ->
     unmatched ratio basenames cutoff rec ->
     run = (NoFuzzyMatch (get_File rec), stored))
  /\ (~ 0 <= cutoff <= 1 -> stored <> [] -> run = (CutoffError, stored)).
Proof.
  intros basenames run Hlen. unfold run, sync_json_pcd_filenames.
  rewrite Hlen, Nat.eqb_refl. cbn [negb]. fold basenames. split.
  - intros Hcut pre rec post -> Hpre Hrec.
    assert (E : new_files ratio basenames cutoff (pre ++ rec :: post)
                = inl (NoFuzzyMatch (get_File rec))).
    { clear Hlen. induction Hpre as [|r t Hr _ IH]; cbn [app new_files].
      - destruct (get_close_matches_valid ratio (Str.stem (get_File rec))
                    basenames cutoff Hcut) as [res Er].
        rewrite Er. apply get_close_matches_one in Er as [_ Hres].
        destruct res as [|m res']; [reflexivity|].
        exfalso. destruct Hres as [_ (Hm & Hc & _)]. apply (Hrec m Hm Hc).
      - destruct (get_close_matches_valid ratio (Str.stem (get_File r))
                    basenames cutoff Hcut) as [res Er].
        rewrite Er. apply get_close_matches_one in Er as [_ Hres].
        destruct res as [|m res'].
        + exfalso. apply Hr. exact Hres.
        + rewrite IH. reflexivity. }
    rewrite E. reflexivity.
  - intros Hcut Hne. destruct stored as [|rec rest]; [contradiction|].
    cbn [new_files].
    destruct (Difflib.get_close_matches ratio (Str.stem (get_File rec))
                basenames 1 cutoff) as [res|] eqn:Er; [|reflexivity].
    exfalso. apply Hcut. apply get_close_matches_one in Er. apply Er.
Qed.

Lemma sync_reports_first_unmatched_witness :
  sync_json_pcd_filenames Difflib.ratio
    [file_rec "scan_b.json"; file_rec "zzz"; file_rec "yyy"]%string
    ["scan_a.PCD"; "scan_c.pcd"; "scan_b.pcd"]%string default_cutoff
  = (NoFuzzyMatch "zzz",
     [file_rec "scan_b.json"; file_rec "zzz"; file_rec "yyy"]%string).
Proof.
  refine (proj1 (sync_reports_first_unmatched Difflib.ratio
            [file_rec "scan_b.json"; file_rec "zzz"; file_rec "yyy"]%string
            ["scan_a.PCD"; "scan_c.pcd"; "scan_b.pcd"]%string default_cutoff
            eq_refl) _ [file_rec "scan_b.json"]%string (file_rec "zzz")
            [file_rec "yyy"]%string eq_refl _ _).
  - split; vm_compute; discriminate.
  - repeat constructor. intros Hu.
    apply (Hu "scan_b"%string); [vm_compute; auto | vm_compute; discriminate].
  - intros x [<- | [<- | [<- | []]]]; apply Qlt_not_le; reflexivity.
Defined.

(** ** From the reconciled file to the editor *)

(** X14.  After a completed run the editor never needs its fuzzy lookup:
    every stored name ends with [".pcd"], so on every frame of the stored
    records [_load_cloud] reads the cloud under exactly the name the record
    carries, whatever the folder lists, and raises when that read does. *)
Theorem synced_store_loads_by_name
    (ratio : string -> string -> Q) (stored : list Rec)
    (listing : list string) (cutoff : Q) (out : list Rec)
    (ratio' : string -> string -> Q) (listdir : list string)
    (read_point_cloud : string -> option (list vec3)) (ed : Editor) :
  sync_json_pcd_filenames ratio stored listing cutoff = (SyncComplete, out) ->
  data ed = out -> (i ed < List.length out)%nat ->
  exists rec g,
    nth_error out (i ed) = Some rec
    /\ In g (pcd_files listing)
    /\ File rec = Some (Str.stem g ++ ".pcd")%string
    /\ _load_cloud ratio' listdir read_point_cloud ed
       = match read_point_cloud (Str.stem g ++ ".pcd")%string with
         | Some p => (Some tt, set_pts p ed)
         | None => (None, ed)
         end.
Proof.
  intros H Hd Hi.
  destruct (nth_error out (i ed)) as [rec|] eqn:E1;
    [|apply nth_error_None in E1; lia].
  pose proof (sync_complete_records _ _ _ _ _ H) as Hrecs.
  destruct (proj1 (Forall_forall _ _) Hrecs rec (nth_error_In _ _ E1))
    as (rec0 & g & _ & Hg & -> & _).
  exists (mkRec (Some (Str.stem g ++ ".pcd")%string) (Labels rec0)), g.
  split; [reflexivity|]. split; [exact Hg|]. split; [reflexivity|].
  rewrite <- Hd in E1.
  rewrite (load_cloud_by_name ratio' listdir read_point_cloud ed _ E1);
    [reflexivity|].
  apply endswith_app.
Qed.

Lemma synced_store_loads_by_name_witness :
  exists rec g,
    nth_error [file_rec "scan_a.pcd"; file_rec "scan_b.pcd"]%string 1 = Some rec
    /\ In g (pcd_files ["scan_a.PCD"; "notes.txt"; "scan_b.pcd"]%string)
    /\ File rec = Some (Str.stem g ++ ".pcd")%string.
Proof.
  destruct (synced_store_loads_by_name Difflib.ratio
              [file_rec "scan_b.json"; file_rec "scan_a"]%string
              ["scan_a.PCD"; "notes.txt"; "scan_b.pcd"]%string default_cutoff
              [file_rec "scan_a.pcd"; file_rec "scan_b.pcd"]%string
              Difflib.ratio [] (fun _ => None)
              (mkEditor [file_rec "scan_a.pcd"; file_rec "scan_b.pcd"]%string
                 1 [] [] (-1) 0))
    as (rec & g & E & Hg & Hf & _).
  - vm_compute. reflexivity.
  - reflexivity.
  - cbn. lia.
  - exists rec, g. auto.
Defined.

Lemma sync_abort_state ratio stored listing cutoff :
  fst (sync_json_pcd_filenames ratio stored listing cutoff) <> SyncComplete ->
  snd (sync_json_pcd_filenames ratio stored listing cutoff) = stored.
Proof.
  unfold sync_json_pcd_filenames.
  destruct (negb _); [reflexivity|].
  destruct (new_files _ _ _ _); [reflexivity|]. cbn. contradiction.
Qed.

Lemma init_inv ratio listdir read_point_cloud renders stored ed :
  __init__ ratio listdir read_point_cloud renders stored = Some ed ->
  fst (_refresh ratio listdir read_point_cloud renders
         (mkEditor stored 0 [] [] (-1) 0)) = Some tt
  /\ ed = snd (_refresh ratio listdir read_point_cloud renders
                 (mkEditor stored 0 [] [] (-1) 0)).
Proof.
  unfold __init__.
  destruct (_refresh _ _ _ _ _) as [[[]|] e]; [|discriminate].
  intros E. injection E as <-. auto.
Qed.

(** X15.  The constructor raises on a file with no record (the first
    [self.data[self.i]] fails).  When it returns, the editor holds the
    file's records unchanged, shows the first one, and its selector lists
    the class names of that record's labels with the first of them
    selected. *)
Theorem init_opens_first_record
    (ratio : string -> string -> Q) (listdir : list string)
    (read_point_cloud : string -> option (list vec3))
    (renders : list Label -> list vec3 -> bool) (stored : list Rec) :
  let new := __init__ ratio listdir read_point_cloud renders stored in
  (stored = [] -> new = None)
  /\ forall ed, new = Some ed ->
       data ed = stored /\ i ed = 0%nat /\ aligned ed
       /\ exists rec,
            nth_error stored 0 = Some rec
            /\ combo ed = map Class (get_Labels rec)
            /\ combo_index ed
               = (if Nat.eqb (List.length (get_Labels rec)) 0 then -1 else 0)%Z.
Proof.
  intros new. split.
  - intros ->. reflexivity.
  - intros ed E. apply init_inv in E as [Hok ->].
    set (ed0 := mkEditor stored 0 [] [] (-1) 0) in *.
    split.
    { apply (keeps_refresh ratio listdir read_point_cloud renders data);
        reflexivity. }
    split.
    { apply (keeps_refresh ratio listdir read_point_cloud renders i);
        reflexivity. }
    split; [apply aligned_refresh; exact Hok|].
    destruct (refresh_success ratio listdir read_point_cloud renders ed0 Hok)
      as (rec & _ & _ & E1 & _ & _ & _ & Hc & Hi).
    exists rec. split; [exact E1|]. split; [exact Hc|].
    rewrite Hi. destruct (get_Labels rec); reflexivity.
Qed.

Lemma init_opens_first_record_witness :
  __init__ Difflib.ratio [] (fun _ => Some []) (fun _ _ => true) [] = None.
Proof.
  apply (proj1 (init_opens_first_record Difflib.ratio [] (fun _ => Some [])
                  (fun _ _ => true) [])).
  reflexivity.
Defined.

(** X16.  The entry point.  The editor is built on what the reconciliation
    left in the file: the untouched records when it aborted, the rewritten
    and sorted ones when it completed.  In the second case the cloud the
    editor shows first was read under the name that the first stored
    record now carries. *)
Theorem main_opens_what_sync_left
    (ratio : string -> string -> Q) (listdir : list string)
    (read_point_cloud : string -> option (list vec3))
    (renders : list Label -> list vec3 -> bool) (stored : list Rec) :
  let run := main ratio listdir read_point_cloud renders stored in
  let outcome :=
    fst (sync_json_pcd_filenames ratio stored listdir default_cutoff) in
  (outcome <> SyncComplete -> fst run = stored)
  /\ forall ed, snd run = Some ed ->
       data ed = fst run /\ i ed = 0%nat
       /\ (outcome = SyncComplete ->
           exists rec f,
             nth_error (fst run) 0 = Some rec /\ File rec = Some f
             /\ read_point_cloud f = Some (pts ed)).
Proof.
  intros run outcome. unfold run, outcome, main. cbn [fst snd]. split.
  - apply sync_abort_state.
  - intros ed E.
    set (out := snd (sync_json_pcd_filenames ratio stored listdir
                       default_cutoff)) in *.
    apply init_inv in E as [Hok ->].
    set (ed0 := mkEditor out 0 [] [] (-1) 0) in *.
    split.
    { apply (keeps_refresh ratio listdir read_point_cloud renders data);
        reflexivity. }
    split.
    { apply (keeps_refresh ratio listdir read_point_cloud renders i);
        reflexivity. }
    intros Hc.
    destruct (refresh_success ratio listdir read_point_cloud renders ed0 Hok)
      as (rec & name & p & E1 & _ & El & Hp & _).
    assert (Hs : sync_json_pcd_filenames ratio stored listdir default_cutoff
                 = (SyncComplete, out)).
    { unfold out. rewrite <- Hc. apply surjective_pairing. }
    pose proof (sync_complete_records _ _ _ _ _ Hs) as Hrecs.
    change (nth_error out 0 = Some rec) in E1.
    destruct (proj1 (Forall_forall _ _) Hrecs rec (nth_error_In _ _ E1))
      as (rec0 & g & _ & _ & -> & _).
    eexists. eexists. split; [exact E1|]. split; [reflexivity|].
    rewrite (load_cloud_by_name ratio listdir read_point_cloud ed0 _ E1)
      in El by apply endswith_app.
    cbn [get_File File] in El.
    destruct (read_point_cloud (Str.stem g ++ ".pcd")%string) as [p'|];
      [|discriminate].
    injection El as El. rewrite Hp, El. reflexivity.
Qed.

Lemma main_opens_what_sync_left_witness :
  fst (main Difflib.ratio ["scan_a.pcd"; "scan_b.pcd"]%string
         (fun _ => Some []) (fun _ _ => true) [file_rec "scan_b.json"]%string)
  = [file_rec "scan_b.json"]%string.
Proof.
  apply (proj1 (main_opens_what_sync_left Difflib.ratio
                  ["scan_a.pcd"; "scan_b.pcd"]%string (fun _ => Some [])
                  (fun _ _ => true) [file_rec "scan_b.json"]%string)).
  vm_compute. discriminate.
Defined.

(** ** What is drawn for a box *)

Open Scope R_scope.

Lemma fold_min_spec t x :
  In (fold_left Rmin t x) (x :: t)
  /\ forall y, In y (x :: t) -> fold_left Rmin t x <= y.
Proof.
  revert x. induction t as [|a t IH]; intros x; cbn [fold_left].
  - split; [left; reflexivity|]. intros y [<- | []]. lra.
  - destruct (IH (Rmin x a)) as [Hin Hle]. split.
    + destruct Hin as [E | Hin]; [|right; right; exact Hin].
      rewrite <- E. unfold Rmin. destruct (Rle_dec x a); cbn; auto.
    + intros y Hy.
      assert (Hm : fold_left Rmin t (Rmin x a) <= Rmin x a)
        by (apply Hle; left; reflexivity).
      destruct Hy as [<- | [<- | Hy]].
      * pose proof (Rmin_l x a). lra.
      * pose proof (Rmin_r x a). lra.
      * apply Hle. right. exact Hy.
Qed.

Lemma fold_max_spec t x :
  In (fold_left Rmax t x) (x :: t)
  /\ forall y, In y (x :: t) -> y <= fold_left Rmax t x.
Proof.
  revert x. induction t as [|a t IH]; intros x; cbn [fold_left].
  - split; [left; reflexivity|]. intros y [<- | []]. lra.
  - destruct (IH (Rmax x a)) as [Hin Hle]. split.
    + destruct Hin as [E | Hin]; [|right; right; exact Hin].
      rewrite <- E. unfold Rmax. destruct (Rle_dec x a); cbn; auto.
    + intros y Hy.
      assert (Hm : Rmax x a <= fold_left Rmax t (Rmax x a))
        by (apply Hle; left; reflexivity).
      destruct Hy as [<- | [<- | Hy]].
      * pose proof (Rmax_l x a). lra.
      * pose proof (Rmax_r x a). lra.
      * apply Hle. right. exact Hy.
Qed.

(** A member that bounds the column from below is its minimum. *)
Lemma amin_is l m :
  In m l -> (forall y, In y l -> m <= y) -> amin l = Some m.
Proof.
  destruct l as [|x t]; [contradiction|]. intros Hin Hle. cbn [amin].
  destruct (fold_min_spec t x) as [Hin' Hle']. f_equal.
  apply Rle_antisym; [apply Hle'; exact Hin | apply Hle; exact Hin'].
Qed.

Lemma amax_is l m :
  In m l -> (forall y, In y l -> y <= m) -> amax l = Some m.
Proof.
  destruct l as [|x t]; [contradiction|]. intros Hin Hle. cbn [amax].
  destruct (fold_max_spec t x) as [Hin' Hle']. f_equal.
  apply Rle_antisym; [apply Hle; exact Hin' | apply Hle'; exact Hin].
Qed.

Ltac pick_member :=
  cbn [In]; first [left; lra | right; pick_member].

(** The extreme values of [c + s1 * a + s2 * b] over the four sign
    patterns. *)
Lemma amin_signs c a b l :
  (forall y, In y l ->
     y = c + a + b \/ y = c + a - b \/ y = c - a + b \/ y = c - a - b) ->
  In (c + a + b) l -> In (c + a - b) l -> In (c - a + b) l ->
  In (c - a - b) l ->
  amin l = Some (c - (Rabs a + Rabs b))
  /\ amax l = Some (c + (Rabs a + Rabs b)).
Proof.
  intros Hall H1 H2 H3 H4.
  unfold Rabs. destruct (Rcase_abs a) as [Ha | Ha];
    destruct (Rcase_abs b) as [Hb | Hb]; split;
    first [apply amin_is | apply amax_is];
    try (intros y Hy; destruct (Hall y Hy) as [-> | [-> | [-> | ->]]]; lra).
  all: match goal with
       | |- In ?m _ =>
           first
             [ replace m with (c + a + b) by lra; assumption
             | replace m with (c + a - b) by lra; assumption
             | replace m with (c - a + b) by lra; assumption
             | replace m with (c - a - b) by lra; assumption ]
       end.
Qed.

Lemma Rabs_half x : Rabs (x / 2) = Rabs x / 2.
Proof.
  unfold Rdiv. rewrite Rabs_mult, (Rabs_right (/ 2)) by lra. reflexivity.
Qed.


(** The rectangles of the three views, as [_draw_all] computes them. *)
Lemma draw_roi_rect (cx cy cz w h d yaw : R) :
  let c := _corners cx cy cz w h d yaw in
  let ex := Rabs (w * cos yaw) + Rabs (h * sin yaw) in
  let ey := Rabs (w * sin yaw) + Rabs (h * cos yaw) in
  let ez := Rabs d in
  draw_roi c (0, 1)%Z = Some (mkROI (cx - ex / 2, cy - ey / 2) (ex, ey))
  /\ draw_roi c (0, 2)%Z = Some (mkROI (cx - ex / 2, cz - ez / 2) (ex, ez))
  /\ draw_roi c (1, 2)%Z = Some (mkROI (cy - ey / 2, cz - ez / 2) (ey, ez)).
Proof.
  intros c ex ey ez.
  assert (Hx : exists xs,
             columns 0 c = Some xs
             /\ amin xs = Some (cx - ex / 2) /\ amax xs = Some (cx + ex / 2)).
  { eexists. split; [unfold c; cbn; reflexivity|].
    replace (ex / 2)
      with (Rabs (cos yaw * (w / 2)) + Rabs (sin yaw * (h / 2)))
      by (unfold ex;
          replace (cos yaw * (w / 2)) with (w * cos yaw / 2) by field;
          replace (sin yaw * (h / 2)) with (h * sin yaw / 2) by field;
          rewrite !Rabs_half; field).
    apply amin_signs; try pick_member.
    intros v Hv. cbn [In] in Hv.
    repeat (destruct Hv as [<- | Hv];
            [first [left; lra | right; left; lra | right; right; left; lra
                   | right; right; right; lra]|]).
    contradiction. }
  assert (Hys : exists ys,
             columns 1 c = Some ys
             /\ amin ys = Some (cy - ey / 2) /\ amax ys = Some (cy + ey / 2)).
  { eexists. split; [unfold c; cbn; reflexivity|].
    replace (ey / 2)
      with (Rabs (sin yaw * (w / 2)) + Rabs (cos yaw * (h / 2)))
      by (unfold ey;
          replace (sin yaw * (w / 2)) with (w * sin yaw / 2) by field;
          replace (cos yaw * (h / 2)) with (h * cos yaw / 2) by field;
          rewrite !Rabs_half; field).
    apply amin_signs; try pick_member.
    intros v Hv. cbn [In] in Hv.
    repeat (destruct Hv as [<- | Hv];
            [first [left; lra | right; left; lra | right; right; left; lra
                   | right; right; right; lra]|]).
    contradiction. }
  assert (Hz : exists zs,
             columns 2 c = Some zs
             /\ amin zs = Some (cz - ez / 2) /\ amax zs = Some (cz + ez / 2)).
  { eexists. split; [unfold c; cbn; reflexivity|].
    replace (ez / 2) with (Rabs (d / 2) + Rabs 0)
      by (unfold ez; rewrite Rabs_half, Rabs_R0; lra).
    apply amin_signs; try pick_member.
    intros v Hv. cbn [In] in Hv.
    repeat (destruct Hv as [<- | Hv];
            [first [left; lra | right; left; lra | right; right; left; lra
                   | right; right; right; lra]|]).
    contradiction. }
  destruct Hx as (xs & Exs & Exmin & Exmax).
  destruct Hys as (ys & Eys & Eymin & Eymax).
  destruct Hz as (zs & Ezs & Ezmin & Ezmax).
  unfold draw_roi. cbn [fst snd].
  rewrite Exs, Eys, Ezs, Exmin, Exmax, Eymin, Eymax, Ezmin, Ezmax.
  repeat split; repeat (f_equal; try lra).
Qed.

(** X18.  The rectangle drawn in each 2-D view is the axis-aligned
    bounding rectangle of the rotated box: it is centred on the box centre
    projected to the view, and its size is [|w cos yaw| + |h sin yaw|]
    along x, [|w sin yaw| + |h cos yaw|] along y and [|d|] along z. *)
Theorem draw_roi_is_bounding_rectangle (cx cy cz w h d yaw : R) :
  let c := _corners cx cy cz w h d yaw in
  let ex := Rabs (w * cos yaw) + Rabs (h * sin yaw) in
  let ey := Rabs (w * sin yaw) + Rabs (h * cos yaw) in
  let ez := Rabs d in
  map (draw_roi c) views
  = [Some (mkROI (cx - ex / 2, cy - ey / 2) (ex, ey));
     Some (mkROI (cx - ex / 2, cz - ez / 2) (ex, ez));
     Some (mkROI (cy - ey / 2, cz - ez / 2) (ey, ez))].
Proof.
  intros c ex ey ez.
  destruct (draw_roi_rect cx cy cz w h d yaw) as (Hxy & Hxz & Hyz).
  subst c. unfold views. cbn [map]. rewrite Hxy, Hxz, Hyz. reflexivity.
Qed.

Close Scope R_scope.

Ltac eval_axes :=
  repeat match goal with
         | |- context [axes_eqb ?a ?b] =>
             let v := eval vm_compute in (axes_eqb a b) in
             change (axes_eqb a b) with v
         end;
  cbv iota.

(** X19.  Committing the rectangle the editor has just drawn, unmoved,
    keeps the centre, the yaw and the tail of the box and stores the
    bounding extents of the view; for a box with yaw [0] and extents that
    are not negative this is the parameter list that was there. *)
Theorem roi_commit_after_draw
    (renders : list Label -> list vec3 -> bool) (ed : Editor) (idx : nat)
    (cx cy cz w h d yaw : R) (tail : list R) (axes : Z * Z) (roi : ROI) :
  fst (_bbox_params idx ed) = Some ([cx; cy; cz; w; h; d; yaw] ++ tail) ->
  In axes views ->
  draw_roi (_corners cx cy cz w h d yaw) axes = Some roi ->
  let ex := (Rabs (w * cos yaw) + Rabs (h * sin yaw))%R in
  let ey := (Rabs (w * sin yaw) + Rabs (h * cos yaw))%R in
  let ez := Rabs d in
  let after :=
    fst (_bbox_params idx (snd (_roi_moved renders roi idx axes ed))) in
  after
  = Some ((if axes_eqb axes (0, 1)%Z then [cx; cy; cz; ex; ey; d; yaw]
           else if axes_eqb axes (0, 2)%Z then [cx; cy; cz; ex; h; ez; yaw]
           else [cx; cy; cz; w; ey; ez; yaw]) ++ tail)
  /\ (yaw = 0%R -> (0 <= w)%R -> (0 <= h)%R -> (0 <= d)%R ->
      after = Some ([cx; cy; cz; w; h; d; yaw] ++ tail)).
Proof.
  intros Hbb Hax Hroi ex ey ez after.
  destruct (bbox_params_inv _ _ _ Hbb) as (rec & labs & lab & E1 & E2 & E3 & Ebb).
  destruct (draw_roi_rect cx cy cz w h d yaw) as (Hxy & Hxz & Hyz).
  fold ex ey ez in Hxy, Hxz, Hyz. unfold views in Hax.
  assert (Hafter :
    after
    = Some ((if axes_eqb axes (0, 1)%Z then [cx; cy; cz; ex; ey; d; yaw]
             else if axes_eqb axes (0, 2)%Z then [cx; cy; cz; ex; h; ez; yaw]
             else [cx; cy; cz; w; ey; ez; yaw]) ++ tail)).
  { unfold after.
    destruct Hax as [<- | [<- | [<- | []]]].
    - rewrite Hxy in Hroi. injection Hroi as <-.
      rewrite (roi_moved_state renders ed idx rec labs lab cx cy cz w h d yaw
                 tail _ _ _ _ (0, 1)%Z E1 E2 E3 Ebb).
      rewrite (bbox_params_with_labels idx ed rec labs lab _ idx E1 E3).
      rewrite Nat.eqb_refl. cbn [BoundingBoxes]. unfold committed.
      eval_axes. cbn [app].
      repeat (f_equal; try lra).
    - rewrite Hxz in Hroi. injection Hroi as <-.
      rewrite (roi_moved_state renders ed idx rec labs lab cx cy cz w h d yaw
                 tail _ _ _ _ (0, 2)%Z E1 E2 E3 Ebb).
      rewrite (bbox_params_with_labels idx ed rec labs lab _ idx E1 E3).
      rewrite Nat.eqb_refl. cbn [BoundingBoxes]. unfold committed.
      eval_axes. cbn [app].
      repeat (f_equal; try lra).
    - rewrite Hyz in Hroi. injection Hroi as <-.
      rewrite (roi_moved_state renders ed idx rec labs lab cx cy cz w h d yaw
                 tail _ _ _ _ (1, 2)%Z E1 E2 E3 Ebb).
      rewrite (bbox_params_with_labels idx ed rec labs lab _ idx E1 E3).
      rewrite Nat.eqb_refl. cbn [BoundingBoxes]. unfold committed.
      eval_axes. cbn [app].
      repeat (f_equal; try lra). }
  split; [exact Hafter|].
  intros -> Hw Hh Hd. rewrite Hafter.
  assert (Eex : ex = w).
  { unfold ex. rewrite cos_0, sin_0, Rmult_1_r, Rmult_0_r, Rabs_R0.
    rewrite Rabs_right by lra. lra. }
  assert (Eey : ey = h).
  { unfold ey. rewrite cos_0, sin_0, Rmult_1_r, Rmult_0_r, Rabs_R0.
    rewrite Rabs_right by lra. lra. }
  assert (Eez : ez = d) by (unfold ez; apply Rabs_right; lra).
  rewrite Eex, Eey, Eez.
  destruct (axes_eqb axes (0, 1)%Z); [reflexivity|].
  destruct (axes_eqb axes (0, 2)%Z); reflexivity.
Qed.

Lemma roi_commit_after_draw_witness :
  fst (_bbox_params 0
         (snd (_roi_moved (fun _ _ => true)
                 (mkROI (10 - (Rabs (1 * cos 0) + Rabs (2 * sin 0)) / 2,
                         20 - (Rabs (1 * sin 0) + Rabs (2 * cos 0)) / 2)
                    (Rabs (1 * cos 0) + Rabs (2 * sin 0),
                     Rabs (1 * sin 0) + Rabs (2 * cos 0)))%R
                 0 (0, 1)%Z demo_editor)))
  = Some (BoundingBoxes demo_label).
Proof.
  apply (proj2 (roi_commit_after_draw (fun _ _ => true) demo_editor 0
                  10 20 30 1 2 3 0 [7; 8]%R (0, 1)%Z _ eq_refl
                  (or_introl eq_refl)
                  (proj1 (draw_roi_rect 10 20 30 1 2 3 0))));
    [reflexivity | lra | lra | lra].
Defined.

(** ** Saving *)

Section SavePath.
Import PyStr.
Local Open Scope string_scope.

Lemma prefix_cons a s1 b s2 :
  String.prefix (String a s1) (String b s2)
  = Ascii.eqb a b && String.prefix s1 s2.
Proof.
  cbn [String.prefix]. destruct (ascii_dec a b) as [-> | H].
  - rewrite Ascii.eqb_refl. reflexivity.
  - apply Ascii.eqb_neq in H. rewrite H. reflexivity.
Qed.

Lemma prefix_nil_r a s : String.prefix (String a s) "" = false.
Proof. reflexivity. Qed.

Lemma prefix_nil_l s : String.prefix "" s = true.
Proof. destruct s; reflexivity. Qed.

Lemma replace_absent old new s :
  contains s old = false -> replace s old new = s.
Proof.
  unfold replace. induction s as [|c t IH]; [reflexivity|].
  cbn [contains replace_from]. intros H.
  apply orb_false_iff in H as [Hp Ht]. rewrite Hp, (IH Ht). reflexivity.
Qed.

(** When the replacement starts with another character than the pattern,
    a string that comes back unchanged held no occurrence. *)
Lemma replace_fixed a old b new s :
  a <> b ->
  replace s (String a old) (String b new) = s ->
  contains s (String a old) = false.
Proof.
  intros Hab. unfold replace. induction s as [|c t IH]; [reflexivity|].
  cbn [contains replace_from].
  destruct (String.prefix (String a old) (String c t)) eqn:Hp.
  - intros E. exfalso. cbn [append] in E. injection E as Ebc _.
    rewrite prefix_cons in Hp. apply andb_true_iff in Hp as [Hac _].
    apply Ascii.eqb_eq in Hac. congruence.
  - intros E. injection E as E. rewrite (IH E). reflexivity.
Qed.

Ltac split_chars :=
  repeat match goal with
         | |- context [Ascii.eqb ?x ?y] => destruct (Ascii.eqb_spec x y)
         end.

(** An occurrence of [".json"] that starts before the end of [a] in
    [a ++ ".json" ++ b] already shows in [a ++ ".jso"]. *)
Lemma prefix_json_inside c t b :
  String.prefix ".json" (String c t ++ ".jso") = false ->
  String.prefix ".json" (String c t ++ ".json" ++ b) = false.
Proof.
  destruct t as [|c1 [|c2 [|c3 [|c4 t]]]]; cbn [append];
    rewrite ?prefix_cons, ?prefix_nil_r, ?prefix_nil_l;
    split_chars; cbn [andb]; congruence.
Qed.

(** The first occurrence and what follows it. *)
Lemma replace_json_first a b :
  contains (a ++ ".jso") ".json" = false ->
  replace (a ++ ".json" ++ b) ".json" "_edited.json"
  = a ++ "_edited.json" ++ replace b ".json" "_edited.json".
Proof.
  unfold replace. induction a as [|c t IH].
  - intros _. cbn [append replace_from String.length Nat.sub].
    rewrite !prefix_cons, prefix_nil_l, !Ascii.eqb_refl. reflexivity.
  - intros H. change (String c t ++ ".jso") with (String c (t ++ ".jso")) in H.
    cbn [contains] in H. apply orb_false_iff in H as [Hp Ht].
    change (String c (t ++ ".jso")) with (String c t ++ ".jso") in Hp.
    apply (prefix_json_inside c t b) in Hp.
    change (String c t ++ ".json" ++ b)
      with (String c (t ++ ".json" ++ b)) in *.
    cbn [replace_from]. rewrite Hp, (IH Ht). reflexivity.
Qed.

Lemma replace_json_end a :
  contains (a ++ ".jso") ".json" = false ->
  replace (a ++ ".json") ".json" "_edited.json" = a ++ "_edited.json".
Proof. intros H. apply (replace_json_first a "" H). Qed.

End SavePath.

(** X20.  [_save] opens, for writing, the path obtained by replacing
    every [".json"] in the path the editor was opened with by
    ["_edited.json"]: the first occurrence and every later one, so also
    one in a directory name.  When that path can be opened, the editor's
    records are written there as they are and no other path changes; when
    it cannot, the call raises and no file has changed.  The file the
    editor was opened with can therefore be written only when its path
    holds no [".json"] (an upper-case extension, say); a path that ends in
    [".json"] and holds no other occurrence gets ["_edited"] inserted
    before the extension. *)
Theorem save_writes_beside_the_json
    (json_path : string) (can_open : string -> bool)
    (files : string -> option (list Rec)) (ed : Editor) :
  let out := PyStr.replace json_path ".json" "_edited.json" in
  let run := _save json_path can_open files ed in
  (can_open out = true ->
   fst run = Some out
   /\ snd run out = Some (data ed)
   /\ forall p, p <> out -> snd run p = files p)
  /\ (can_open out = false -> run = (None, files))
  /\ (PyStr.contains json_path ".json" = true ->
      out <> json_path /\ snd run json_path = files json_path)
  /\ (PyStr.contains json_path ".json" = false -> out = json_path)
  /\ (forall a b,
        json_path = (a ++ ".json" ++ b)%string ->
        PyStr.contains (a ++ ".jso") ".json" = false ->
        out = (a ++ "_edited.json"
                 ++ PyStr.replace b ".json" "_edited.json")%string)
  /\ (forall stem,
        json_path = (stem ++ ".json")%string ->
        PyStr.contains (stem ++ ".jso") ".json" = false ->
        out = (stem ++ "_edited.json")%string).
Proof.
  intros out run. unfold run, _save. fold out.
  assert (Hne : PyStr.contains json_path ".json" = true -> out <> json_path).
  { intros Hc E.
    apply (replace_fixed "." "json" "_" "edited.json") in E;
      [congruence | discriminate]. }
  split.
  { intros Ho. rewrite Ho. cbn [fst snd].
    split; [reflexivity|]. split; [rewrite String.eqb_refl; reflexivity|].
    intros p Hp. apply String.eqb_neq in Hp. rewrite Hp. reflexivity. }
  split; [intros Ho; rewrite Ho; reflexivity|].
  split.
  { intros Hc. split; [apply Hne, Hc|].
    destruct (can_open out); [|reflexivity]. cbn [snd].
    assert (Hj : json_path <> out)
      by (intros E; apply (Hne Hc); symmetry; exact E).
    apply String.eqb_neq in Hj. rewrite Hj. reflexivity. }
  split; [apply replace_absent|].
  split.
  - intros a b -> Hs. apply replace_json_first. exact Hs.
  - intros stem -> Hs. apply replace_json_end. exact Hs.
Qed.

Lemma save_writes_beside_the_json_witness :
  _save "/data/run.json.d/labels.json"
    (fun p => negb (Str.startswith p "/data/run_edited.json.d/"))
    (fun _ => None) demo_editor
  = (None, fun _ => None).
Proof.
  apply (save_writes_beside_the_json "/data/run.json.d/labels.json"
           (fun p => negb (Str.startswith p "/data/run_edited.json.d/"))
           (fun _ => None) demo_editor).
  reflexivity.
Defined.

(** ** The rotation control on doubles *)

(** X21.  On IEEE doubles, as CPython computes [math.radians],
    [math.degrees], [%] and [int], the yaw that [_rot_bbox] stores for a
    slider position is shown again by [_sync_slider] as that position,
    with these exceptions: at 15, 30, 60, 120, 231, 240 and 249 the
    product falls just below the whole number and truncation shows one
    degree less, and 360 is shown as 0. *)
Theorem rot_then_sync_on_doubles (deg : Z) :
  (0 <= deg <= 360)%Z ->
  Float64.rot_then_sync deg = Some (shown_after deg).
Proof.
  intros H.
  assert (Hall :
    forallb (fun d => match Float64.rot_then_sync d with
                      | Some v => Z.eqb v (shown_after d)
                      | None => false
                      end)
            (map Z.of_nat (seq 0 361)) = true)
    by (vm_compute; reflexivity).
  rewrite forallb_forall in Hall. specialize (Hall deg).
  destruct (Float64.rot_then_sync deg) as [v|].
  - f_equal. apply Z.eqb_eq. apply Hall.
    apply in_map_iff. exists (Z.to_nat deg).
    split; [lia | apply in_seq; lia].
  - assert (E : false = true); [|discriminate E].
    apply Hall. apply in_map_iff. exists (Z.to_nat deg).
    split; [lia | apply in_seq; lia].
Qed.

Lemma rot_then_sync_on_doubles_witness :
  Float64.rot_then_sync 15 = Some 14%Z.
Proof.
  apply (rot_then_sync_on_doubles 15). lia.
Defined.

(** ** Runs on concrete inputs *)

Example splitext_samples :
  map Str.splitext
      ["a.b.pcd"; ".pcd"; "..pcd"; "d.x/file"; "x/.pcd.pcd"; "a."; ""]%string
  = [("a.b", ".pcd"); (".pcd", ""); ("..pcd", ""); ("d.x/file", "");
     ("x/.pcd", ".pcd"); ("a", "."); ("", "")]%string.
Proof. reflexivity. Qed.

Example strip_samples :
  map Str.strip ["  a b  "; "   "; "car"]%string = ["a b"; ""; "car"]%string.
Proof. reflexivity. Qed.

Example ratio_samples :
  map (fun p => Qred (Difflib.ratio (fst p) (snd p)))
      [("abcd", "bcde"); ("apple", "ape"); ("wheel", "whale");
       ("scan_0001", "cloud_scan_0001_x"); ("", "")]%string
  = [3 # 4; 3 # 4; 3 # 5; 9 # 13; 1].
Proof. vm_compute. reflexivity. Qed.

Example get_close_matches_sample :
  Difflib.get_close_matches Difflib.ratio "appel"
    ["ape"; "apple"; "peach"; "puppy"]%string 3 default_cutoff
  = Some ["apple"; "ape"]%string.
Proof. vm_compute. reflexivity. Qed.

Example sync_sample :
  sync_json_pcd_filenames Difflib.ratio
    [file_rec "scan_b.json"; file_rec "scan_a"]%string
    ["scan_a.PCD"; "notes.txt"; "scan_b.pcd"]%string default_cutoff
  = (SyncComplete, [file_rec "scan_a.pcd"; file_rec "scan_b.pcd"]%string).
Proof. vm_compute. reflexivity. Qed.

Example sync_count_sample :
  sync_json_pcd_filenames Difflib.ratio [file_rec "scan_b.json"]%string
    ["scan_a.pcd"; "scan_b.pcd"]%string default_cutoff
  = (CountMismatch 1 2, [file_rec "scan_b.json"]%string).
Proof. vm_compute. reflexivity. Qed.

Example find_pcd_fuzzy_sample :
  fst (_find_pcd Difflib.ratio ["scan_0007.pcd"; "scan_0100.pcd"]%string
         "scan_0007.png" demo_editor)
  = Some (Some "scan_0007.pcd"%string).
Proof. reflexivity. Qed.

Example find_pcd_none_sample :
  fst (_find_pcd Difflib.ratio ["scan_0007.pcd"]%string "zzz.png" demo_editor)
  = Some None.
Proof. reflexivity. Qed.

Example replace_samples :
  map (fun p => PyStr.replace p ".json" "_edited.json")
      ["a.json"; "run.json.d/a.json"; "labels.JSON"; "a.jsonl"]%string
  = ["a_edited.json"; "run_edited.json.d/a_edited.json"; "labels.JSON";
     "a_edited.jsonl"]%string.
Proof. reflexivity. Qed.

Example save_sample :
  fst (_save "/data/run1/labels.json" (fun _ => true) (fun _ => None)
         demo_editor)
  = Some "/data/run1/labels_edited.json"%string.
Proof. reflexivity. Qed.

Example rot_then_sync_samples :
  map Float64.rot_then_sync [0; 14; 15; 16; 90; 359; 360]%Z
  = map Some [0; 14; 14; 16; 90; 359; 0]%Z.
Proof. vm_compute. reflexivity. Qed.

Example init_sample :
  option_map combo
    (__init__ Difflib.ratio [] (fun _ => Some []) (fun _ _ => true)
       (data demo_editor))
  = Some ["human1"]%string.
Proof. reflexivity. Qed.
